(** * MCP proxy server: a shallow embedding of the transport bridge

    The development follows the layout of the repository:
    - [Json], [Schemas]   : src/validation/schemas.ts (zod schemas, error helpers)
    - [Store]             : the objects shared by reference (sessions, managed
                            processes, express responses) and the two managers
    - [Text]              : the string and array methods of JavaScript that
                            the code calls
    - [Transport]         : src/transport/streamable-http.ts
    - [ProcessManager]    : src/process/manager.ts
    - [SessionManager]    : src/session/manager.ts
    - [Proxy]             : src/proxy/server.ts (class MCPProxyServer)
    - [Http]              : src/server/http.ts  (class HTTPServer)

    Maps of the source ([Map<string, _>]) are stdpp [gmap]s; objects that are
    shared between several owners live in a store and are named by a
    location.  JavaScript numbers that the modelled code only counts with or
    compares are integers ([Z]). *)

From Stdlib Require Import ZArith List String Ascii Bool Lia DecimalString.
From stdpp Require Import base option list gmap strings.

Set Warnings "-register-all".
Local Open Scope string_scope.
Local Open Scope Z_scope.

(* ===================================================================== *)
(** ** JSON values, as [express.json] hands them to the handlers *)
(* ===================================================================== *)

Module Json.

Inductive json : Type :=
| JNull
| JBool (b : bool)
| JNum (n : Z)
| JStr (s : string)
| JArr (items : list json)
| JObj (fields : list (string * json)).

(** [data[key]] on the own properties of an object; [None] is [undefined]. *)
Fixpoint get (key : string) (fields : list (string * json)) : option json :=
  match fields with
  | [] => None
  | (k, v) :: rest => if String.eqb k key then Some v else get key rest
  end.

(** [Boolean(v)]: the falsy JSON values are [null], [false], [0] and [""]. *)
Definition truthy (v : json) : bool :=
  match v with
  | JNull => false
  | JBool b => b
  | JNum n => negb (n =? 0)
  | JStr s => negb (String.eqb s "")
  | JArr _ | JObj _ => true
  end.

(** [Boolean(x)] for a possibly [undefined] property. *)
Definition Boolean (o : option json) : bool :=
  match o with
  | None => false
  | Some v => truthy v
  end.

End Json.

(* ===================================================================== *)
(** ** src/validation/schemas.ts *)
(* ===================================================================== *)

Module Schemas.
Import Json.

Inductive JSONRPCId : Type :=
| IdString (s : string)
| IdNumber (n : Z)
| IdNull.

Record JSONRPCError : Type := mkError {
  code : Z;
  message : string;
  data : option json;
}.

(** [JSONRPCRequestSchema]: [id] optional, [method] a string. *)
Record JSONRPCRequest : Type := mkRequest {
  req_id : option JSONRPCId;
  req_method : string;
  req_params : option json;
}.

(** [JSONRPCResponseSchema] before its refinement. *)
Record JSONRPCResponse : Type := mkResponse {
  res_id : JSONRPCId;
  res_result : option json;
  res_error : option JSONRPCError;
}.

(** [JSONRPCNotificationSchema]: zod strips every key it does not list, so
    a parsed notification never has an [id]. *)
Record JSONRPCNotification : Type := mkNotification {
  ntf_method : string;
  ntf_params : option json;
}.

(** One (non-array) JSON-RPC message. *)
Inductive JSONRPCMessage : Type :=
| Request (r : JSONRPCRequest)
| Response (r : JSONRPCResponse)
| Notification (n : JSONRPCNotification).

(** What [JSONRPCMessageSchema] produces: one message or a batch. *)
Inductive Parsed : Type :=
| Single (m : JSONRPCMessage)
| Batch (ms : list JSONRPCMessage).

(** [z.literal('2.0')] *)
Definition JSONRPCVersionSchema (o : option json) : option unit :=
  match o with
  | Some (JStr s) => if String.eqb s "2.0" then Some tt else None
  | _ => None
  end.

(** [z.union([z.string(), z.number(), z.null()])] *)
Definition JSONRPCIdSchema (o : option json) : option JSONRPCId :=
  match o with
  | Some (JStr s) => Some (IdString s)
  | Some (JNum n) => Some (IdNumber n)
  | Some JNull => Some IdNull
  | _ => None
  end.

(** [schema.optional()]: [undefined] passes, anything else goes to [schema]. *)
Definition optional {A} (schema : option json → option A)
    (o : option json) : option (option A) :=
  match o with
  | None => Some None
  | Some _ => Some <$> schema o
  end.

(** [z.string()] *)
Definition zstring (o : option json) : option string :=
  match o with
  | Some (JStr s) => Some s
  | _ => None
  end.

(** [z.number()] *)
Definition znumber (o : option json) : option Z :=
  match o with
  | Some (JNum n) => Some n
  | _ => None
  end.

Definition JSONRPCErrorSchema (o : option json) : option JSONRPCError :=
  match o with
  | Some (JObj fs) =>
      c ← znumber (get "code" fs);
      m ← zstring (get "message" fs);
      Some (mkError c m (get "data" fs))
  | _ => None
  end.

Definition JSONRPCRequestSchema (v : json) : option JSONRPCRequest :=
  match v with
  | JObj fs =>
      _ ← JSONRPCVersionSchema (get "jsonrpc" fs);
      i ← optional JSONRPCIdSchema (get "id" fs);
      m ← zstring (get "method" fs);
      Some (mkRequest i m (get "params" fs))
  | _ => None
  end.

(** The predicate handed to [.refine]:
    [Boolean(data.result) !== Boolean(data.error)]. *)
Definition response_refinement (r : JSONRPCResponse) : bool :=
  negb (Bool.eqb (Boolean (res_result r))
                 (match res_error r with Some _ => true | None => false end)).

Definition JSONRPCResponseSchema (v : json) : option JSONRPCResponse :=
  match v with
  | JObj fs =>
      _ ← JSONRPCVersionSchema (get "jsonrpc" fs);
      i ← JSONRPCIdSchema (get "id" fs);
      e ← optional JSONRPCErrorSchema (get "error" fs);
      let r := mkResponse i (get "result" fs) e in
      if response_refinement r then Some r else None
  | _ => None
  end.

Definition JSONRPCNotificationSchema (v : json) : option JSONRPCNotification :=
  match v with
  | JObj fs =>
      _ ← JSONRPCVersionSchema (get "jsonrpc" fs);
      m ← zstring (get "method" fs);
      Some (mkNotification m (get "params" fs))
  | _ => None
  end.

(** [z.union(options)]: the first option that accepts wins. *)
Definition union {A} (a b : option A) : option A :=
  match a with
  | Some x => Some x
  | None => b
  end.

(** The element schema of a batch:
    [z.union([JSONRPCRequestSchema, JSONRPCNotificationSchema])]. *)
Definition batch_item (v : json) : option JSONRPCMessage :=
  union (Request <$> JSONRPCRequestSchema v)
        (Notification <$> JSONRPCNotificationSchema v).

(** [z.array(item)]: every element must parse. *)
Fixpoint zarray (items : list json) : option (list JSONRPCMessage) :=
  match items with
  | [] => Some []
  | v :: rest =>
      m ← batch_item v;
      ms ← zarray rest;
      Some (m :: ms)
  end.

(** [z.array(...).min(1)] *)
Definition JSONRPCBatchSchema (v : json) : option (list JSONRPCMessage) :=
  match v with
  | JArr items =>
      ms ← zarray items;
      if (1 <=? length ms)%nat then Some ms else None
  | _ => None
  end.

(** [JSONRPCMessageSchema.safeParse(body)]; [None] is [success: false]. *)
Definition JSONRPCMessageSchema (v : json) : option Parsed :=
  union (Single ∘ Request <$> JSONRPCRequestSchema v)
    (union (Single ∘ Response <$> JSONRPCResponseSchema v)
      (union (Single ∘ Notification <$> JSONRPCNotificationSchema v)
             (Batch <$> JSONRPCBatchSchema v))).

(** Error helpers.  [createJSONRPCError] adds [data] only when it is not
    [undefined]. *)
Definition createJSONRPCError (c : Z) (m : string) (d : option json)
  : JSONRPCError := mkError c m d.

Definition createParseError (d : option json) : JSONRPCError :=
  createJSONRPCError (-32700) "Parse error" d.

Definition createInvalidRequest (d : option json) : JSONRPCError :=
  createJSONRPCError (-32600) "Invalid Request" d.

Definition createInternalError (d : option json) : JSONRPCError :=
  createJSONRPCError (-32603) "Internal error" d.

Definition createServerError (m : string) (d : option json) : JSONRPCError :=
  createJSONRPCError (-32000) m d.

(** ['id' in message] and [message.id]. *)
Definition has_id (m : JSONRPCMessage) : bool :=
  match m with
  | Request r => match req_id r with Some _ => true | None => false end
  | Response _ => true
  | Notification _ => false
  end.

Definition message_id (m : JSONRPCMessage) : option JSONRPCId :=
  match m with
  | Request r => req_id r
  | Response r => Some (res_id r)
  | Notification _ => None
  end.

End Schemas.

(* ===================================================================== *)
(** ** The objects of the running proxy *)
(* ===================================================================== *)

Module Store.
Import Json Schemas.

(** Objects that several owners hold by reference are named by a location. *)
Definition loc : Type := nat.

(** A thrown [Error]; the payload is its message. *)
Inductive Error : Type :=
| Err (msg : string)
| TypeError (msg : string).

(** [String(n)] for an integer. *)
Definition String_of_Z (n : Z) : string :=
  NilZero.string_of_int (Z.to_int n).

(** [String(error)] *)
Definition String_of_error (e : Error) : string :=
  match e with
  | Err msg => "Error: " +:+ msg
  | TypeError msg => "TypeError: " +:+ msg
  end.

Record ServerConfig : Type := mkServerConfig {
  name : string;
  command : string;
  args : list string;
  env : list (string * string);
  cwd : option string;
  endpoint : option string;
}.

Inductive Status : Type := stopped | running | crashed.

Definition Status_eqb (a b : Status) : bool :=
  match a, b with
  | stopped, stopped | running, running | crashed, crashed => true
  | _, _ => false
  end.

(** The [ChildProcess] of node, as far as the proxy touches it: the bytes
    written to its stdin pipe ([None]: the child has no stdin stream) and
    the signals sent to it. *)
Record ChildProcess : Type := mkChild {
  pid : Z;
  stdin : option string;
  signals : list string;
}.

(** [class ManagedProcess]; the line buffers and the start time play no
    part in the operations modelled here. *)
Record ManagedProcess : Type := mkManaged {
  mp_id : string;
  mp_config : ServerConfig;
  process : option ChildProcess;
  restarts : nat;
  status : Status;
}.

(** [interface SSEEvent]; [sse_id] is the number the source renders with
    [String(...)]. *)
Record SSEEvent : Type := mkEvent {
  sse_id : option Z;
  sse_event : option string;
  sse_data : string;
  sse_retry : option Z;
}.

(** What [res.write] puts on the wire of an SSE stream. *)
Inductive Chunk : Type :=
| Comment (text : string)
| Event (e : SSEEvent).

(** What [res.json] sends. *)
Inductive Body : Type :=
| BodyMessage (m : JSONRPCMessage)
| BodyBatch (ms : list JSONRPCMessage)
| BodyObject (fields : list (string * string)).

(** An express [Response]: the status, the headers the handlers set, the
    JSON body, the chunks written and whether [end] was called. *)
Record Res : Type := mkRes {
  statusCode : option Z;
  headers : list (string * string);
  body : option Body;
  written : list Chunk;
  ended : bool;
}.

Definition fresh_res : Res := mkRes None [] None [] false.

(** An express [Request]; header names are lower-case, as node delivers
    them. *)
Record Req : Type := mkReq {
  req_verb : string;
  req_headers : list (string * string);
  req_body : json;
}.

(** [interface Session].  [stdioProcess] refers to a [ManagedProcess]
    object; [sseConnections] is a JavaScript [Set] of [Response] objects,
    kept in insertion order. *)
Record Session : Type := mkSession {
  id : string;
  createdAt : Z;
  lastActivityAt : Z;
  serverConfig : ServerConfig;
  stdioProcess : option loc;
  messageQueue : list Parsed;
  isInitialized : bool;
  sseConnections : list loc;
}.

(** [class SessionManager] *)
Record SessionManager : Type := mkSessionManager {
  sessions : gmap string Session;
  sessionTimeout : Z;
  maxSessions : Z;
}.

(** [class ProcessManager]; [processes] maps a handle id to its
    [ManagedProcess] object. *)
Record ProcessManager : Type := mkProcessManager {
  processes : gmap string loc;
  restartAttempts : gmap string Z;
  maxRestartAttempts : Z;
  restartDelay : Z;
}.

(** [class StreamableHTTPTransport] *)
Record Transport : Type := mkTransport {
  batchTimeout : Z;
  sessionHeader : string;
  maxEventSize : Z;
  eventCounter : Z;
}.

(** One [HTTPServer] with its [MCPProxyServer].  The front end and the
    proxy each construct a transport of their own. *)
Record World : Type := mkWorld {
  sessionManager : SessionManager;
  processManager : ProcessManager;
  heap : gmap loc ManagedProcess;
  nextLoc : loc;
  sockets : gmap loc Res;
  proxyTransport : Transport;
  httpTransport : Transport;
  serverConfigs : gmap string ServerConfig;
  isShuttingDown : bool;
}.

Definition with_sessionManager (sm : SessionManager) (w : World) : World :=
  mkWorld sm (processManager w) (heap w) (nextLoc w) (sockets w)
          (proxyTransport w) (httpTransport w) (serverConfigs w)
          (isShuttingDown w).

Definition with_sessions (m : gmap string Session) (w : World) : World :=
  with_sessionManager
    (mkSessionManager m (sessionTimeout (sessionManager w))
                      (maxSessions (sessionManager w))) w.

Definition with_processManager (pm : ProcessManager) (w : World) : World :=
  mkWorld (sessionManager w) pm (heap w) (nextLoc w) (sockets w)
          (proxyTransport w) (httpTransport w) (serverConfigs w)
          (isShuttingDown w).

Definition with_heap (h : gmap loc ManagedProcess) (w : World) : World :=
  mkWorld (sessionManager w) (processManager w) h (nextLoc w) (sockets w)
          (proxyTransport w) (httpTransport w) (serverConfigs w)
          (isShuttingDown w).

Definition with_nextLoc (n : loc) (w : World) : World :=
  mkWorld (sessionManager w) (processManager w) (heap w) n (sockets w)
          (proxyTransport w) (httpTransport w) (serverConfigs w)
          (isShuttingDown w).

Definition with_sockets (s : gmap loc Res) (w : World) : World :=
  mkWorld (sessionManager w) (processManager w) (heap w) (nextLoc w) s
          (proxyTransport w) (httpTransport w) (serverConfigs w)
          (isShuttingDown w).

Definition with_proxyTransport (t : Transport) (w : World) : World :=
  mkWorld (sessionManager w) (processManager w) (heap w) (nextLoc w)
          (sockets w) t (httpTransport w) (serverConfigs w)
          (isShuttingDown w).

Definition with_isShuttingDown (b : bool) (w : World) : World :=
  mkWorld (sessionManager w) (processManager w) (heap w) (nextLoc w)
          (sockets w) (proxyTransport w) (httpTransport w) (serverConfigs w)
          b.

Definition with_httpTransport (t : Transport) (w : World) : World :=
  mkWorld (sessionManager w) (processManager w) (heap w) (nextLoc w)
          (sockets w) (proxyTransport w) t (serverConfigs w)
          (isShuttingDown w).

(** The session a handler works on: [this.sessions.get(sessionId)]. *)
Definition session_of (w : World) (sessionId : string) : option Session :=
  sessions (sessionManager w) !! sessionId.

(** Field updates of a session object. *)
Definition set_lastActivityAt (t : Z) (s : Session) : Session :=
  mkSession (id s) (createdAt s) t (serverConfig s) (stdioProcess s)
            (messageQueue s) (isInitialized s) (sseConnections s).

Definition set_stdioProcess (p : option loc) (s : Session) : Session :=
  mkSession (id s) (createdAt s) (lastActivityAt s) (serverConfig s) p
            (messageQueue s) (isInitialized s) (sseConnections s).

Definition set_messageQueue (q : list Parsed) (s : Session) : Session :=
  mkSession (id s) (createdAt s) (lastActivityAt s) (serverConfig s)
            (stdioProcess s) q (isInitialized s) (sseConnections s).

Definition set_isInitialized (b : bool) (s : Session) : Session :=
  mkSession (id s) (createdAt s) (lastActivityAt s) (serverConfig s)
            (stdioProcess s) (messageQueue s) b (sseConnections s).

Definition set_sseConnections (c : list loc) (s : Session) : Session :=
  mkSession (id s) (createdAt s) (lastActivityAt s) (serverConfig s)
            (stdioProcess s) (messageQueue s) (isInitialized s) c.

(** [Set.prototype.add] and [Set.prototype.delete] on an insertion-ordered
    set of locations. *)
Definition Set_add (c : loc) (s : list loc) : list loc :=
  if bool_decide (c ∈ s) then s else s ++ [c].

Definition Set_delete (c : loc) (s : list loc) : list loc :=
  filter (λ x, x ≠ c) s.

(** *** Computations of the proxy

    A method of the source runs on the objects of the world, may change
    them, and returns or throws.  Event listeners call back into the
    object that emitted the event, so the listeners are indexed by their
    nesting depth (see [Proxy.listeners]); [None] says that the nesting
    allowance was used up, which the totality lemmas exclude. *)

Inductive Outcome (A : Type) : Type :=
| Ok (a : A)
| Throw (e : Error).
Arguments Ok {A} a.
Arguments Throw {A} e.

Definition M (A : Type) : Type := World → option (World * Outcome A).

Definition ret {A} (a : A) : M A := λ w, Some (w, Ok a).

Definition throw {A} (e : Error) : M A := λ w, Some (w, Throw e).

Definition bind {A B} (c : M A) (k : A → M B) : M B :=
  λ w, match c w with
       | None => None
       | Some (w1, Ok a) => k a w1
       | Some (w1, Throw e) => Some (w1, Throw e)
       end.

(** [try { c } catch (error) { h error }] *)
Definition try_catch {A} (c : M A) (h : Error → M A) : M A :=
  λ w, match c w with
       | None => None
       | Some (w1, Ok a) => Some (w1, Ok a)
       | Some (w1, Throw e) => h e w1
       end.

Definition get_world : M World := λ w, Some (w, Ok w).

Definition modify (f : World → World) : M unit := λ w, Some (f w, Ok tt).

(** A listener that cannot be entered any more. *)
Definition exhausted {A} : M A := λ _, None.

(** What the node runtime and the subprocess contribute: serialisation,
    the random session id, the pid of a spawned child and whether it
    survives the 500 ms start window, and what a pending request
    eventually sees while it waits for its response. *)
Inductive StartOutcome : Type :=
| Alive
| Errored (e : Error)
| Exited (exitCode : option Z).

Class Runtime : Type := {
  JSON_stringify : Parsed → string;
  randomUUID : World → string;
  spawn_pid : ServerConfig → World → Z;
  start_outcome : ServerConfig → World → StartOutcome;
  await_response :
    string → JSONRPCMessage → World → World * Outcome JSONRPCMessage;
}.

End Store.

Notation "'let!' x := c 'in' k" :=
  (Store.bind c (fun x => k))
  (at level 10, x name, c at level 100, k at level 200, only parsing).
Notation "'let!' ' p := c 'in' k" :=
  (Store.bind c (fun x => match x with p => k end))
  (at level 10, p strict pattern, c at level 100, k at level 200,
   only parsing).
Notation "c1 ;; c2" :=
  (Store.bind c1 (fun _ => c2))
  (at level 100, c2 at level 200, right associativity, only parsing).

(* ===================================================================== *)
(** ** The string and array methods of JavaScript that the code calls *)
(* ===================================================================== *)

Module Text.

(** The characters are those of code 0 to 255.  ['\n'] and [' ']: *)
Definition newline : ascii := ascii_of_nat 10.

Definition space : ascii := ascii_of_nat 32.

(** [s.split(sep)] for a separator of one character: never empty, and
    [''.split(sep)] is [['']]. *)
Fixpoint split (sep : ascii) (s : string) : list string :=
  match s with
  | EmptyString => [EmptyString]
  | String c rest =>
      if Ascii.eqb c sep then EmptyString :: split sep rest
      else match split sep rest with
           | first :: more => String c first :: more
           | [] => [String c EmptyString]
           end
  end.

(** White space and line terminators, as [trim] strips them: tab, line
    feed, vertical tab, form feed, carriage return, space and the
    no-break space. *)
Definition isWhiteSpace (c : ascii) : bool :=
  let n := nat_of_ascii c in
  ((9 <=? n) && (n <=? 13) || (n =? 32) || (n =? 160))%nat.

Fixpoint trimStart (s : string) : string :=
  match s with
  | EmptyString => EmptyString
  | String c rest => if isWhiteSpace c then trimStart rest else s
  end.

Fixpoint trimEnd (s : string) : string :=
  match s with
  | EmptyString => EmptyString
  | String c rest =>
      match trimEnd rest with
      | EmptyString =>
          if isWhiteSpace c then EmptyString else String c EmptyString
      | kept => String c kept
      end
  end.

(** [s.trim()] *)
Definition trim (s : string) : string := trimEnd (trimStart s).

(** [array.pop()]: the last element ([undefined] on an empty array) and
    the array that is left. *)
Definition pop {A} (l : list A) : option A * list A :=
  (last l, removelast l).

(** [array.includes(x)] on strings. *)
Definition includes (x : string) (l : list string) : bool :=
  existsb (String.eqb x) l.

End Text.

(* ===================================================================== *)
(** ** src/transport/streamable-http.ts *)
(* ===================================================================== *)

Module Transport.
Import Json Schemas Store.

(** [String.prototype.includes] *)
Definition includes (needle hay : string) : bool :=
  match String.index 0 needle hay with
  | Some _ => true
  | None => false
  end.

(** [String.prototype.toLowerCase] on the ASCII letters of a header name. *)
Definition lower (c : ascii) : ascii :=
  let n := nat_of_ascii c in
  if ((65 <=? n) && (n <=? 90))%nat then ascii_of_nat (n + 32) else c.

Fixpoint toLowerCase (s : string) : string :=
  match s with
  | EmptyString => EmptyString
  | String c rest => String (lower c) (toLowerCase rest)
  end.

(** A string in a condition: only [""] is falsy. *)
Definition nonempty (s : string) : bool := negb (String.eqb s "").

(** [req.headers[name]] and [res.setHeader(name, value)]. *)
Fixpoint lookup_header (name : string) (hs : list (string * string))
  : option string :=
  match hs with
  | [] => None
  | (k, v) :: rest =>
      if String.eqb k name then Some v else lookup_header name rest
  end.

Definition getHeader (name : string) (res : Res) : option string :=
  lookup_header (toLowerCase name) (headers res).

Definition setHeader (name value : string) (res : Res) : Res :=
  mkRes (statusCode res) ((toLowerCase name, value) :: headers res)
        (body res) (written res) (ended res).

Definition set_status (c : Z) (res : Res) : Res :=
  mkRes (Some c) (headers res) (body res) (written res) (ended res).

(** [res.json(data)] sends the body and finishes the response. *)
Definition res_json (b : Body) (res : Res) : Res :=
  mkRes (statusCode res) (headers res) (Some b) (written res) true.

(** [res.end()] *)
Definition end_ (res : Res) : Res :=
  mkRes (statusCode res) (headers res) (body res) (written res) true.

(** [res.write(chunk)]; a finished response takes no more chunks. *)
Definition write (c : Chunk) (res : Res) : Res :=
  if ended res then res
  else mkRes (statusCode res) (headers res) (body res)
             (written res ++ [c]) (ended res).

(** The constructor: [options.sessionHeader || 'Mcp-Session-Id'],
    [options.maxEventSize || 1024 * 64], counter at [0]. *)
Definition new (batchTimeout : Z) (sessionHeader : option string)
    (maxEventSize : option Z) : Transport :=
  mkTransport batchTimeout
    (match sessionHeader with
     | Some h => if nonempty h then h else "Mcp-Session-Id"
     | None => "Mcp-Session-Id"
     end)
    (match maxEventSize with
     | Some n => if n =? 0 then 1024 * 64 else n
     | None => 1024 * 64
     end)
    0.

Definition parseRequest (body : json) : option Parsed :=
  JSONRPCMessageSchema body.

Definition acceptsSSE (req : Req) : bool :=
  match lookup_header "accept" (req_headers req) with
  | Some accept => includes "text/event-stream" accept
  | None => false
  end.

Definition getSessionId (t : Transport) (req : Req) : option string :=
  lookup_header (toLowerCase (sessionHeader t)) (req_headers req).

Definition setSessionId (t : Transport) (sessionId : string) (res : Res)
  : Res := setHeader (sessionHeader t) sessionId res.

Definition sendJSON (b : Body) (statusCode : Z) (res : Res) : Res :=
  res_json b (setHeader "Content-Type" "application/json"
                    (set_status statusCode res)).

(** A possibly [undefined] string in a condition, as in [if (sessionId)]:
    an absent or empty string is falsy. *)
Definition truthy_string (o : option string) : option string :=
  match o with
  | Some s => if nonempty s then Some s else None
  | None => None
  end.

Definition sendAccepted (t : Transport) (sessionId : option string)
    (res : Res) : Res :=
  let res1 := match truthy_string sessionId with
              | Some s => setSessionId t s res
              | None => res
              end in
  end_ (set_status 202 res1).

(** [sendError]: the envelope has [id: null]. *)
Definition sendError (error : JSONRPCError) (statusCode : Z) (res : Res)
  : Res :=
  sendJSON (BodyMessage (Response (mkResponse IdNull None (Some error))))
           statusCode res.

(** [initSSE]: the head, then the [:ok] comment. *)
Definition initSSE (t : Transport) (sessionId : option string) (res : Res)
  : Res :=
  let res1 := set_status 200 res in
  let res2 := setHeader "X-Accel-Buffering" "no"
               (setHeader "Connection" "keep-alive"
                 (setHeader "Cache-Control" "no-cache, no-transform"
                   (setHeader "Content-Type" "text/event-stream" res1))) in
  let res3 := match truthy_string sessionId with
              | Some s => setHeader (sessionHeader t) s res2
              | None => res2
              end in
  write (Comment "ok") res3.

Definition sendSSEEvent (event : SSEEvent) (res : Res) : Res :=
  write (Event event) res.

(** [sendSSEMessage]: [++this.eventCounter] numbers the event. *)
Definition sendSSEMessage `{Runtime} (t : Transport) (message : Parsed)
    (res : Res) : Transport * Res :=
  let n := eventCounter t + 1 in
  let t' := mkTransport (batchTimeout t) (sessionHeader t)
                        (maxEventSize t) n in
  (t', sendSSEEvent
         (mkEvent (Some n) (Some "message") (JSON_stringify message) None)
         res).

(** [streamResponses] over a generator that yields the one response. *)
Definition streamResponses `{Runtime} (t : Transport)
    (response : JSONRPCMessage) (res : Res) : Transport * Res :=
  let '(t', res') := sendSSEMessage t (Single response) res in
  (t', end_ res').

Definition requiresResponse (message : JSONRPCMessage) : bool :=
  match message_id message with
  | Some IdNull | None => false
  | Some _ => true
  end.

Definition isInitializeRequest (message : JSONRPCMessage) : bool :=
  match message with
  | Request r => String.eqb (req_method r) "initialize"
  | Notification n => String.eqb (ntf_method n) "initialize"
  | Response _ => false
  end.

(** [validateContentType]: [None] when the check passes, else the response
    that was sent. *)
Definition validateContentType (req : Req) (res : Res) : option Res :=
  if negb (String.eqb (req_verb req) "POST") then None
  else match lookup_header "content-type" (req_headers req) with
       | Some ct =>
           if includes "application/json" ct then None
           else Some (res_json (BodyObject [("error", "Unsupported Media Type");
                                        ("expected", "application/json")])
                           (set_status 415 res))
       | None =>
           Some (res_json (BodyObject [("error", "Unsupported Media Type");
                                   ("expected", "application/json")])
                      (set_status 415 res))
       end.

Definition validateAcceptHeader (req : Req) (res : Res) : option Res :=
  match truthy_string (lookup_header "accept" (req_headers req)) with
  | None =>
      Some (res_json (BodyObject [("error", "Not Acceptable");
                              ("message", "Accept header required")])
                 (set_status 406 res))
  | Some accept =>
      if existsb (λ type, includes type accept)
                 ["application/json"; "text/event-stream"; "*/*"]
      then None
      else Some (res_json (BodyObject [("error", "Not Acceptable")])
                      (set_status 406 res))
  end.

(** The ids of the events a stream has received, oldest first. *)
Definition event_ids (res : Res) : list Z :=
  omap (λ c, match c with
             | Event e => sse_id e
             | Comment _ => None
             end) (written res).

(** The payloads of the events a stream has received, oldest first. *)
Definition event_data (res : Res) : list string :=
  omap (λ c, match c with
             | Event e => Some (sse_data e)
             | Comment _ => None
             end) (written res).

(** [formatSSEEvent(event)]: the text that [res.write] receives.  An
    empty event name and a [retry] of [0] are falsy and leave no field;
    the rendered id of a number is never empty. *)
Definition field (name value : string) : string :=
  name +:+ ": " +:+ value +:+ String Text.newline "".

Definition formatSSEEvent (event : SSEEvent) : string :=
  let output := "" in
  let output := match sse_id event with
                | Some n => output +:+ field "id" (String_of_Z n)
                | None => output
                end in
  let output := match truthy_string (sse_event event) with
                | Some name => output +:+ field "event" name
                | None => output
                end in
  let output := match sse_retry event with
                | Some n => if n =? 0 then output
                            else output +:+ field "retry" (String_of_Z n)
                | None => output
                end in
  let output := fold_left (λ output line, output +:+ field "data" line)
                          (Text.split Text.newline (sse_data event))
                          output in
  output +:+ String Text.newline "".

End Transport.

(* ===================================================================== *)
(** ** src/process/manager.ts *)
(* ===================================================================== *)

Module ProcessManager.
Import Schemas Store.

(** [String.prototype.endsWith] *)
Definition endsWith (s suffix : string) : bool :=
  let n := String.length s in
  let k := String.length suffix in
  (k <=? n)%nat && String.eqb (substring (n - k) k s) suffix.

(** The line feed, ['\n']. *)
Definition LF : string := String (ascii_of_nat 10) EmptyString.

(** *** class ManagedProcess *)

Definition new_ManagedProcess (id : string) (config : ServerConfig)
  : ManagedProcess := mkManaged id config None 0 stopped.

Definition set_status (st : Status) (p : ManagedProcess) : ManagedProcess :=
  mkManaged (mp_id p) (mp_config p) (process p) (restarts p) st.

Definition set_process (c : option ChildProcess) (p : ManagedProcess)
  : ManagedProcess :=
  mkManaged (mp_id p) (mp_config p) c (restarts p) (status p).

(** [kill(signal = 'SIGTERM')] *)
Definition kill (signal : string) (p : ManagedProcess) : ManagedProcess :=
  match process p with
  | Some child =>
      if Status_eqb (status p) running then
        set_status stopped
          (set_process
             (Some (mkChild (pid child) (stdin child)
                            (signals child ++ [signal]))) p)
      else p
  | None => p
  end.

(** [sendToStdin(data)]: the handle after the writes, or the error thrown. *)
Definition sendToStdin (data : string) (p : ManagedProcess)
  : Outcome ManagedProcess :=
  match process p with
  | None => Throw (Err "Process is not running")
  | Some child =>
      if negb (Status_eqb (status p) running) then
        Throw (Err "Process is not running")
      else
        match stdin child with
        | None => Throw (Err "Process stdin is not available")
        | Some pipe =>
            let pipe1 := pipe +:+ data in
            let pipe2 := if negb (endsWith data LF) then pipe1 +:+ LF
                         else pipe1 in
            Ok (set_process
                  (Some (mkChild (pid child) (Some pipe2) (signals child)))
                  p)
        end
  end.

Definition isRunning (p : ManagedProcess) : bool :=
  Status_eqb (status p) running
  && match process p with Some _ => true | None => false end.

(** The bytes a handle's child has received on stdin so far. *)
Definition stdin_bytes (p : ManagedProcess) : option string :=
  match process p with
  | Some child => stdin child
  | None => None
  end.

(** *** The store of [ManagedProcess] objects *)

Definition deref (l : loc) : M ManagedProcess :=
  λ w, match heap w !! l with
       | Some p => Some (w, Ok p)
       | None => Some (w, Throw (TypeError "undefined object"))
       end.

Definition assign (l : loc) (p : ManagedProcess) : M unit :=
  modify (λ w, with_heap (<[l := p]> (heap w)) w).

Definition alloc (p : ManagedProcess) : M loc :=
  λ w, let l := nextLoc w in
       Some (with_nextLoc (S l) (with_heap (<[l := p]> (heap w)) w), Ok l).

(** *** class ProcessManager *)

Definition new_ProcessManager (maxRestartAttempts restartDelay : option Z)
  : ProcessManager :=
  mkProcessManager ∅ ∅ (default 3 maxRestartAttempts)
                   (default 1000 restartDelay).

Definition set_processes (m : gmap string loc) (w : World) : World :=
  let pm := processManager w in
  with_processManager
    (mkProcessManager m (restartAttempts pm) (maxRestartAttempts pm)
                      (restartDelay pm)) w.

Definition set_restartAttempts (m : gmap string Z) (w : World) : World :=
  let pm := processManager w in
  with_processManager
    (mkProcessManager (processes pm) m (maxRestartAttempts pm)
                      (restartDelay pm)) w.

(** [killProcess(processId)]: an unknown handle is only logged. *)
Definition killProcess (processId : string) : M unit :=
  let! w := get_world in
  match processes (processManager w) !! processId with
  | None => ret tt
  | Some l =>
      let! p := deref l in
      assign l (kill "SIGTERM" p) ;;
      modify (λ w, set_processes
                     (delete processId (processes (processManager w))) w) ;;
      modify (λ w, set_restartAttempts
                     (delete processId (restartAttempts (processManager w)))
                     w)
  end.

(** [for (const [processId] of this.processes) this.killProcess(processId)] *)
Fixpoint killEach (ids : list string) : M unit :=
  match ids with
  | [] => ret tt
  | processId :: rest => killProcess processId ;; killEach rest
  end.

Definition killAllProcesses : M unit :=
  let! w := get_world in
  killEach (map_to_list (processes (processManager w))).*1.

(** [handleProcessCrash(processId)] up to its first [await]; the delayed
    restart is a later event of its own. *)
Definition handleProcessCrash (processId : string) : M unit :=
  let! w := get_world in
  let pm := processManager w in
  let attempts := default 0 (restartAttempts pm !! processId) in
  if maxRestartAttempts pm <=? attempts then killProcess processId
  else modify (set_restartAttempts
                 (<[processId := attempts + 1]> (restartAttempts pm))).

(** [ManagedProcess.start()] under the handlers that [setupProcessHandlers]
    attached: the child is spawned with all three stdio streams piped, and
    the promise settles after the 500 ms window. *)
Definition start `{Runtime} (l : loc) : M unit :=
  let! p := deref l in
  if isRunning p then throw (Err "Process is already running")
  else
    let! w := get_world in
    let child := mkChild (spawn_pid (mp_config p) w) (Some "") [] in
    let p1 := set_status running (set_process (Some child) p) in
    assign l p1 ;;
    match start_outcome (mp_config p) w with
    | Alive => ret tt
    | Errored e =>
        assign l (set_status crashed p1) ;;
        handleProcessCrash (mp_id p) ;;
        throw e
    | Exited exitCode =>
        if bool_decide (exitCode = Some 0) then
          assign l (set_status stopped p1) ;;
          throw (Err "Process failed to start")
        else
          assign l (set_status crashed p1) ;;
          handleProcessCrash (mp_id p) ;;
          throw (Err "Process failed to start")
    end.

(** [spawnProcess(processId, config)] *)
Definition spawnProcess `{Runtime} (processId : string)
    (config : ServerConfig) : M loc :=
  let! w := get_world in
  match processes (processManager w) !! processId with
  | Some _ => throw (Err ("Process " +:+ processId +:+ " already exists"))
  | None =>
      let! l := alloc (new_ManagedProcess processId config) in
      start l ;;
      modify (λ w, set_processes
                     (<[processId := l]> (processes (processManager w))) w) ;;
      ret l
  end.

(** *** The line buffers of a handle

    The ['data'] handler that [start] puts on the child's stdout, and
    with a buffer of its own on its stderr: the chunk is appended to the
    buffer, the buffer is split at the line feeds, the last piece is kept
    and every other piece that is not blank is emitted.  The result is
    the new buffer and the lines emitted, in order. *)
Definition onData (buffer text : string) : string * list string :=
  let buffer1 := buffer +:+ text in
  let '(last, lines) := Text.pop (Text.split Text.newline buffer1) in
  (default "" last,
   List.filter (λ line, Transport.nonempty (Text.trim line)) lines).

(** [ManagedProcess.restart()] *)
Definition restart `{Runtime} (l : loc) : M unit :=
  let! p := deref l in
  let p1 := kill "SIGTERM" p in
  assign l (mkManaged (mp_id p1) (mp_config p1) (process p1)
                      (S (restarts p1)) (status p1)) ;;
  start l.

End ProcessManager.

(* ===================================================================== *)
(** ** src/session/manager.ts *)
(* ===================================================================== *)

Module SessionManager.
Import Schemas Store.

(** The listeners registered on the session manager's events.  Only the
    proxy registers some, for ['session:expired'] and
    ['session:destroyed']. *)
Record Listeners : Type := mkListeners {
  session_expired : string → M unit;
  session_destroyed : string → M unit;
}.

(** The constructor: [options.maxSessions || 100]. *)
Definition new_SessionManager (sessionTimeout : Z) (maxSessions : option Z)
  : SessionManager :=
  mkSessionManager ∅ sessionTimeout
    (match maxSessions with
     | Some n => if n =? 0 then 100 else n
     | None => 100
     end).

Definition isSessionExpired (timeout now : Z) (s : Session) : bool :=
  if timeout <=? 0 then false
  else timeout <? now - lastActivityAt s.

(** Update the session object registered under [sessionId], if any. *)
Definition update_session (sessionId : string) (f : Session → Session)
  : M unit :=
  modify (λ w, with_sessions (alter f sessionId (sessions (sessionManager w)))
                             w).

(** [connection.end()] on every connection of a set. *)
Definition end_all (conns : list loc) (m : gmap loc Res) : gmap loc Res :=
  foldr (λ c m, alter Transport.end_ c m) m conns.

Section Methods.
Context `{Runtime}.
(** [now] is the reading of the clock during the handler at hand. *)
Variable now : Z.
Variable L : Listeners.

Definition destroySession (sessionId : string) : M unit :=
  let! w := get_world in
  match session_of w sessionId with
  | None => ret tt
  | Some session =>
      modify (λ w, with_sockets
                     (end_all (sseConnections session) (sockets w)) w) ;;
      modify (λ w, with_sessions
                     (delete sessionId (sessions (sessionManager w))) w) ;;
      session_destroyed L sessionId
  end.

Definition updateSessionActivity (sessionId : string) : M unit :=
  update_session sessionId (set_lastActivityAt now).

(** [getSession(sessionId)]: an expired session is destroyed and
    [undefined] returned; a live one has its activity clock refreshed. *)
Definition getSession (sessionId : string) : M (option Session) :=
  let! w := get_world in
  match session_of w sessionId with
  | Some session =>
      if isSessionExpired (sessionTimeout (sessionManager w)) now session
      then destroySession sessionId ;; ret None
      else updateSessionActivity sessionId ;;
           ret (Some (set_lastActivityAt now session))
  | None => ret None
  end.

Definition setSessionInitialized (sessionId : string) : M unit :=
  update_session sessionId (set_isInitialized true).

Definition attachProcess (sessionId : string) (process : loc) : M unit :=
  update_session sessionId (set_stdioProcess (Some process)).

Definition addSSEConnection (sessionId : string) (response : loc)
  : M unit :=
  update_session sessionId
    (λ s, set_sseConnections (Set_add response (sseConnections s)) s).

Definition removeSSEConnection (sessionId : string) (response : loc)
  : M unit :=
  update_session sessionId
    (λ s, set_sseConnections (Set_delete response (sseConnections s)) s).

Definition getActiveSSEConnections (sessionId : string) : M (list loc) :=
  let! w := get_world in
  ret (match session_of w sessionId with
       | Some session => sseConnections session
       | None => []
       end).

(** [queueMessage]: every validated message is an object or an array. *)
Definition queueMessage (sessionId : string) (message : Parsed) : M unit :=
  update_session sessionId
    (λ s, set_messageQueue (messageQueue s ++ [message]) s).

Definition dequeueMessages (sessionId : string) : M (list Parsed) :=
  let! w := get_world in
  match session_of w sessionId with
  | Some session =>
      update_session sessionId (set_messageQueue []) ;;
      ret (messageQueue session)
  | None => ret []
  end.

(** The ids that [cleanupExpiredSessions] collects in its first loop. *)
Definition expired_ids (w : World) : list string :=
  (map_to_list
     (filter (λ kv, isSessionExpired (sessionTimeout (sessionManager w))
                                     now kv.2 = true)
             (sessions (sessionManager w)))).*1.

Fixpoint expireEach (ids : list string) : M unit :=
  match ids with
  | [] => ret tt
  | sessionId :: rest =>
      session_expired L sessionId ;;
      destroySession sessionId ;;
      expireEach rest
  end.

Definition cleanupExpiredSessions : M unit :=
  let! w := get_world in
  expireEach (expired_ids w).

Definition getSessionCount (w : World) : Z :=
  Z.of_nat (size (sessions (sessionManager w))).

Definition hasSession (w : World) (sessionId : string) : bool :=
  bool_decide (is_Some (session_of w sessionId)).

(** [createSession(serverConfig, process?)] *)
Definition createSession (serverConfig : ServerConfig)
    (process : option loc) : M Session :=
  let! w := get_world in
  (if maxSessions (sessionManager w) <=? getSessionCount w then
     cleanupExpiredSessions ;;
     let! w1 := get_world in
     if maxSessions (sessionManager w1) <=? getSessionCount w1 then
       throw (Err ("Maximum session limit ("
                   +:+ String_of_Z (maxSessions (sessionManager w1))
                   +:+ ") reached"))
     else ret tt
   else ret tt) ;;
  let! w2 := get_world in
  let sessionId := randomUUID w2 in
  let session := mkSession sessionId now now serverConfig process
                           [] false [] in
  modify (λ w, with_sessions
                 (<[sessionId := session]> (sessions (sessionManager w)))
                 w) ;;
  ret session.

Fixpoint destroyEach (ids : list string) : M unit :=
  match ids with
  | [] => ret tt
  | sessionId :: rest => destroySession sessionId ;; destroyEach rest
  end.

(** [shutdown()]: every session is destroyed. *)
Definition shutdown : M unit :=
  let! w := get_world in
  destroyEach (map_to_list (sessions (sessionManager w))).*1.

End Methods.

End SessionManager.

(* ===================================================================== *)
(** ** src/proxy/server.ts: class MCPProxyServer *)
(* ===================================================================== *)

Module Proxy.
Import Json Schemas Store.
Import SessionManager (Listeners, mkListeners).

(** [isInitializeResponse(message)].  [typeof null] is ['object'], so the
    ['serverInfo' in ...] test throws on a [null] result. *)
Definition isInitializeResponse (message : Parsed) : Outcome bool :=
  match message with
  | Single (Response r) =>
      match res_result r with
      | Some (JObj fields) =>
          Ok (match get "serverInfo" fields with
              | Some _ => true
              | None => false
              end)
      | Some (JArr _) => Ok false
      | Some JNull =>
          Throw (TypeError
                   "Cannot use 'in' operator to search for 'serverInfo' in null")
      | Some _ => Ok false
      | None => Ok false
      end
  | _ => Ok false
  end.

(** The error response built in the [catch] blocks:
    [{ jsonrpc: '2.0', id: message.id,
       error: createInternalError(String(error)) }]. *)
Definition internal_error_response (i : JSONRPCId) (error : Error)
  : JSONRPCMessage :=
  Response (mkResponse i None
              (Some (createInternalError
                       (Some (JStr (String_of_error error)))))).

Section Server.
Context `{Runtime}.
Variable now : Z.

(** The body shared by [handleSessionExpired] and the
    ['session:destroyed'] listener: look the session up, kill its
    process. *)
Definition kill_process_of (L : Listeners) (sessionId : string) : M unit :=
  let! session := SessionManager.getSession now L sessionId in
  match session with
  | Some s =>
      match stdioProcess s with
      | Some l =>
          let! p := ProcessManager.deref l in
          ProcessManager.killProcess (mp_id p)
      | None => ret tt
      end
  | None => ret tt
  end.

Definition handleSessionExpired := kill_process_of.

Definition on_session_destroyed := kill_process_of.

(** The listeners as [setupEventHandlers] registers them.  They call
    the session manager, whose methods emit to the same listeners, one
    level further in. *)
Fixpoint listeners (depth : nat) : Listeners :=
  match depth with
  | O => mkListeners (λ _, exhausted) (λ _, exhausted)
  | S d => mkListeners (handleSessionExpired (listeners d))
                       (on_session_destroyed (listeners d))
  end.

(** Two levels are all that the handlers can reach: with them no method
    runs out of nesting (see [destroySession_listeners],
    [cleanupExpiredSessions_run] and [total_handleRequest]). *)
Definition registered : Listeners := listeners 2.

(** [this.transport.sendSSEMessage(connection, message)] with the
    proxy's transport. *)
Definition proxy_send (message : Parsed) (c : loc) : M unit :=
  modify (λ w,
    match sockets w !! c with
    | Some res =>
        let '(t, res') :=
          Transport.sendSSEMessage (proxyTransport w) message res in
        with_proxyTransport t (with_sockets (<[c := res']> (sockets w)) w)
    | None => w
    end).

Fixpoint sendToEach (message : Parsed) (conns : list loc) : M unit :=
  match conns with
  | [] => ret tt
  | c :: rest => proxy_send message c ;; sendToEach message rest
  end.

(** [routeProcessMessage(sessionId, message)] *)
Definition routeProcessMessage (sessionId : string) (message : Parsed)
  : M unit :=
  let! w := get_world in
  if negb (SessionManager.hasSession w sessionId) then ret tt
  else
    let! init := (λ w, Some (w, isInitializeResponse message)) in
    (if init : bool then SessionManager.setSessionInitialized sessionId
     else ret tt) ;;
    SessionManager.queueMessage sessionId message ;;
    let! connections :=
      SessionManager.getActiveSSEConnections sessionId in
    sendToEach message connections.

(** [createSessionWithProcess(serverConfig)] *)
Definition createSessionWithProcess (serverConfig : ServerConfig)
  : M Session :=
  let! session :=
    SessionManager.createSession now registered serverConfig None in
  try_catch
    (let! process :=
       ProcessManager.spawnProcess ("session-" +:+ id session)
                                   serverConfig in
     SessionManager.attachProcess (id session) process ;;
     ret (set_stdioProcess (Some process) session))
    (λ error,
       SessionManager.destroySession registered (id session) ;;
       throw error).

(** The [try] block of [handleRequest]. *)
Definition handleRequest_try (sessionId : option string)
    (message : JSONRPCMessage) (serverEndpoint : string)
  : M (option JSONRPCMessage) :=
  let! '(session, sessionId) :=
    (if Transport.isInitializeRequest message then
       let! w := get_world in
       match serverConfigs w !! serverEndpoint with
       | None =>
           throw (Err ("Unknown server endpoint: " +:+ serverEndpoint))
       | Some serverConfig =>
           let! session := createSessionWithProcess serverConfig in
           ret (session, id session)
       end
     else
       match Transport.truthy_string sessionId with
       | None =>
           throw (Err "Session ID required for non-initialize requests")
       | Some sid =>
           let! found := SessionManager.getSession now registered sid in
           match found with
           | Some session => ret (session, sid)
           | None => throw (Err ("Session not found: " +:+ sid))
           end
       end) in
  match stdioProcess session with
  | None => throw (Err "No process attached to session")
  | Some l =>
      let! p := ProcessManager.deref l in
      match ProcessManager.sendToStdin (JSON_stringify (Single message)) p
      with
      | Throw error => throw error
      | Ok p' =>
          ProcessManager.assign l p' ;;
          if Transport.requiresResponse message then
            let! response :=
              (λ w, Some (await_response sessionId message w)) in
            ret (Some response)
          else ret None
      end
  end.

(** [handleRequest(sessionId, message, serverEndpoint)] *)
Definition handleRequest (sessionId : option string)
    (message : JSONRPCMessage) (serverEndpoint : string)
  : M (option JSONRPCMessage) :=
  try_catch (handleRequest_try sessionId message serverEndpoint)
    (λ error,
       match message_id message with
       | Some i => ret (Some (internal_error_response i error))
       | None => throw error
       end).

(** The loop of [handleBatch] with its [responses] array. *)
Fixpoint handleBatch_loop (sessionId : option string)
    (messages : list JSONRPCMessage) (serverEndpoint : string)
    (responses : list JSONRPCMessage) : M (list JSONRPCMessage) :=
  match messages with
  | [] => ret responses
  | message :: rest =>
      let! responses1 :=
        try_catch
          (let! response :=
             handleRequest sessionId message serverEndpoint in
           match response with
           | Some r => ret (responses ++ [r])%list
           | None => ret responses
           end)
          (λ error,
             match message_id message with
             | Some i =>
                 ret (responses ++ [internal_error_response i error])%list
             | None => ret responses
             end) in
      handleBatch_loop sessionId rest serverEndpoint responses1
  end.

(** [handleBatch(sessionId, messages, serverEndpoint)] *)
Definition handleBatch (sessionId : option string)
    (messages : list JSONRPCMessage) (serverEndpoint : string)
  : M (list JSONRPCMessage) :=
  handleBatch_loop sessionId messages serverEndpoint [].

(** [shutdown()] *)
Definition shutdown : M unit :=
  let! w := get_world in
  if isShuttingDown w then ret tt
  else
    modify (with_isShuttingDown true) ;;
    SessionManager.shutdown registered ;;
    ProcessManager.killAllProcesses.

End Server.

(** [a === b] on the ids of two messages. *)
Definition JSONRPCId_eqb (a b : JSONRPCId) : bool :=
  match a, b with
  | IdString s, IdString t => String.eqb s t
  | IdNumber n, IdNumber m => n =? m
  | IdNull, IdNull => true
  | _, _ => false
  end.

(** [isResponseFor(message, request)]: the message has an [id] that is
    [===] to the request's, and a [result] or [error] key.  A parsed
    request or notification has neither key, and an array has no [id]. *)
Definition isResponseFor (message : Parsed) (request : JSONRPCMessage)
  : bool :=
  match message with
  | Single (Response r) =>
      match message_id request with
      | Some i => JSONRPCId_eqb (res_id r) i
      | None => false
      end
      && (bool_decide (is_Some (res_result r))
          || bool_decide (is_Some (res_error r)))
  | _ => false
  end.

Section Polling.
Context `{Runtime}.

(** The loop of [checkForResponse] over the messages it dequeued: the
    first response to the request resolves the promise and ends the
    loop; every message before it is queued again. *)
Fixpoint requeue (sessionId : string) (request : JSONRPCMessage)
    (messages : list Parsed) : M (option Parsed) :=
  match messages with
  | [] => ret None
  | msg :: rest =>
      if isResponseFor msg request then ret (Some msg)
      else SessionManager.queueMessage sessionId msg ;;
           requeue sessionId request rest
  end.

(** One run of [checkForResponse] inside [waitForResponse], up to the
    point where it looks at the clock: [Some msg] resolves the promise,
    [None] leaves it pending, a throw rejects it. *)
Definition checkForResponse (sessionId : string) (request : JSONRPCMessage)
  : M (option Parsed) :=
  let! w := get_world in
  if negb (SessionManager.hasSession w sessionId) then
    throw (Err "Session terminated while waiting for response")
  else
    let! messages := SessionManager.dequeueMessages sessionId in
    requeue sessionId request messages.

End Polling.

Section Output.
Context `{Runtime}.
(** [JSON.parse]; [None] is a [SyntaxError]. *)
Variable JSON_parse : string → option json.

(** [s.stdioProcess?.id === processId] *)
Definition bound_to (processId : string) (w : World) (s : Session) : bool :=
  match stdioProcess s with
  | Some l =>
      match heap w !! l with
      | Some p => String.eqb (mp_id p) processId
      | None => false
      end
  | None => false
  end.

(** [findSessionByProcessId(processId)]: the first session of the
    registry whose process has this id. *)
Definition findSessionByProcessId (processId : string) (w : World)
  : option Session :=
  List.find (bound_to processId w)
            (map_to_list (sessions (sessionManager w))).*2.

(** [handleProcessOutput(processId, data)], the listener of
    ['stdout:data'].  [JSON.parse] and [validateJSONRPC] throw on a line
    they do not accept; whatever is thrown inside is caught and logged. *)
Definition handleProcessOutput (processId data : string) : M unit :=
  try_catch
    (match JSON_parse data with
     | None => throw (Err "SyntaxError")
     | Some message =>
         match JSONRPCMessageSchema message with
         | None => throw (Err "ZodError")
         | Some validated =>
             let! w := get_world in
             match findSessionByProcessId processId w with
             | None => ret tt
             | Some session => routeProcessMessage (id session) validated
             end
         end
     end)
    (λ _, ret tt).

(** The lines that a handle emits reach [handleProcessOutput] one after
    the other: the supervisor passes every ['stdout'] event on as
    ['stdout:data'], and the emitter calls the listener at once. *)
Fixpoint handleLines (processId : string) (lines : list string) : M unit :=
  match lines with
  | [] => ret tt
  | line :: rest =>
      handleProcessOutput processId line ;; handleLines processId rest
  end.

(** [data.toString('utf-8')] on a [Buffer]: the decoder of node, which
    decodes the bytes it is given and nothing else. *)
Variable toString_utf8 : list Byte.byte → string.

(** A ['data'] event on the stdout of the handle [processId], whose line
    buffer holds [buffer].  The chunk is a [Buffer]; it is decoded on its
    own, the text is appended to the buffer, the lines are handled, and
    the new buffer is returned. *)
Definition stdout_data (processId buffer : string) (data : list Byte.byte)
  : M string :=
  let text := toString_utf8 data in
  let '(buffer', lines) := ProcessManager.onData buffer text in
  handleLines processId lines ;; ret buffer'.

End Output.

End Proxy.

(* ===================================================================== *)
(** ** src/server/http.ts: class HTTPServer *)
(* ===================================================================== *)

Module Http.
Import Json Schemas Store.

(** The part of [ProxyConfig] that the bridge reads. *)
Record ProxyConfig : Type := mkProxyConfig {
  cfg_sessionTimeout : Z;
  cfg_batchTimeout : Z;
  cfg_maxRestartAttempts : option Z;
  cfg_restartDelay : option Z;
  cfg_servers : list ServerConfig;
}.

(** [server.endpoint || `/${server.name}`] *)
Definition endpoint_of (server : ServerConfig) : string :=
  match Transport.truthy_string (endpoint server) with
  | Some e => e
  | None => "/" +:+ name server
  end.

(** [new HTTPServer(config)]: the proxy with its managers and transport,
    and the front end's transport. *)
Definition new_HTTPServer (config : ProxyConfig) : World :=
  mkWorld
    (SessionManager.new_SessionManager (cfg_sessionTimeout config) (Some 100))
    (ProcessManager.new_ProcessManager (cfg_maxRestartAttempts config)
                                       (cfg_restartDelay config))
    ∅ O ∅
    (Transport.new (cfg_batchTimeout config) (Some "Mcp-Session-Id") None)
    (Transport.new (cfg_batchTimeout config) None None)
    (foldl (λ m server, <[endpoint_of server := server]> m) ∅
           (cfg_servers config))
    false.

(** [findSessionFromResponse(response)]: the placeholder of the source. *)
Definition findSessionFromResponse (response : JSONRPCMessage)
  : option string := None.

(** [config.auth] *)
Inductive AuthConfig : Type :=
| AuthNone
| AuthBearer (tokens : list string).

(** [authMiddleware(req, res, next)]: [None] when [next()] is called,
    else the response that was sent. *)
Definition authMiddleware (auth : option AuthConfig) (path : string)
    (req : Req) (res : Res) : option Res :=
  if String.eqb path "/health" then None
  else
    match auth with
    | None | Some AuthNone => None
    | Some (AuthBearer tokens) =>
        match Transport.truthy_string
                (Transport.lookup_header "authorization" (req_headers req))
        with
        | None =>
            Some (Transport.res_json
                    (BodyObject [("error", "Authorization required")])
                    (Transport.set_status 401 res))
        | Some authHeader =>
            let parts := Text.split Text.space authHeader in
            let type := parts !! 0%nat in
            let token := Transport.truthy_string (parts !! 1%nat) in
            if negb (bool_decide (type = Some "Bearer"))
               || negb (bool_decide (is_Some token))
            then
              Some (Transport.res_json
                      (BodyObject [("error", "Invalid authorization format")])
                      (Transport.set_status 401 res))
            else if negb (Text.includes (default "" token) tokens) then
              Some (Transport.res_json
                      (BodyObject [("error", "Invalid token")])
                      (Transport.set_status 403 res))
            else None
        end
    end.

Section Handlers.
Context `{Runtime}.
Variable now : Z.

(** [this.transport.sendSSEMessage(res, message)] with the front end's
    transport. *)
Definition http_send (message : Parsed) (res : Res) : M Res :=
  λ w, let '(t, res') :=
         Transport.sendSSEMessage (httpTransport w) message res in
       Some (with_httpTransport t w, Ok res').

(** The response modes of a POST, once the proxy has answered. *)
Definition respond_single (req : Req) (sessionId : option string)
    (message : JSONRPCMessage) (response : option JSONRPCMessage)
    (res : Res) : M Res :=
  let! w := get_world in
  let isInitialize := Transport.isInitializeRequest message in
  match response with
  | None => ret (Transport.sendAccepted (httpTransport w) sessionId res)
  | Some r =>
      if Transport.acceptsSSE req then
        let res1 := Transport.initSSE (httpTransport w) sessionId res in
        let '(t, res2) :=
          Transport.streamResponses (httpTransport w) r res1 in
        modify (with_httpTransport t) ;;
        ret res2
      else
        let res1 :=
          if isInitialize && has_id r then
            match findSessionFromResponse r with
            | Some session =>
                Transport.setSessionId (httpTransport w) session res
            | None => res
            end
          else res in
        ret (Transport.sendJSON (BodyMessage r) 200 res1)
  end.

(** A batch is answered with the JSON array, whatever [Accept] says. *)
Definition respond_batch (responses : list JSONRPCMessage) (res : Res)
  : M Res :=
  ret (Transport.sendJSON (BodyBatch responses) 200 res).

(** [handleMCPRequest(serverEndpoint, req, res)]: the response sent. *)
Definition handleMCPRequest (serverEndpoint : string) (req : Req)
    (res : Res) : M Res :=
  try_catch
    (match Transport.validateContentType req res with
     | Some sent => ret sent
     | None =>
     match Transport.validateAcceptHeader req res with
     | Some sent => ret sent
     | None =>
         let! w := get_world in
         let sessionId := Transport.getSessionId (httpTransport w) req in
         match Transport.parseRequest (req_body req) with
         | None =>
             ret (Transport.sendError (createParseError None) 400 res)
         | Some (Batch messages) =>
             let! responses :=
               Proxy.handleBatch now sessionId messages serverEndpoint in
             respond_batch responses res
         | Some (Single message) =>
             let! response :=
               Proxy.handleRequest now sessionId message serverEndpoint in
             respond_single req sessionId message response res
         end
     end end)
    (λ error,
       ret (Transport.sendError
              (createServerError (String_of_error error) None) 500 res)).

(** Express creates the response object of a connection. *)
Definition accept_connection : M loc :=
  λ w, let c := nextLoc w in
       Some (with_nextLoc (S c)
               (with_sockets (<[c := fresh_res]> (sockets w)) w), Ok c).

Definition update_res (c : loc) (f : Res → Res) : M unit :=
  modify (λ w, with_sockets (alter f c (sockets w)) w).

Definition send_object (c : loc) (statusCode : Z)
    (fields : list (string * string)) : M unit :=
  update_res c (λ res, Transport.res_json (BodyObject fields)
                         (Transport.set_status statusCode res)).

(** The drain loop of [handleSSERequest]. *)
Fixpoint sendQueued (c : loc) (queued : list Parsed) : M unit :=
  match queued with
  | [] => ret tt
  | message :: rest =>
      let! w := get_world in
      match sockets w !! c with
      | Some res =>
          let! res' := http_send message res in
          update_res c (λ _, res') ;;
          sendQueued c rest
      | None => sendQueued c rest
      end
  end.

(** [handleSSERequest(serverEndpoint, req, res)]; [c] names [res]. *)
Definition handleSSERequest (serverEndpoint : string) (req : Req)
    (c : loc) : M unit :=
  try_catch
    (if negb (Transport.acceptsSSE req) then
       send_object c 406
         [("error", "Not Acceptable");
          ("message", "Accept: text/event-stream required")]
     else
       let! w := get_world in
       match Transport.truthy_string
               (Transport.getSessionId (httpTransport w) req) with
       | None =>
           send_object c 400
             [("error", "Session ID required for SSE connection")]
       | Some sessionId =>
           let! session :=
             SessionManager.getSession now (Proxy.registered now)
                                       sessionId in
           match session with
           | None => send_object c 404 [("error", "Session not found")]
           | Some _ =>
               let! w := get_world in
               update_res c (Transport.initSSE (httpTransport w)
                                               (Some sessionId)) ;;
               SessionManager.addSSEConnection sessionId c ;;
               let! queued := SessionManager.dequeueMessages sessionId in
               sendQueued c queued
           end
       end)
    (λ _, send_object c 500 [("error", "Internal server error")]).

(** A GET request on an MCP endpoint, from the new connection on. *)
Definition GET (serverEndpoint : string) (req : Req) : M loc :=
  let! c := accept_connection in
  handleSSERequest serverEndpoint req c ;;
  ret c.

(** [handleDeleteSession(req, res)] *)
Definition handleDeleteSession (req : Req) (res : Res) : M Res :=
  try_catch
    (let! w := get_world in
     match Transport.truthy_string
             (Transport.getSessionId (httpTransport w) req) with
     | None =>
         ret (Transport.res_json
                (BodyObject [("error", "Session ID required")])
                (Transport.set_status 400 res))
     | Some sessionId =>
         SessionManager.destroySession (Proxy.registered now) sessionId ;;
         ret (Transport.end_ (Transport.set_status 204 res))
     end)
    (λ _, ret (Transport.res_json
                 (BodyObject [("error", "Internal server error")])
                 (Transport.set_status 500 res))).

(** [stop()]: the proxy is shut down before the listener closes. *)
Definition stop : M unit := Proxy.shutdown now.

End Handlers.

End Http.

(* ===================================================================== *)
(** ** A concrete deployment for the examples *)
(* ===================================================================== *)

Module Scenario.
Import Json Schemas Store.

(** The echo server of the integration tests, registered as [/echo]. *)
Definition echo_config : ServerConfig :=
  mkServerConfig "echo" "node" ["./tests/fixtures/echo-server.js"] [] None
                 None.

Definition config : Http.ProxyConfig :=
  Http.mkProxyConfig 60000 1000 None None [echo_config].

(** The result the echo server sends for [initialize]. *)
Definition echo_result : json :=
  JObj [("protocolVersion", JStr "2025-03-26");
        ("capabilities", JObj [("tools", JBool true)]);
        ("serverInfo", JObj [("name", JStr "echo");
                             ("version", JStr "1.0.0")])].

(** A runtime in which the child starts and stays alive, session ids are
    numbered, and every request is answered at once with the echo result
    under the request's id.  Messages are rendered by a tag that tells
    them apart, which is all the examples read off an event. *)
Definition tag (message : Parsed) : string :=
  match message with
  | Single (Request r) => "request " +:+ req_method r
  | Single (Notification n) => "notification " +:+ ntf_method n
  | Single (Response r) =>
      match res_id r with
      | IdString s => "response " +:+ s
      | IdNumber n => "response " +:+ String_of_Z n
      | IdNull => "response null"
      end
  | Batch _ => "batch"
  end.

#[local] Instance echo : Runtime := {|
  JSON_stringify := tag;
  randomUUID w :=
    "u" +:+ String_of_Z (Z.of_nat (size (sessions (sessionManager w))));
  spawn_pid _ _ := 4242;
  start_outcome _ _ := Alive;
  await_response _ message w :=
    (w, match message_id message with
        | Some i => Ok (Response (mkResponse i (Some echo_result) None))
        | None => Throw (Err "Response timeout")
        end);
|}.

(** The [initialize] request of the end-to-end scenarios. *)
Definition initialize_body : json :=
  JObj [("jsonrpc", JStr "2.0"); ("id", JStr "i1");
        ("method", JStr "initialize");
        ("params",
         JObj [("protocolVersion", JStr "2025-03-26");
               ("capabilities", JObj []);
               ("clientInfo", JObj [("name", JStr "t");
                                    ("version", JStr "1")])])].

Definition post (accept : string) (session : option string) (b : json)
  : Req :=
  mkReq "POST"
    ([("content-type", "application/json"); ("accept", accept)]
     ++ match session with
        | Some s => [("mcp-session-id", s)]
        | None => []
        end)
    b.

Definition get_stream (session : string) : Req :=
  mkReq "GET" [("accept", "text/event-stream"); ("mcp-session-id", session)]
        JNull.

Definition delete_session (session : string) : Req :=
  mkReq "DELETE" [("mcp-session-id", session)] JNull.

(** The world after [computation] when it returns normally. *)
Definition after {A} (c : M A) (w : World) : World :=
  match c w with
  | Some (w', _) => w'
  | None => w
  end.

Definition result {A} (c : M A) (w : World) : option A :=
  match c w with
  | Some (_, Ok a) => Some a
  | _ => None
  end.

(** A fresh server, then one successful [initialize] over JSON. *)
Definition w0 : World := Http.new_HTTPServer config.

Definition initialize_post : M Res :=
  Http.handleMCPRequest 0 "/echo" (post "application/json" None initialize_body)
                        fresh_res.

Definition w1 : World := after initialize_post w0.

(** A server-initiated notification of the subprocess. *)
Definition note (text : string) : Parsed :=
  Single (Notification (mkNotification text None)).

(** A client opens an SSE stream on the session of [w1]. *)
Definition attach : M loc := Http.GET 0 "/echo" (get_stream "u0").

(** How often a payload was written, over all streams. *)
Definition deliveries (payload : string) (w : World) : nat :=
  map_fold (λ _ res n,
              (n + length (filter (λ d, d = payload)
                                  (Transport.event_data res)))%nat)
           0%nat (sockets w).

(** Stream, then message, then a second stream. *)
Definition w_stream : World := after attach w1.

Definition w_stream_message : World :=
  after (Proxy.routeProcessMessage "u0" (note "a")) w_stream.

Definition w_stream_message_stream : World := after attach w_stream_message.

(** Message, then stream, then a second message. *)
Definition w_message : World :=
  after (Proxy.routeProcessMessage "u0" (note "a")) w1.

Definition w_message_stream : World := after attach w_message.

Definition w_message_stream_message : World :=
  after (Proxy.routeProcessMessage "u0" (note "b")) w_message_stream.

(** The ids of a list of events increase strictly. *)
Definition strictly_increasing (ids : list Z) : Prop :=
  ∀ i j a b, (i < j)%nat → ids !! i = Some a → ids !! j = Some b → a < b.

End Scenario.

(* ===================================================================== *)
(** * Properties *)
(* ===================================================================== *)

Import Json Schemas Store.
Local Open Scope list_scope.

(** ** Strings *)

Section StringFacts.

Lemma append_cons (c : ascii) (a b : string) :
  String c a +:+ b = String c (a +:+ b).
Proof. reflexivity. Qed.

Lemma append_nil (a : string) : a +:+ "" = a.
Proof. induction a as [|c a IH]; [done|]. by rewrite append_cons, IH. Qed.

Lemma append_assoc (a b c : string) : (a +:+ b) +:+ c = a +:+ (b +:+ c).
Proof.
  induction a as [|x a IH]; [done|]. by rewrite !append_cons, IH.
Qed.

Lemma substring_all (s : string) : substring 0 (String.length s) s = s.
Proof. induction s as [|c s IH]; simpl; [done | by rewrite IH]. Qed.

Lemma substring_skip (pre s : string) (k : nat) :
  substring (String.length pre) k (pre +:+ s) = substring 0 k s.
Proof.
  induction pre as [|c pre IH]; [done|]. rewrite append_cons. apply IH.
Qed.

Lemma length_app (a b : string) :
  String.length (a +:+ b) = (String.length a + String.length b)%nat.
Proof.
  induction a as [|c a IH]; [done|]. rewrite append_cons. simpl.
  by rewrite IH.
Qed.

Lemma substring_split (s : string) (i : nat) :
  (i ≤ String.length s)%nat →
  s = substring 0 i s +:+ substring i (String.length s - i) s.
Proof.
  revert i. induction s as [|c s IH]; intros [|i] Hi; simpl in *;
    try lia; try done.
  - by rewrite substring_all.
  - rewrite append_cons. f_equal. apply IH. lia.
Qed.

(** [endsWith] decides whether the suffix closes the string. *)
Lemma endsWith_spec (s suffix : string) :
  ProcessManager.endsWith s suffix = true ↔ ∃ pre, s = pre +:+ suffix.
Proof.
  unfold ProcessManager.endsWith. split.
  - intros [Hle Heq]%andb_true_iff.
    apply Nat.leb_le in Hle. apply String.eqb_eq in Heq.
    remember (String.length suffix) as k eqn:Hk. clear Hk.
    exists (substring 0 (String.length s - k) s).
    rewrite <- Heq.
    etrans; [apply (substring_split s (String.length s - k)); lia|].
    do 2 f_equal. lia.
  - intros [pre ->]. rewrite length_app. apply andb_true_iff. split.
    + apply Nat.leb_le. lia.
    + apply String.eqb_eq.
      replace (String.length pre + String.length suffix
               - String.length suffix)%nat with (String.length pre) by lia.
      by rewrite substring_skip, substring_all.
Qed.

End StringFacts.

(** ** The process supervisor *)

Section Supervisor.
Import ProcessManager.

(** The child of a handle has its stdin piped. *)
Definition piped (p : ManagedProcess) : Prop :=
  ∀ child, process p = Some child → is_Some (stdin child).

(** The caller's string ends with a line feed. *)
Definition newline_terminated (data : string) : Prop :=
  ∃ line, data = line +:+ LF.

(** A handle that is not running refuses the write. *)
Lemma sendToStdin_not_running (data : string) (p : ManagedProcess) :
  isRunning p = false →
  sendToStdin data p = Throw (Err "Process is not running").
Proof.
  unfold isRunning, sendToStdin.
  destruct (process p) as [child|]; [|done].
  destruct (Status_eqb (status p) running); [done|done].
Qed.

(** A running handle takes the bytes, and a line feed when one lacks. *)
Lemma sendToStdin_running (data : string) (p : ManagedProcess)
    (child : ChildProcess) (pipe : string) :
  process p = Some child → status p = running → stdin child = Some pipe →
  ∃ p', sendToStdin data p = Ok p'
        ∧ status p' = running
        ∧ stdin_bytes p' =
            Some (pipe +:+ data
                  +:+ (if endsWith data LF then "" else LF)).
Proof.
  intros Hp Hs Hpipe. unfold sendToStdin. rewrite Hp, Hs, Hpipe. simpl.
  eexists. split; [reflexivity|]. split; [done|].
  unfold stdin_bytes. simpl.
  destruct (endsWith data LF); simpl; f_equal.
  - by rewrite append_nil.
  - by rewrite append_assoc.
Qed.

(** C9.  A write to a handle that is not running, or that has no
    underlying process, throws, and a thrown write yields no handle state,
    so nothing reaches the pipe.  A write to a running handle (whose child
    has its stdin piped, as [start] spawns it) appends the caller's string
    to the pipe, followed by one line feed exactly when the string does
    not end with one. *)
Theorem sendToStdin_appends_newline_once (data : string)
    (p : ManagedProcess) :
  piped p →
  (isRunning p = false → ∃ e, sendToStdin data p = Throw e)
  ∧ (isRunning p = true →
     ∃ p' pipe,
       sendToStdin data p = Ok p'
       ∧ stdin_bytes p = Some pipe
       ∧ (newline_terminated data →
          stdin_bytes p' = Some (pipe +:+ data))
       ∧ (¬ newline_terminated data →
          stdin_bytes p' = Some (pipe +:+ data +:+ LF))).
Proof.
  intros Hpiped. split.
  - intros Hnot. eexists. by apply sendToStdin_not_running.
  - unfold isRunning. intros [Hs Hp]%andb_true_iff.
    destruct (process p) as [child|] eqn:Hchild; [|done].
    destruct (Hpiped child Hchild) as [pipe Hpipe].
    assert (status p = running) as Hrun by (by destruct (status p)).
    destruct (sendToStdin_running data p child pipe Hchild Hrun Hpipe)
      as (p' & Hsend & _ & Hbytes).
    exists p', pipe. split; [done|]. split.
    { unfold stdin_bytes. by rewrite Hchild. }
    rewrite Hbytes. unfold newline_terminated. split; intros Hnl.
    + apply endsWith_spec in Hnl. rewrite Hnl. by rewrite append_nil.
    + destruct (endsWith data LF) eqn:Hends; [|done].
      apply endsWith_spec in Hends. done.
Qed.

(** A running handle with a piped child, and a message without line feed. *)
Lemma sendToStdin_appends_newline_once_witness :
  let p := mkManaged "session-u0" Scenario.echo_config
                     (Some (mkChild 4242 (Some "") [])) 0 running in
  piped p
  ∧ ∃ p', sendToStdin "{}" p = Ok p'
          ∧ stdin_bytes p' = Some ("{}" +:+ LF).
Proof.
  intros p.
  assert (piped p) as Hpiped.
  { intros child [= <-]. by eexists. }
  split; [exact Hpiped|].
  destruct (sendToStdin_appends_newline_once "{}" p Hpiped) as [_ Hrun].
  destruct (Hrun eq_refl) as (p' & pipe & Hsend & Hpipe & _ & Hnone).
  exists p'. split; [exact Hsend|].
  injection Hpipe as <-. apply Hnone.
  intros Hnl. apply (proj2 (endsWith_spec "{}" LF)) in Hnl.
  vm_compute in Hnl. discriminate Hnl.
Defined.

End Supervisor.

(** ** Destroying a session *)

Section Destroy.
Context `{Runtime}.
Variable now : Z.

Import SessionManager.

(** The world that [destroySession] leaves: the session's connections are
    ended and its entry is gone; nothing else is touched. *)
Definition destroyed (sessionId : string) (w : World) : World :=
  match session_of w sessionId with
  | None => w
  | Some session =>
      with_sessions (delete sessionId (sessions (sessionManager w)))
        (with_sockets (end_all (sseConnections session) (sockets w)) w)
  end.

Lemma session_of_with_sessions (m : gmap string Session) (w : World)
    (sessionId : string) :
  session_of (with_sessions m w) sessionId = m !! sessionId.
Proof. reflexivity. Qed.

(** The listener of ['session:destroyed'] runs after the entry was
    deleted: its lookup finds nothing, and it returns without a kill. *)
Lemma kill_process_of_absent (L : Listeners) (sessionId : string)
    (w : World) :
  session_of w sessionId = None →
  Proxy.kill_process_of now L sessionId w = Some (w, Ok tt).
Proof.
  intros Hnone. unfold Proxy.kill_process_of, getSession, bind, get_world.
  by rewrite Hnone.
Qed.

Lemma destroySession_listeners (d : nat) (sessionId : string) (w : World) :
  destroySession (Proxy.listeners now (S d)) sessionId w
  = Some (destroyed sessionId w, Ok tt).
Proof.
  unfold destroySession, destroyed, bind, get_world.
  destruct (session_of w sessionId) as [session|] eqn:Hs; [|done].
  unfold modify. simpl.
  unfold Proxy.on_session_destroyed.
  rewrite kill_process_of_absent; [done|].
  rewrite session_of_with_sessions. apply lookup_delete_eq.
Qed.

(** Every connection of the set is ended, the others are left alone. *)
Lemma end_all_lookup (conns : list loc) (m : gmap loc Res) (c : loc) :
  end_all conns m !! c
  = if bool_decide (c ∈ conns) then Transport.end_ <$> m !! c else m !! c.
Proof.
  induction conns as [|c0 conns IH]; simpl; [done|].
  rewrite lookup_alter. destruct (decide (c0 = c)) as [->|Hne].
  - rewrite bool_decide_eq_true_2 by left. rewrite IH.
    case_bool_decide; [|done]. by destruct (m !! c).
  - rewrite IH. repeat case_bool_decide; try done.
    + exfalso. apply H1. by right.
    + exfalso. apply H0. by apply elem_of_cons in H1 as [->|?].
Qed.

(** The registry side of a destroy does happen: the entry is gone and
    every attached stream is closed. *)
Lemma destroyed_closes (sessionId : string) (w : World) (session : Session) :
  session_of w sessionId = Some session →
  session_of (destroyed sessionId w) sessionId = None
  ∧ ∀ c res, c ∈ sseConnections session → sockets w !! c = Some res →
      ∃ res', sockets (destroyed sessionId w) !! c = Some res'
              ∧ ended res' = true.
Proof.
  intros Hs. unfold destroyed. rewrite Hs. split.
  - rewrite session_of_with_sessions. apply lookup_delete_eq.
  - intros c res Hc Hres. simpl. rewrite end_all_lookup.
    rewrite bool_decide_eq_true_2 by done. rewrite Hres. by eexists.
Qed.

(** The supervisor side of a destroy does not: no handle is killed or
    removed. *)
Lemma destroyed_supervisor (sessionId : string) (w : World) :
  processManager (destroyed sessionId w) = processManager w
  ∧ heap (destroyed sessionId w) = heap w.
Proof. unfold destroyed. by destruct (session_of w sessionId). Qed.

(** C1 (the code departs from the claim).  A DELETE request for a live
    session whose subprocess is running answers 204, removes the session
    and closes each of its SSE streams, but the subprocess handle stays in
    the supervisor's [processes] map and keeps running: the
    ['session:destroyed'] listener looks the session up after it was
    removed from the registry, finds nothing, and kills nothing. *)
Theorem delete_leaves_subprocess_running (req : Req) (res : Res)
    (w : World) (sessionId : string) (session : Session) (l : loc)
    (p : ManagedProcess) :
  Transport.truthy_string (Transport.getSessionId (httpTransport w) req)
    = Some sessionId →
  session_of w sessionId = Some session →
  stdioProcess session = Some l →
  heap w !! l = Some p →
  processes (processManager w) !! mp_id p = Some l →
  ProcessManager.isRunning p = true →
  ∃ w',
    Http.handleDeleteSession now req res w
      = Some (w', Ok (Transport.end_ (Transport.set_status 204 res)))
    ∧ session_of w' sessionId = None
    ∧ (∀ c r, c ∈ sseConnections session → sockets w !! c = Some r →
         ∃ r', sockets w' !! c = Some r' ∧ ended r' = true)
    ∧ processes (processManager w') !! mp_id p = Some l
    ∧ heap w' !! l = Some p
    ∧ ProcessManager.isRunning p = true.
Proof.
  intros Hid Hs Hl Hp Hmap Hrun. exists (destroyed sessionId w).
  destruct (destroyed_closes sessionId w session Hs) as [Hgone Hclosed].
  destruct (destroyed_supervisor sessionId w) as [Hpm Hheap].
  split; [|by rewrite Hpm, Hheap].
  unfold Http.handleDeleteSession, try_catch, bind, get_world.
  rewrite Hid. unfold Proxy.registered.
  by rewrite destroySession_listeners.
Qed.

End Destroy.

Section DestroyExample.
Import Scenario.

(** The failing input of C1: one [initialize], then DELETE with the id of
    the session it created.  The handle [session-u0] is still registered
    and running afterwards. *)
Lemma delete_leaves_subprocess_running_witness :
  ∃ w',
    Http.handleDeleteSession 0 (delete_session "u0") fresh_res w1
      = Some (w', Ok (Transport.end_ (Transport.set_status 204 fresh_res)))
    ∧ session_of w' "u0" = None
    ∧ processes (processManager w') !! "session-u0" = Some 0%nat
    ∧ (ProcessManager.isRunning <$> heap w' !! 0%nat) = Some true.
Proof.
  destruct (delete_leaves_subprocess_running 0
              (delete_session "u0") fresh_res w1 "u0"
              (mkSession "u0" 0 0 echo_config (Some 0%nat) [] false [])
              0%nat
              (mkManaged "session-u0" echo_config
                 (Some (mkChild 4242
                          (Some (tag (Single (Request
                             (mkRequest (Some (IdString "i1")) "initialize"
                                (Some (JObj
                                   [("protocolVersion", JStr "2025-03-26");
                                    ("capabilities", JObj []);
                                    ("clientInfo",
                                     JObj [("name", JStr "t");
                                           ("version", JStr "1")])])))))
                                 +:+ ProcessManager.LF)) []))
                 0 running))
    as (w' & Hdel & Hgone & _ & Hmap & Hheap & Hrun);
    try (vm_compute; reflexivity).
  exists w'. split; [exact Hdel|]. split; [exact Hgone|].
  split; [exact Hmap|].
  exact (f_equal (fmap ProcessManager.isRunning) Hheap).
Defined.

End DestroyExample.

(** ** The transport codec *)

Section Codec.

(** The JSON-RPC error code of a response that carries an error envelope. *)
Definition error_code (res : Res) : option Z :=
  match body res with
  | Some (BodyMessage (Response r)) => code <$> res_error r
  | _ => None
  end.

(** A response-shaped object: version tag, a well-formed id, no method. *)
Definition response_shaped (fields : list (string * json)) : Prop :=
  get "jsonrpc" fields = Some (JStr "2.0")
  ∧ is_Some (JSONRPCIdSchema (get "id" fields))
  ∧ get "method" fields = None
  ∧ is_Some (optional JSONRPCErrorSchema (get "error" fields)).

(** What the codec does accept on response-shaped objects: those for which
    the truthiness of [result] differs from the presence of [error]. *)
Lemma parseRequest_response_shaped (fields : list (string * json)) :
  response_shaped fields →
  is_Some (Transport.parseRequest (JObj fields))
  ↔ Boolean (get "result" fields)
    ≠ bool_decide (is_Some (get "error" fields)).
Proof.
  intros (Hv & [i Hi] & Hm & [e He]).
  unfold Transport.parseRequest, JSONRPCMessageSchema,
    JSONRPCRequestSchema, JSONRPCNotificationSchema, JSONRPCBatchSchema,
    JSONRPCResponseSchema, union.
  rewrite Hv, Hi, Hm, He. simpl.
  assert (optional JSONRPCIdSchema (get "id" fields) = Some (Some i)) as ->.
  { unfold optional. destruct (get "id" fields); [by rewrite Hi|done]. }
  simpl. unfold response_refinement. simpl.
  assert (bool_decide (is_Some (get "error" fields))
          = match e with Some _ => true | None => false end) as ->.
  { unfold optional in He. destruct (get "error" fields) as [v|].
    - destruct (JSONRPCErrorSchema (Some v)); by simplify_eq/=.
    - by simplify_eq/=. }
  destruct (Boolean (get "result" fields)), e; simpl;
    split; try done; try (by intros [? ?]); by eexists.
Qed.

Definition response_with (rest : list (string * json)) : json :=
  JObj (("jsonrpc", JStr "2.0") :: ("id", JNum 1) :: rest).

(** C4 (the code departs from the claim).  The refinement of the response
    schema compares [Boolean(result)] with [Boolean(error)], so it tests
    the truthiness of [result] where the claim asks for its presence.  A
    response whose only payload is a falsy [result] ([false], [0], [null],
    [""]) is rejected, and a response that carries a falsy [result]
    together with an [error] is accepted. *)
Theorem falsy_result_is_taken_for_absent :
  Transport.parseRequest (response_with [("result", JBool false)]) = None
  ∧ Transport.parseRequest (response_with [("result", JNum 0)]) = None
  ∧ Transport.parseRequest (response_with [("result", JNull)]) = None
  ∧ Transport.parseRequest (response_with [("result", JStr "")]) = None
  ∧ Transport.parseRequest
      (response_with
         [("result", JNum 0);
          ("error", JObj [("code", JNum (-32603));
                          ("message", JStr "Internal error")])])
    = Some (Single (Response
              (mkResponse (IdNumber 1) (Some (JNum 0))
                 (Some (mkError (-32603) "Internal error" None))))).
Proof. repeat split. Qed.

End Codec.

(** ** The POST handler *)

Section Post.
Context `{Runtime}.
Variable now : Z.

(** C6, as amended.  A POST whose headers pass the content-type and accept
    checks and whose body is the empty array is answered with status 400
    and the JSON-RPC parse error (code -32700, id null); the proxy and its
    sessions are not touched. *)
Theorem empty_batch_is_parse_error (serverEndpoint : string) (req : Req)
    (res : Res) (w : World) :
  Transport.validateContentType req res = None →
  Transport.validateAcceptHeader req res = None →
  req_body req = JArr [] →
  Http.handleMCPRequest now serverEndpoint req res w
    = Some (w, Ok (Transport.sendError (createParseError None) 400 res))
  ∧ error_code (Transport.sendError (createParseError None) 400 res)
    = Some (-32700)
  ∧ statusCode (Transport.sendError (createParseError None) 400 res)
    = Some 400.
Proof.
  intros Hct Hacc Hbody. split; [|done].
  unfold Http.handleMCPRequest, try_catch, bind, get_world.
  by rewrite Hct, Hacc, Hbody.
Qed.

(** On the JSON path of a single request the handler sets no header but
    the content type. *)
Lemma respond_single_json_headers (req : Req) (sessionId : option string)
    (message : JSONRPCMessage) (response : option JSONRPCMessage)
    (w w' : World) (res' : Res) (r : JSONRPCMessage) :
  Http.respond_single req sessionId message response fresh_res w
    = Some (w', Ok res') →
  body res' = Some (BodyMessage r) →
  headers res' = [("content-type", "application/json")].
Proof.
  unfold Http.respond_single, bind, get_world, ret, modify.
  destruct response as [r0|].
  2:{ intros [= _ <-]. unfold Transport.sendAccepted.
      by destruct (Transport.truthy_string sessionId). }
  destruct (Transport.acceptsSSE req).
  - destruct (Transport.streamResponses _ _ _) as [t res2] eqn:Hstream.
    intros [= _ <-]. unfold Transport.streamResponses in Hstream.
    destruct (Transport.sendSSEMessage _ _ _) as [t' res3] eqn:Hsend.
    unfold Transport.sendSSEMessage, Transport.sendSSEEvent,
      Transport.initSSE, Transport.write in Hsend.
    destruct (Transport.truthy_string sessionId);
      simpl in Hsend; by simplify_eq/=.
  - unfold Http.findSessionFromResponse.
    destruct (Transport.isInitializeRequest message && has_id r0);
      by intros [= _ <-].
Qed.

(** C3 (the code departs from the claim).  Whenever a POST is answered
    with status 200 and a JSON-RPC message as its JSON body, the response
    carries no [Mcp-Session-Id] header: [findSessionFromResponse] is a
    placeholder that returns [null], so [setSessionId] is never reached,
    also after a successful [initialize]. *)
Theorem json_response_has_no_session_header (serverEndpoint : string)
    (req : Req) (w w' : World) (res' : Res) (r : JSONRPCMessage) :
  Http.handleMCPRequest now serverEndpoint req fresh_res w
    = Some (w', Ok res') →
  statusCode res' = Some 200 →
  body res' = Some (BodyMessage r) →
  Transport.getHeader "Mcp-Session-Id" res' = None.
Proof.
  unfold Http.handleMCPRequest, try_catch.
  destruct (Transport.validateContentType req fresh_res) as [sent|] eqn:Hct.
  { intros [= _ <-]. unfold Transport.validateContentType in Hct.
    repeat case_match; simplify_eq/=; done. }
  destruct (Transport.validateAcceptHeader req fresh_res) as [sent|] eqn:Hacc.
  { intros [= _ <-]. unfold Transport.validateAcceptHeader in Hacc.
    repeat case_match; simplify_eq/=; done. }
  unfold bind at 1. unfold get_world at 1.
  destruct (Transport.parseRequest (req_body req)) as [[message|messages]|].
  - unfold bind at 1.
    destruct (Proxy.handleRequest _ _ _ _ w) as [[w1 [response|e]]|];
      [|by intros [= _ <-]|done].
    destruct (Http.respond_single _ _ _ _ _ w1) as [[w2 [res2|e]]|] eqn:Hr;
      [|by intros [= _ <-]|done].
    intros [= _ <-] _ Hbody.
    unfold Transport.getHeader.
    by rewrite (respond_single_json_headers _ _ _ _ _ _ _ _ Hr Hbody).
  - unfold bind at 1.
    destruct (Proxy.handleBatch _ _ _ _ w) as [[w1 [responses|e]]|];
      [|by intros [= _ <-]|done].
    by intros [= _ <-].
  - by intros [= _ <-].
Qed.

(** C10, first half: the [try] block of [handleRequest] never reads the
    session id of an [initialize] request. *)
Lemma handleRequest_try_initialize (sessionId : option string)
    (message : JSONRPCMessage) (serverEndpoint : string) :
  Transport.isInitializeRequest message = true →
  Proxy.handleRequest_try now sessionId message serverEndpoint
  = Proxy.handleRequest_try now None message serverEndpoint.
Proof. intros Hinit. unfold Proxy.handleRequest_try. by rewrite Hinit. Qed.

End Post.

Section Initialize.
Context `{Runtime}.
Variable now : Z.

(** The session object that [createSession] registers. *)
Definition new_session (w : World) (serverConfig : ServerConfig) : Session :=
  mkSession (randomUUID w) now now serverConfig None [] false [].

(** Below the cap, [createSession] registers the new session at once. *)
Lemma createSession_below_cap (L : SessionManager.Listeners)
    (serverConfig : ServerConfig) (w : World) :
  SessionManager.getSessionCount w < maxSessions (sessionManager w) →
  SessionManager.createSession now L serverConfig None w
  = Some (with_sessions
            (<[randomUUID w := new_session w serverConfig]>
               (sessions (sessionManager w))) w,
          Ok (new_session w serverConfig)).
Proof.
  intros Hcap%Z.leb_gt.
  unfold SessionManager.createSession, bind, get_world.
  by rewrite Hcap.
Qed.

(** The handle that [start] leaves when the child survives the window. *)
Definition started (processId : string) (serverConfig : ServerConfig)
    (w : World) : ManagedProcess :=
  mkManaged processId serverConfig
    (Some (mkChild (spawn_pid serverConfig w) (Some "") [])) 0 running.

Lemma spawnProcess_alive (processId : string) (serverConfig : ServerConfig)
    (w : World) :
  processes (processManager w) !! processId = None →
  (∀ w', start_outcome serverConfig w' = Alive) →
  ∃ ws,
    ProcessManager.spawnProcess processId serverConfig w
    = Some (ProcessManager.set_processes
              (<[processId := nextLoc w]> (processes (processManager w)))
              (with_heap
                 (<[nextLoc w := started processId serverConfig ws]>
                    (heap w))
                 (with_nextLoc (S (nextLoc w)) w)),
            Ok (nextLoc w)).
Proof.
  intros Hfree Halive.
  unfold ProcessManager.spawnProcess, bind, get_world. rewrite Hfree.
  unfold ProcessManager.alloc, ProcessManager.start, bind,
    ProcessManager.deref.
  simpl. rewrite lookup_insert_eq. simpl.
  unfold get_world, ProcessManager.assign, modify. simpl.
  rewrite Halive. simpl. eexists. unfold ProcessManager.set_processes.
  simpl. rewrite insert_insert_eq. reflexivity.
Qed.

(** The world after a successful [createSessionWithProcess]; [ws] is the
    world in which the child was spawned. *)
Definition created (w : World) (serverConfig : ServerConfig) (ws : World)
  : World :=
  let sessionId := randomUUID w in
  let l := nextLoc w in
  with_sessions
    (<[sessionId := set_stdioProcess (Some l) (new_session w serverConfig)]>
       (sessions (sessionManager w)))
    (ProcessManager.set_processes
       (<["session-" +:+ sessionId := l]> (processes (processManager w)))
       (with_heap
          (<[l := started ("session-" +:+ sessionId) serverConfig ws]>
             (heap w))
          (with_nextLoc (S l) w))).

Lemma heap_created (w : World) (serverConfig : ServerConfig) (ws : World) :
  heap (created w serverConfig ws)
  = <[nextLoc w := started ("session-" +:+ randomUUID w) serverConfig ws]>
      (heap w).
Proof. reflexivity. Qed.

Lemma sessions_created (w : World) (serverConfig : ServerConfig)
    (ws : World) :
  sessions (sessionManager (created w serverConfig ws))
  = <[randomUUID w :=
        set_stdioProcess (Some (nextLoc w)) (new_session w serverConfig)]>
      (sessions (sessionManager w)).
Proof. reflexivity. Qed.

Lemma processes_created (w : World) (serverConfig : ServerConfig)
    (ws : World) :
  processes (processManager (created w serverConfig ws))
  = <["session-" +:+ randomUUID w := nextLoc w]>
      (processes (processManager w)).
Proof. reflexivity. Qed.

Lemma createSessionWithProcess_alive (serverConfig : ServerConfig)
    (w : World) :
  SessionManager.getSessionCount w < maxSessions (sessionManager w) →
  processes (processManager w) !! ("session-" +:+ randomUUID w) = None →
  (∀ w', start_outcome serverConfig w' = Alive) →
  ∃ ws,
    Proxy.createSessionWithProcess now serverConfig w
    = Some (created w serverConfig ws,
            Ok (set_stdioProcess (Some (nextLoc w))
                                 (new_session w serverConfig))).
Proof.
  intros Hcap Hfree Halive.
  unfold Proxy.createSessionWithProcess, bind.
  rewrite createSession_below_cap by done.
  destruct (spawnProcess_alive ("session-" +:+ randomUUID w) serverConfig
              (with_sessions
                 (<[randomUUID w := new_session w serverConfig]>
                    (sessions (sessionManager w))) w))
    as [ws Hspawn]; [done|done|].
  exists ws. unfold try_catch, bind. simpl. simpl in Hspawn.
  rewrite Hspawn. unfold ret, created. do 2 f_equal.
  unfold with_sessions, with_sessionManager, ProcessManager.set_processes,
    with_processManager, with_heap, with_nextLoc.
  simpl. by rewrite alter_insert_eq.
Qed.

Lemma initialize_creates (message : JSONRPCMessage)
    (serverEndpoint : string) (w : World) (serverConfig : ServerConfig) :
  Transport.isInitializeRequest message = true →
  serverConfigs w !! serverEndpoint = Some serverConfig →
  SessionManager.getSessionCount w < maxSessions (sessionManager w) →
  processes (processManager w) !! ("session-" +:+ randomUUID w) = None →
  (∀ w', start_outcome serverConfig w' = Alive) →
  ∃ wc l p,
    Proxy.handleRequest_try now None message serverEndpoint w
    = (if Transport.requiresResponse message then
         let '(w', r) := await_response (randomUUID w) message wc in
         Some (w', match r with Ok m => Ok (Some m) | Throw e => Throw e end)
       else Some (wc, Ok None))
    ∧ session_of wc (randomUUID w)
      = Some (set_stdioProcess (Some l) (new_session w serverConfig))
    ∧ processes (processManager wc) !! ("session-" +:+ randomUUID w)
      = Some l
    ∧ heap wc !! l = Some p
    ∧ l = nextLoc w
    ∧ ProcessManager.isRunning p = true
    ∧ ProcessManager.stdin_bytes p
      = Some (JSON_stringify (Single message)
              +:+ (if ProcessManager.endsWith
                        (JSON_stringify (Single message)) ProcessManager.LF
                   then "" else ProcessManager.LF))
    ∧ ∀ other, other ≠ randomUUID w →
        session_of wc other = session_of w other.
Proof.
  intros Hinit Hcfg Hcap Hfree Halive.
  unfold Proxy.handleRequest_try. rewrite Hinit.
  destruct (createSessionWithProcess_alive serverConfig w Hcap Hfree Halive)
    as [ws Hc].
  destruct (sendToStdin_running (JSON_stringify (Single message))
              (started ("session-" +:+ randomUUID w) serverConfig ws)
              _ "" eq_refl eq_refl eq_refl)
    as (p' & Hsend & Hst & Hbytes).
  exists (with_heap (<[nextLoc w := p']> (heap (created w serverConfig ws)))
                    (created w serverConfig ws)), (nextLoc w), p'.
  split.
  { unfold bind at 1. unfold bind at 1. unfold get_world at 1.
    rewrite Hcfg. unfold bind at 1. rewrite Hc. unfold ret at 1. simpl.
    unfold bind at 1. unfold ProcessManager.deref at 1. simpl.
    rewrite lookup_insert_eq. rewrite Hsend. unfold bind at 1.
    unfold ProcessManager.assign, modify.
    destruct (Transport.requiresResponse message); [|done].
    unfold bind, ret. simpl.
    by destruct (await_response _ _ _) as [w' [m|e]]. }
  split; [unfold session_of; simpl; apply lookup_insert_eq|].
  split; [simpl; apply lookup_insert_eq|].
  split; [simpl; apply lookup_insert_eq|].
  split; [done|].
  split.
  { unfold ProcessManager.isRunning. rewrite Hst. simpl.
    unfold ProcessManager.stdin_bytes in Hbytes.
    by destruct (process p'). }
  split; [exact Hbytes|].
  intros other Hne. unfold session_of. simpl. by rewrite lookup_insert_ne.
Qed.

(** C10.  [handleRequest] treats an [initialize] request that comes with a
    session id exactly as one that comes without: the supplied id is never
    read.  When the endpoint is configured, the registry is below its cap,
    the handle name is free and the child survives its start window,
    [handleRequest] does not reject the request: it registers a session
    with a fresh id, spawns a new handle [session-<id>] and binds it to
    the session, writes the request to the child, and touches no other
    session, the supplied one included.  What it returns is then what the
    wait for the child's response gives in the world [wc] so created: the
    response, or, when the wait fails with [e], the error response
    under the request's id; for a message that requires no response it
    returns [null] in [wc]. *)
Theorem initialize_ignores_supplied_session (supplied : string)
    (message : JSONRPCMessage) (serverEndpoint : string) (w : World) :
  Transport.isInitializeRequest message = true →
  Proxy.handleRequest now (Some supplied) message serverEndpoint w
  = Proxy.handleRequest now None message serverEndpoint w
  ∧ ∀ serverConfig,
      serverConfigs w !! serverEndpoint = Some serverConfig →
      SessionManager.getSessionCount w < maxSessions (sessionManager w) →
      processes (processManager w) !! ("session-" +:+ randomUUID w) = None →
      (∀ w', start_outcome serverConfig w' = Alive) →
      ∃ wc l p,
        Proxy.handleRequest now (Some supplied) message serverEndpoint w
        = (if Transport.requiresResponse message then
             let '(w', r) := await_response (randomUUID w) message wc in
             Some (w', match r with
                       | Ok m => Ok (Some m)
                       | Throw e =>
                           match message_id message with
                           | Some i =>
                               Ok (Some
                                     (Response
                                        (mkResponse i None
                                           (Some
                                              (mkError (-32603)
                                                 "Internal error"
                                                 (Some
                                                    (JStr
                                                       (String_of_error
                                                          e))))))))
                           | None => Throw e
                           end
                       end)
           else Some (wc, Ok None))
        ∧ session_of wc (randomUUID w)
          = Some (set_stdioProcess (Some l) (new_session w serverConfig))
        ∧ processes (processManager wc) !! ("session-" +:+ randomUUID w)
          = Some l
        ∧ heap wc !! l = Some p
        ∧ l = nextLoc w
        ∧ ProcessManager.isRunning p = true
        ∧ ProcessManager.stdin_bytes p
          = Some (JSON_stringify (Single message)
                  +:+ (if ProcessManager.endsWith
                            (JSON_stringify (Single message))
                            ProcessManager.LF
                       then "" else ProcessManager.LF))
        ∧ ∀ other, other ≠ randomUUID w →
            session_of wc other = session_of w other.
Proof.
  intros Hinit. split.
  - unfold Proxy.handleRequest.
    by rewrite (handleRequest_try_initialize now (Some supplied)).
  - intros serverConfig Hcfg Hcap Hfree Halive.
    destruct (initialize_creates message serverEndpoint w serverConfig
                Hinit Hcfg Hcap Hfree Halive)
      as (wc & l & p & Htry & Hrest).
    exists wc, l, p. split; [|exact Hrest].
    unfold Proxy.handleRequest, try_catch.
    rewrite (handleRequest_try_initialize now (Some supplied)) by done.
    rewrite Htry.
    destruct (Transport.requiresResponse message); [|done].
    destruct (await_response (randomUUID w) message wc) as [w' [m|e]];
      [done|].
    by destruct (message_id message).
Qed.

End Initialize.

(** ** The POST handler on the echo deployment *)

Section PostExamples.
Import Scenario.
#[local] Existing Instance echo.

Definition empty_batch_post : Req := post "application/json" None (JArr []).

(** The failing input of C6: a POST of [[]] is answered with the parse
    error, so its code is not -32600. *)
Lemma empty_batch_is_not_invalid_request :
  error_code <$> result (Http.handleMCPRequest 0 "/echo" empty_batch_post
                                               fresh_res) w0
  ≠ Some (Some (-32600)).
Proof. vm_compute. discriminate. Qed.

Lemma empty_batch_is_parse_error_witness :
  Transport.validateContentType empty_batch_post fresh_res = None
  ∧ Transport.validateAcceptHeader empty_batch_post fresh_res = None
  ∧ req_body empty_batch_post = JArr []
  ∧ Http.handleMCPRequest 0 "/echo" empty_batch_post fresh_res w0
    = Some (w0, Ok (Transport.sendError (createParseError None) 400
                                        fresh_res)).
Proof.
  split; [reflexivity|]. split; [reflexivity|]. split; [reflexivity|].
  apply (empty_batch_is_parse_error 0 "/echo" empty_batch_post fresh_res w0);
    reflexivity.
Defined.

(** The failing input of C3: the [initialize] of the end-to-end scenario
    is answered 200 with the echo result, and without the header. *)
Lemma json_response_has_no_session_header_witness :
  ∃ w' res',
    initialize_post w0 = Some (w', Ok res')
    ∧ statusCode res' = Some 200
    ∧ body res'
      = Some (BodyMessage
                (Response (mkResponse (IdString "i1") (Some echo_result)
                                      None)))
    ∧ session_of w' "u0" ≠ None
    ∧ Transport.getHeader "Mcp-Session-Id" res' = None.
Proof.
  assert (∃ w' res',
            initialize_post w0 = Some (w', Ok res')
            ∧ statusCode res' = Some 200
            ∧ body res'
              = Some (BodyMessage
                        (Response (mkResponse (IdString "i1")
                                     (Some echo_result) None)))
            ∧ session_of w' "u0" ≠ None)
    as (w' & res' & Hpost & Hstatus & Hbody & Hsession).
  { eexists _, _. split; [vm_compute; reflexivity|].
    split; [reflexivity|]. split; [reflexivity|]. vm_compute. discriminate. }
  exists w', res'. repeat (split; [assumption|]).
  exact (json_response_has_no_session_header 0 "/echo"
           (post "application/json" None initialize_body) w0 w' res' _
           Hpost Hstatus Hbody).
Defined.

Definition second_initialize : JSONRPCMessage :=
  Request (mkRequest (Some (IdString "i2")) "initialize" None).

(** An [initialize] that names the session [u0] of an earlier one:
    [handleRequest] answers it with the child's response, in a world in
    which a session [u1] with the handle [session-u1] exists and [u0] is
    as it was; the outcome is that of the call without a session id. *)
Lemma initialize_ignores_supplied_session_witness :
  Transport.isInitializeRequest second_initialize = true
  ∧ Proxy.handleRequest 0 (Some "u0") second_initialize "/echo" w1
    = Proxy.handleRequest 0 None second_initialize "/echo" w1
  ∧ ∃ wc,
      Proxy.handleRequest 0 (Some "u0") second_initialize "/echo" w1
      = Some (wc, Ok (Some (Response (mkResponse (IdString "i2")
                                        (Some echo_result) None))))
      ∧ session_of wc "u1" ≠ None
      ∧ processes (processManager wc) !! "session-u1" ≠ None
      ∧ session_of wc "u0" = session_of w1 "u0".
Proof.
  split; [reflexivity|].
  destruct (initialize_ignores_supplied_session 0 "u0" second_initialize
              "/echo" w1 eq_refl) as [Hsame Hcreate].
  split; [exact Hsame|].
  destruct (Hcreate echo_config)
    as (wc & l & p & Hrun & Hnew & Hhandle & _ & _ & _ & _ & Hothers);
    [vm_compute; reflexivity | vm_compute; reflexivity
    | vm_compute; reflexivity | intros; reflexivity |].
  exists wc. split; [exact Hrun|]. split; [|split].
  - change "u1" with (randomUUID w1). by rewrite Hnew.
  - change "session-u1" with ("session-" +:+ randomUUID w1).
    by rewrite Hhandle.
  - apply Hothers. vm_compute. discriminate.
Defined.

End PostExamples.

(** ** Server-initiated messages: the queue and the SSE streams *)

Section Delivery.
Context `{Runtime}.
Variable now : Z.

(** Every connection of the list is a stream that is still open. *)
Definition all_open (conns : list loc) (w : World) : Prop :=
  ∀ c, c ∈ conns → ∃ res, sockets w !! c = Some res ∧ ended res = false.

(** An event written to an open stream is appended to it. *)
Lemma event_data_write (e : SSEEvent) (res : Res) :
  ended res = false →
  Transport.event_data (Transport.write (Event e) res)
  = (Transport.event_data res ++ [sse_data e])%list
  ∧ ended (Transport.write (Event e) res) = false.
Proof.
  intros Hopen. unfold Transport.write, Transport.event_data.
  rewrite Hopen. simpl. split; [|done].
  by rewrite omap_app.
Qed.

(** The proxy's fan-out writes the message once to each stream of the list
    and touches nothing but those streams and the proxy's event counter. *)
Lemma sendToEach_effect (message : Parsed) (conns : list loc) (w : World) :
  NoDup conns → all_open conns w →
  ∃ w',
    Proxy.sendToEach message conns w = Some (w', Ok tt)
    ∧ sessionManager w' = sessionManager w
    ∧ httpTransport w' = httpTransport w
    ∧ nextLoc w' = nextLoc w
    ∧ (∀ c res, c ∈ conns → sockets w !! c = Some res →
         ∃ res', sockets w' !! c = Some res'
                 ∧ ended res' = false
                 ∧ Transport.event_data res'
                   = (Transport.event_data res
                      ++ [JSON_stringify message])%list)
    ∧ (∀ c, c ∉ conns → sockets w' !! c = sockets w !! c).
Proof.
  revert w. induction conns as [|c conns IH]; intros w Hnodup Hopen.
  - exists w. repeat split; try done. intros c res Hc. by inversion Hc.
  - apply NoDup_cons in Hnodup as [Hfresh Hnodup].
    destruct (Hopen c) as (res & Hres & Hended); [by left|].
    simpl. unfold bind at 1. unfold Proxy.proxy_send, modify.
    rewrite Hres. unfold Transport.sendSSEMessage, Transport.sendSSEEvent.
    set (e := mkEvent _ _ _ _).
    set (w1 := with_proxyTransport _ _).
    destruct (event_data_write e res Hended) as [Hdata Hstill].
    destruct (IH w1) as (w' & Hrun & Hsm & Hhttp & Hnext & Hin & Hout).
    { done. }
    { intros c' Hc'. destruct (Hopen c') as (res' & Hres' & Hended');
        [by right|].
      exists res'. split; [|done]. subst w1. simpl.
      rewrite lookup_insert_ne; [done|]. intros ->. done. }
    exists w'. split; [exact Hrun|]. split; [by rewrite Hsm|].
    split; [by rewrite Hhttp|]. split; [by rewrite Hnext|]. split.
    + intros c' res' [->|Hc']%elem_of_cons Hres'.
      * rewrite Hout by done. subst w1. simpl. rewrite lookup_insert_eq.
        eexists. split; [done|]. split; [done|]. by simplify_eq.
      * destruct (Hin c' res' Hc') as (res'' & ? & ? & ?).
        { subst w1. simpl. rewrite lookup_insert_ne; [done|].
          intros ->. done. }
        by exists res''.
    + intros c' Hc'. rewrite Hout.
      * subst w1. simpl. rewrite lookup_insert_ne; [done|].
        intros ->. apply Hc'. by left.
      * intros ?. apply Hc'. by right.
Qed.

(** The session object after a message was routed to it. *)
Definition routed (message : Parsed) (init : bool) (session : Session)
  : Session :=
  set_messageQueue (messageQueue session ++ [message])
    (if init then set_isInitialized true session else session).

(** [routeProcessMessage] on a live session: the message is appended to the
    queue and, besides, written once to every attached stream. *)
Lemma routeProcessMessage_effect (sessionId : string) (message : Parsed)
    (w : World) (session : Session) (init : bool) :
  session_of w sessionId = Some session →
  Proxy.isInitializeResponse message = Ok init →
  NoDup (sseConnections session) →
  all_open (sseConnections session) w →
  ∃ w',
    Proxy.routeProcessMessage sessionId message w = Some (w', Ok tt)
    ∧ session_of w' sessionId = Some (routed message init session)
    ∧ sessionTimeout (sessionManager w') = sessionTimeout (sessionManager w)
    ∧ httpTransport w' = httpTransport w
    ∧ nextLoc w' = nextLoc w
    ∧ (∀ c res, c ∈ sseConnections session → sockets w !! c = Some res →
         ∃ res', sockets w' !! c = Some res'
                 ∧ ended res' = false
                 ∧ Transport.event_data res'
                   = (Transport.event_data res
                      ++ [JSON_stringify message])%list)
    ∧ (∀ c, c ∉ sseConnections session → sockets w' !! c = sockets w !! c).
Proof.
  intros Hs Hinit Hnodup Hopen.
  unfold Proxy.routeProcessMessage. unfold bind at 1. unfold get_world at 1.
  unfold SessionManager.hasSession. rewrite Hs.
  rewrite bool_decide_eq_true_2 by eauto. simpl negb. cbv iota.
  unfold bind at 1. rewrite Hinit.
  unfold bind, SessionManager.setSessionInitialized,
    SessionManager.queueMessage, SessionManager.update_session, modify,
    SessionManager.getActiveSSEConnections, get_world, ret.
  destruct init; simpl.
  all: match goal with
       | |- context [Proxy.sendToEach _ _ ?W] => set (wq := W)
       end.
  1: assert (session_of wq sessionId = Some (routed message true session))
       as Hq
       by (subst wq; unfold session_of in *; simpl;
           by rewrite !lookup_alter_eq, Hs).
  2: assert (session_of wq sessionId = Some (routed message false session))
       as Hq
       by (subst wq; unfold session_of in *; simpl;
           by rewrite !lookup_alter_eq, Hs).
  all: rewrite Hq; simpl sseConnections.
  all: destruct (sendToEach_effect message (sseConnections session) wq)
         as (w' & Hrun & Hsm & Hhttp & Hnext & Hin & Hout);
         [done | exact Hopen |].
  all: exists w'; split; [exact Hrun|].
  all: split; [unfold session_of in *; by rewrite Hsm|].
  all: split; [by rewrite Hsm|].
  all: split; [by rewrite Hhttp|].
  all: split; [by rewrite Hnext|].
  all: split; [intros c res Hc Hres; by apply Hin | exact Hout].
Qed.

(** The drain loop writes the queued messages, in order, to the stream. *)
Lemma sendQueued_effect (c : loc) (queued : list Parsed) (w : World)
    (res : Res) :
  sockets w !! c = Some res → ended res = false →
  ∃ w' res',
    Http.sendQueued c queued w = Some (w', Ok tt)
    ∧ sessionManager w' = sessionManager w
    ∧ nextLoc w' = nextLoc w
    ∧ sockets w' !! c = Some res'
    ∧ ended res' = false
    ∧ Transport.event_data res'
      = (Transport.event_data res ++ (JSON_stringify <$> queued))%list
    ∧ (∀ c', c' ≠ c → sockets w' !! c' = sockets w !! c').
Proof.
  revert w res. induction queued as [|message queued IH]; intros w res Hres Hopen.
  - exists w, res. repeat split; try done. by rewrite app_nil_r.
  - simpl. unfold bind at 1. unfold get_world at 1. rewrite Hres.
    unfold bind at 1. unfold Http.http_send.
    unfold Transport.sendSSEMessage, Transport.sendSSEEvent.
    set (e := mkEvent _ _ _ _). unfold bind at 1.
    unfold Http.update_res, modify.
    destruct (event_data_write e res Hopen) as [Hdata Hstill].
    set (w1 := with_sockets _ _).
    destruct (IH w1 (Transport.write (Event e) res))
      as (w' & res' & Hrun & Hsm & Hnext & Hc & Hended & Hevents & Hothers).
    { subst w1. simpl. by rewrite lookup_alter_eq, Hres. }
    { done. }
    exists w', res'. split; [exact Hrun|]. split; [by rewrite Hsm|].
    split; [by rewrite Hnext|]. split; [done|]. split; [done|]. split.
    + rewrite Hevents, Hdata. simpl. by rewrite <- app_assoc.
    + intros c' Hne. rewrite Hothers by done. subst w1. simpl.
      by rewrite lookup_alter_ne.
Qed.

(** The session object after a stream [c] was attached and the queue
    drained. *)
Definition attached (c : loc) (session : Session) : Session :=
  set_messageQueue []
    (set_sseConnections (Set_add c (sseConnections session))
                        (set_lastActivityAt now session)).

(** [handleSSERequest] with a valid session id, on the fresh response [c]. *)
Lemma handleSSERequest_effect (serverEndpoint : string) (req : Req)
    (c : loc) (w : World) (sessionId : string) (session : Session) :
  Transport.acceptsSSE req = true →
  Transport.truthy_string (Transport.getSessionId (httpTransport w) req)
    = Some sessionId →
  session_of w sessionId = Some session →
  SessionManager.isSessionExpired (sessionTimeout (sessionManager w)) now
                                  session = false →
  sockets w !! c = Some fresh_res →
  ∃ w' res',
    Http.handleSSERequest now serverEndpoint req c w = Some (w', Ok tt)
    ∧ session_of w' sessionId = Some (attached c session)
    ∧ nextLoc w' = nextLoc w
    ∧ sockets w' !! c = Some res'
    ∧ ended res' = false
    ∧ Transport.event_data res' = JSON_stringify <$> messageQueue session
    ∧ (∀ c', c' ≠ c → sockets w' !! c' = sockets w !! c').
Proof.
  intros Hacc Hid Hs Hlive Hc.
  unfold Http.handleSSERequest, try_catch.
  rewrite Hacc. change (negb true) with false. cbv iota beta.
  unfold bind at 1. unfold get_world at 1.
  rewrite Hid. unfold bind at 1.
  unfold SessionManager.getSession. unfold bind at 1. unfold get_world at 1.
  rewrite Hs, Hlive.
  unfold bind, SessionManager.updateSessionActivity,
    SessionManager.update_session, modify, ret, get_world,
    Http.update_res, SessionManager.addSSEConnection,
    SessionManager.dequeueMessages.
  simpl. unfold bind, get_world. cbv beta.
  match goal with
  | |- context [session_of ?W sessionId] =>
      match W with with_sessions _ _ => set (wa := W) end
  end.
  assert (session_of wa sessionId
          = Some (set_sseConnections (Set_add c (sseConnections session))
                    (set_lastActivityAt now session))) as Ha.
  { subst wa. unfold session_of in *. simpl.
    by rewrite !lookup_alter_eq, Hs. }
  rewrite Ha. unfold SessionManager.update_session, modify, ret.
  cbv beta iota. simpl messageQueue.
  set (wd := with_sessions _ wa).
  destruct (sendQueued_effect c (messageQueue session) wd
              (Transport.initSSE (httpTransport w) (Some sessionId) fresh_res))
    as (w' & res' & Hrun & Hsm & Hnext & Hres & Hended & Hdata & Hothers).
  { subst wd wa. simpl. by rewrite lookup_alter_eq, Hc. }
  { unfold Transport.initSSE.
    destruct (Transport.truthy_string (Some sessionId)); reflexivity. }
  exists w', res'. rewrite Hrun. split; [done|]. split.
  { unfold session_of in *. rewrite Hsm. subst wd wa. simpl.
    by rewrite !lookup_alter_eq, Hs. }
  split; [by rewrite Hnext|]. split; [done|]. split; [done|]. split.
  { rewrite Hdata. unfold Transport.initSSE.
    destruct (Transport.truthy_string (Some sessionId)); reflexivity. }
  intros c' Hne. rewrite Hothers by done. subst wd wa. simpl.
  by rewrite lookup_alter_ne.
Qed.

(** A GET with a valid session id: the new stream is registered with the
    session, receives the whole queue, and the queue is left empty. *)
Lemma attach_effect (serverEndpoint : string) (req : Req) (w : World)
    (sessionId : string) (session : Session) :
  Transport.acceptsSSE req = true →
  Transport.truthy_string (Transport.getSessionId (httpTransport w) req)
    = Some sessionId →
  session_of w sessionId = Some session →
  SessionManager.isSessionExpired (sessionTimeout (sessionManager w)) now
                                  session = false →
  ∃ w' res',
    Http.GET now serverEndpoint req w = Some (w', Ok (nextLoc w))
    ∧ session_of w' sessionId = Some (attached (nextLoc w) session)
    ∧ sockets w' !! nextLoc w = Some res'
    ∧ ended res' = false
    ∧ Transport.event_data res' = JSON_stringify <$> messageQueue session
    ∧ (∀ c, c ≠ nextLoc w → sockets w' !! c = sockets w !! c).
Proof.
  intros Hacc Hid Hs Hlive.
  unfold Http.GET. unfold bind at 1. unfold Http.accept_connection.
  set (wc := with_nextLoc _ _).
  destruct (handleSSERequest_effect serverEndpoint req (nextLoc w) wc
              sessionId session)
    as (w' & res' & Hrun & Hsession & _ & Hres & Hended & Hdata & Hothers);
    try done.
  { subst wc. simpl. apply lookup_insert_eq. }
  exists w', res'. unfold bind. rewrite Hrun. repeat (split; [done|]).
  intros c Hne. rewrite Hothers by done. subst wc. simpl.
  by rewrite lookup_insert_ne.
Qed.

(** C2, as amended.  A message routed to a live session is appended to the
    session's queue and is, in addition, written once to each SSE stream
    attached at that moment; it stays in the queue.  The next stream that
    attaches is sent the whole queue in order, this message included, and
    leaves the queue empty.  Destroying the session removes it together with
    whatever its queue holds. *)
Theorem routed_message_is_fanned_out_and_stays_queued (sessionId : string)
    (message : Parsed) (init : bool) (w : World) (session : Session)
    (serverEndpoint : string) (req : Req) :
  session_of w sessionId = Some session →
  Proxy.isInitializeResponse message = Ok init →
  NoDup (sseConnections session) →
  all_open (sseConnections session) w →
  Transport.acceptsSSE req = true →
  Transport.truthy_string (Transport.getSessionId (httpTransport w) req)
    = Some sessionId →
  SessionManager.isSessionExpired (sessionTimeout (sessionManager w)) now
                                  session = false →
  ∃ w1 w2 w3 stream,
    Proxy.routeProcessMessage sessionId message w = Some (w1, Ok tt)
    ∧ (messageQueue <$> session_of w1 sessionId)
      = Some (messageQueue session ++ [message])
    ∧ (∀ c res, c ∈ sseConnections session → sockets w !! c = Some res →
         ∃ res', sockets w1 !! c = Some res'
                 ∧ Transport.event_data res'
                   = (Transport.event_data res
                      ++ [JSON_stringify message])%list)
    ∧ Http.GET now serverEndpoint req w1 = Some (w2, Ok (nextLoc w))
    ∧ sockets w2 !! nextLoc w = Some stream
    ∧ Transport.event_data stream
      = ((JSON_stringify <$> messageQueue session)
         ++ [JSON_stringify message])%list
    ∧ (messageQueue <$> session_of w2 sessionId) = Some []
    ∧ SessionManager.destroySession (Proxy.registered now) sessionId w2
      = Some (w3, Ok tt)
    ∧ session_of w3 sessionId = None.
Proof.
  intros Hs Hinit Hnodup Hopen Hacc Hid Hlive.
  destruct (routeProcessMessage_effect sessionId message w session init)
    as (w1 & Hroute & Hs1 & Htimeout & Hhttp & Hnext & Hin & _); try done.
  destruct (attach_effect serverEndpoint req w1 sessionId
              (routed message init session))
    as (w2 & stream & Hget & Hs2 & Hstream & _ & Hdata & _); try done.
  { by rewrite Hhttp. }
  { rewrite Htimeout. unfold routed. by destruct init. }
  exists w1, w2, (destroyed sessionId w2), stream.
  split; [done|]. split; [by rewrite Hs1|]. split.
  { intros c res Hc Hres. destruct (Hin c res Hc Hres) as (res' & ? & _ & ?).
    by exists res'. }
  rewrite Hnext in Hget, Hstream, Hs2.
  split; [done|]. split; [done|]. split.
  { rewrite Hdata. unfold routed. simpl. by rewrite fmap_app. }
  split; [by rewrite Hs2|]. split.
  { unfold Proxy.registered. apply destroySession_listeners. }
  unfold destroyed. rewrite Hs2. rewrite session_of_with_sessions.
  apply lookup_delete_eq.
Qed.

End Delivery.

Section DeliveryExamples.
Import Scenario.
#[local] Existing Instance echo.

(** The failing input of C2: a stream is attached, the subprocess sends one
    notification, a second stream attaches.  The notification is written to
    both streams. *)
Lemma message_is_delivered_twice :
  deliveries (JSON_stringify (note "a")) w_stream_message_stream = 2%nat
  ∧ deliveries (JSON_stringify (note "a")) w_stream_message_stream ≠ 1%nat.
Proof. split; [vm_compute; reflexivity | vm_compute; discriminate]. Qed.

Lemma routed_message_is_fanned_out_and_stays_queued_witness :
  ∃ w' first second,
    Proxy.routeProcessMessage "u0" (note "a") w_stream = Some (w', Ok tt)
    ∧ sockets w' !! 1%nat = Some first
    ∧ Transport.event_data first = ["notification a"]
    ∧ sockets (after attach w') !! 2%nat = Some second
    ∧ Transport.event_data second = ["notification a"].
Proof.
  assert (∃ session, session_of w_stream "u0" = Some session
                     ∧ sseConnections session = [1%nat]
                     ∧ messageQueue session = [])
    as (session & Hs & Hconns & Hqueue).
  { eexists. split; [vm_compute; reflexivity|]. split; reflexivity. }
  destruct (routed_message_is_fanned_out_and_stays_queued 0 "u0" (note "a")
              false w_stream session "/echo" (get_stream "u0"))
    as (w' & w2 & w3 & stream & Hroute & _ & Hin & Hget & Hstream & Hdata & _).
  - exact Hs.
  - reflexivity.
  - rewrite Hconns. apply NoDup_singleton.
  - rewrite Hconns. intros c ->%list_elem_of_singleton.
    eexists. split; [vm_compute; reflexivity | reflexivity].
  - reflexivity.
  - reflexivity.
  - revert Hs. vm_compute. intros [= <-]. reflexivity.
  - destruct (Hin 1%nat (Transport.initSSE (httpTransport w_stream)
                                           (Some "u0") fresh_res))
      as (first & Hfirst & Hfirst_data).
    { rewrite Hconns. by left. }
    { vm_compute. reflexivity. }
    exists w', first, stream. split; [exact Hroute|]. split; [exact Hfirst|].
    split; [exact Hfirst_data|].
    unfold after, attach. rewrite Hget. split; [exact Hstream|].
    rewrite Hdata, Hqueue. reflexivity.
Defined.

End DeliveryExamples.

(** ** Event ids *)

Section EventIds.
Import Scenario.
#[local] Existing Instance echo.

(** One transport numbers its events 1, 2, 3, ... *)
Lemma sendSSEMessage_counter (t : Transport) (message : Parsed) (res : Res) :
  eventCounter (Transport.sendSSEMessage t message res).1
  = eventCounter t + 1.
Proof. reflexivity. Qed.

Lemma sendSSEMessage_id (t : Transport) (message : Parsed) (res : Res) :
  ended res = false →
  Transport.event_ids (Transport.sendSSEMessage t message res).2
  = Transport.event_ids res ++ [eventCounter t + 1].
Proof.
  intros Hopen. unfold Transport.sendSSEMessage, Transport.sendSSEEvent,
    Transport.write, Transport.event_ids.
  simpl. rewrite Hopen. simpl. by rewrite omap_app.
Qed.

(** C5 (the code departs from the claim).  The queue drain at attach numbers
    its events with the front end's transport, the fan-out of later
    messages with the proxy's transport, and each of the two counts from 1.
    On the failing input (one message queued, then a stream attached, then
    a second message) the stream receives the ids 1 and 1. *)
Theorem drained_and_pushed_events_share_ids :
  ∃ stream,
    sockets w_message_stream_message !! 1%nat = Some stream
    ∧ Transport.event_data stream = ["notification a"; "notification b"]
    ∧ Transport.event_ids stream = [1; 1]
    ∧ ¬ strictly_increasing (Transport.event_ids stream).
Proof.
  eexists. split; [vm_compute; reflexivity|].
  split; [reflexivity|]. split; [reflexivity|].
  intros Hinc. specialize (Hinc 0%nat 1%nat 1 1). simpl in Hinc.
  assert (1 < 1) by (apply Hinc; [lia|done|done]). lia.
Qed.

End EventIds.

(** ** The session cap and the expiry sweep *)

Section Sweep.
Context `{Runtime}.
Variable now : Z.

Import SessionManager.

(** The sessions that are not expired at [now]. *)
Definition live (w : World) : gmap string Session :=
  filter (λ kv, isSessionExpired (sessionTimeout (sessionManager w)) now kv.2
                = false)
         (sessions (sessionManager w)).

(** The registry after the sessions [ids] were destroyed one by one. *)
Definition destroy_all (ids : list string) (w : World) : World :=
  foldl (λ v sessionId, destroyed sessionId v) w ids.

(** Every session among [ids] that is registered in [w] is expired. *)
Definition all_expired (ids : list string) (w : World) : Prop :=
  ∀ sessionId session, sessionId ∈ ids →
    session_of w sessionId = Some session →
    isSessionExpired (sessionTimeout (sessionManager w)) now session = true.

Lemma sessions_destroyed (sessionId : string) (w : World) :
  sessions (sessionManager (destroyed sessionId w))
  = delete sessionId (sessions (sessionManager w)).
Proof.
  unfold destroyed. destruct (session_of w sessionId) eqn:Hs; [done|].
  by rewrite delete_id.
Qed.

Lemma limits_destroyed (sessionId : string) (w : World) :
  sessionTimeout (sessionManager (destroyed sessionId w))
  = sessionTimeout (sessionManager w)
  ∧ maxSessions (sessionManager (destroyed sessionId w))
    = maxSessions (sessionManager w).
Proof. unfold destroyed. by destruct (session_of w sessionId). Qed.

Lemma destroyed_absent (sessionId : string) (w : World) :
  session_of w sessionId = None → destroyed sessionId w = w.
Proof. intros Hs. unfold destroyed. by rewrite Hs. Qed.

Lemma bind_assoc {A B C} (m : M A) (f : A → M B) (g : B → M C) (w : World) :
  bind (bind m f) g w = bind m (λ x, bind (f x) g) w.
Proof. unfold bind. by destruct (m w) as [[w1 [a|e]]|]. Qed.

(** [getSession] on an expired session destroys it and returns nothing. *)
Lemma getSession_expired (d : nat) (sessionId : string) (w : World)
    (session : Session) :
  session_of w sessionId = Some session →
  isSessionExpired (sessionTimeout (sessionManager w)) now session = true →
  getSession now (Proxy.listeners now (S d)) sessionId w
  = Some (destroyed sessionId w, Ok None).
Proof.
  intros Hs Hexp. unfold getSession. unfold bind at 1. unfold get_world.
  rewrite Hs, Hexp. unfold bind. by rewrite destroySession_listeners.
Qed.

Lemma getSession_absent (L : Listeners) (sessionId : string) (w : World) :
  session_of w sessionId = None →
  getSession now L sessionId w = Some (w, Ok None).
Proof.
  intros Hs. unfold getSession, bind, get_world. by rewrite Hs.
Qed.

(** [getSession] on a live session refreshes its activity clock. *)
Lemma getSession_live (L : Listeners) (sessionId : string) (w : World)
    (session : Session) :
  session_of w sessionId = Some session →
  isSessionExpired (sessionTimeout (sessionManager w)) now session = false →
  getSession now L sessionId w
  = Some (with_sessions
            (alter (set_lastActivityAt now) sessionId
                   (sessions (sessionManager w))) w,
          Ok (Some (set_lastActivityAt now session))).
Proof.
  intros Hs Hlive. unfold getSession, bind, get_world.
  by rewrite Hs, Hlive.
Qed.

(** One round of the sweep loop: the ['session:expired'] listener looks the
    session up with [getSession], which destroys it because it is expired
    and returns nothing to kill; the [destroySession] that follows finds the
    entry gone. *)
Lemma expire_step (sessionId : string) (w : World) :
  (∀ session, session_of w sessionId = Some session →
     isSessionExpired (sessionTimeout (sessionManager w)) now session = true) →
  (session_expired (Proxy.registered now) sessionId ;;
   destroySession (Proxy.registered now) sessionId) w
  = Some (destroyed sessionId w, Ok tt).
Proof.
  intros Hexp. unfold bind.
  change (session_expired (Proxy.registered now) sessionId)
    with (Proxy.kill_process_of now (Proxy.listeners now 1) sessionId).
  unfold Proxy.kill_process_of. unfold bind. unfold Proxy.registered.
  destruct (session_of w sessionId) as [session|] eqn:Hs.
  - rewrite (getSession_expired 0 sessionId w session) by auto.
    unfold ret. rewrite destroySession_listeners.
    rewrite (destroyed_absent sessionId (destroyed sessionId w)); [done|].
    unfold session_of. rewrite sessions_destroyed. apply lookup_delete_eq.
  - rewrite getSession_absent by done. unfold ret.
    rewrite destroySession_listeners. by rewrite destroyed_absent.
Qed.

Lemma expireEach_effect (ids : list string) (w : World) :
  all_expired ids w →
  expireEach (Proxy.registered now) ids w = Some (destroy_all ids w, Ok tt).
Proof.
  revert w. induction ids as [|sessionId ids IH]; intros w Hexp; [done|].
  change (expireEach (Proxy.registered now) (sessionId :: ids) w)
    with ((session_expired (Proxy.registered now) sessionId ;;
           destroySession (Proxy.registered now) sessionId ;;
           expireEach (Proxy.registered now) ids) w).
  rewrite <- bind_assoc. unfold bind at 1.
  rewrite expire_step by (intros; eapply Hexp; [by left|done]).
  simpl destroy_all. apply IH.
  intros sid session Hin Hs.
  destruct (limits_destroyed sessionId w) as [-> _].
  eapply Hexp; [by right|].
  unfold session_of in *. rewrite sessions_destroyed in Hs.
  by apply lookup_delete_Some in Hs as [_ ?].
Qed.

Lemma session_of_destroy_all (ids : list string) (w : World)
    (sessionId : string) :
  session_of (destroy_all ids w) sessionId
  = if bool_decide (sessionId ∈ ids) then None else session_of w sessionId.
Proof.
  revert w. induction ids as [|a ids IH]; intros w; [done|].
  simpl destroy_all. rewrite IH. unfold session_of.
  rewrite sessions_destroyed, lookup_delete.
  destruct (decide (a = sessionId)) as [->|Hne].
  - rewrite (bool_decide_eq_true_2 (sessionId ∈ sessionId :: ids)) by left.
    by case_bool_decide.
  - repeat case_bool_decide; try done.
    + exfalso. apply H1. by right.
    + exfalso. apply H0. by apply elem_of_cons in H1 as [->|?].
Qed.

(** Destroying sessions leaves the limits, the supervisor and the handles
    as they are. *)
Lemma destroy_all_frame (ids : list string) (w : World) :
  sessionTimeout (sessionManager (destroy_all ids w))
  = sessionTimeout (sessionManager w)
  ∧ maxSessions (sessionManager (destroy_all ids w))
    = maxSessions (sessionManager w)
  ∧ processManager (destroy_all ids w) = processManager w
  ∧ heap (destroy_all ids w) = heap w.
Proof.
  revert w. induction ids as [|a ids IH]; intros w; [done|].
  simpl destroy_all. destruct (IH (destroyed a w)) as (-> & -> & -> & ->).
  destruct (limits_destroyed a w) as [-> ->].
  by destruct (destroyed_supervisor a w) as [-> ->].
Qed.

Lemma elem_of_expired_ids (sessionId : string) (w : World) :
  sessionId ∈ expired_ids now w
  ↔ ∃ session, session_of w sessionId = Some session
               ∧ isSessionExpired (sessionTimeout (sessionManager w)) now
                                  session = true.
Proof.
  unfold expired_ids. rewrite list_elem_of_fmap. split.
  - intros ([k session] & -> & Hin). apply elem_of_map_to_list in Hin.
    apply map_lookup_filter_Some in Hin as [Hs Hexp]. by exists session.
  - intros (session & Hs & Hexp). exists (sessionId, session).
    split; [done|]. apply elem_of_map_to_list.
    by apply map_lookup_filter_Some.
Qed.

(** The world after the sweep. *)
Definition swept (w : World) : World := destroy_all (expired_ids now w) w.

Lemma cleanupExpiredSessions_run (w : World) :
  cleanupExpiredSessions now (Proxy.registered now) w = Some (swept w, Ok tt).
Proof.
  unfold cleanupExpiredSessions, bind, get_world.
  apply expireEach_effect. intros sessionId session Hin Hs.
  apply elem_of_expired_ids in Hin as (session' & Hs' & Hexp).
  by simplify_eq.
Qed.

(** The sweep removes exactly the expired sessions. *)
Lemma sessions_swept (w : World) :
  sessions (sessionManager (swept w)) = live w.
Proof.
  apply map_eq. intros sessionId.
  pose proof (session_of_destroy_all (expired_ids now w) w sessionId) as Hl.
  unfold session_of in Hl. unfold swept. rewrite Hl. unfold live.
  apply option_eq. intros session.
  rewrite map_lookup_filter_Some. simpl.
  case_bool_decide as Hin.
  - apply elem_of_expired_ids in Hin as (session' & Hs' & Hexp).
    unfold session_of in Hs'. split; [done|].
    intros [Hs Hlive]. simplify_eq. congruence.
  - split.
    + intros Hs. split; [done|].
      destruct (isSessionExpired _ now session) eqn:Hexp; [|done].
      exfalso. apply Hin. apply elem_of_expired_ids. by exists session.
    + by intros [Hs _].
Qed.

Lemma size_live (w : World) :
  (size (live w) ≤ size (sessions (sessionManager w)))%nat.
Proof. apply map_subseteq_size, map_filter_subseteq. Qed.

Lemma size_insert_le {A} (m : gmap string A) (k : string) (v : A) :
  (size (<[k := v]> m) ≤ S (size m))%nat.
Proof. rewrite map_size_insert. destruct (m !! k); simpl; lia. Qed.

(** The session that [createSession] builds in the world [w], and the world
    with that session registered. *)
Definition fresh_session (serverConfig : ServerConfig) (process : option loc)
    (w : World) : Session :=
  mkSession (randomUUID w) now now serverConfig process [] false [].

Definition register (session : Session) (w : World) : World :=
  with_sessions (<[id session := session]> (sessions (sessionManager w))) w.

Definition limit_reached (w : World) : Error :=
  Err ("Maximum session limit ("
       +:+ String_of_Z (maxSessions (sessionManager w)) +:+ ") reached").

(** The three ways through [createSession]. *)
Lemma createSession_run (serverConfig : ServerConfig) (process : option loc)
    (w : World) :
  createSession now (Proxy.registered now) serverConfig process w
  = if maxSessions (sessionManager w) <=? getSessionCount w then
      if maxSessions (sessionManager w) <=? getSessionCount (swept w) then
        Some (swept w, Throw (limit_reached w))
      else
        Some (register (fresh_session serverConfig process (swept w))
                       (swept w),
              Ok (fresh_session serverConfig process (swept w)))
    else
      Some (register (fresh_session serverConfig process w) w,
            Ok (fresh_session serverConfig process w)).
Proof.
  unfold createSession. unfold bind at 1. unfold get_world at 1.
  unfold bind at 1.
  destruct (maxSessions (sessionManager w) <=? getSessionCount w); [|done].
  unfold bind at 1. rewrite cleanupExpiredSessions_run.
  unfold bind at 1. unfold get_world at 1.
  destruct (destroy_all_frame (expired_ids now w) w) as (_ & Hmax & _).
  fold (swept w) in Hmax. unfold limit_reached. rewrite Hmax.
  by destruct (maxSessions (sessionManager w) <=? getSessionCount (swept w)).
Qed.

(** C8.  [createSession] always returns or throws, and it throws exactly
    when the sessions that are left once the expired ones are swept still
    number at least [maxSessions].  When it returns, the new session is
    registered and the registry holds at most [maxSessions] sessions; when
    it throws, the registry has not grown.  [maxSessions] is never changed,
    and it is 100 when the options do not set it. *)
Theorem createSession_throws_iff_full_after_sweep
    (serverConfig : ServerConfig) (process : option loc) (w : World) :
  ∃ w' outcome,
    createSession now (Proxy.registered now) serverConfig process w
      = Some (w', outcome)
    ∧ ((∃ e, outcome = Throw e)
       ↔ maxSessions (sessionManager w) ≤ Z.of_nat (size (live w)))
    ∧ (∀ session, outcome = Ok session →
         session_of w' (id session) = Some session
         ∧ getSessionCount w' ≤ maxSessions (sessionManager w'))
    ∧ (∀ e, outcome = Throw e → getSessionCount w' ≤ getSessionCount w)
    ∧ maxSessions (sessionManager w') = maxSessions (sessionManager w)
    ∧ maxSessions (new_SessionManager (sessionTimeout (sessionManager w)) None)
      = 100.
Proof.
  pose proof (size_live w) as Hlive.
  destruct (destroy_all_frame (expired_ids now w) w) as (_ & Hmax & _).
  fold (swept w) in Hmax.
  assert (getSessionCount (swept w) = Z.of_nat (size (live w))) as Hcount
    by (unfold getSessionCount; by rewrite sessions_swept).
  rewrite createSession_run, Hcount.
  destruct (maxSessions (sessionManager w) <=? getSessionCount w) eqn:Hfull;
    [destruct (maxSessions (sessionManager w) <=? Z.of_nat (size (live w)))
       eqn:Hstill|].
  - apply Z.leb_le in Hstill. eexists _, _. split; [reflexivity|].
    split; [split; [done | by eexists]|]. split; [done|].
    split; [|done]. intros e _. rewrite Hcount. unfold getSessionCount. lia.
  - apply Z.leb_gt in Hstill. eexists _, _. split; [reflexivity|].
    split; [split; [by intros [e ?] | lia]|].
    split; [|done].
    intros session [= <-]. split.
    + unfold session_of, register. simpl. apply lookup_insert_eq.
    + unfold getSessionCount, register. simpl. rewrite Hmax, sessions_swept.
      pose proof (size_insert_le (live w) (randomUUID (swept w))
                    (fresh_session serverConfig process (swept w))). lia.
  - apply Z.leb_gt in Hfull. eexists _, _. split; [reflexivity|].
    split.
    { split; [by intros [e ?]|]. unfold getSessionCount in Hfull. lia. }
    split; [|done].
    intros session [= <-]. split.
    + unfold session_of, register. simpl. apply lookup_insert_eq.
    + unfold getSessionCount, register in *. simpl.
      pose proof (size_insert_le (sessions (sessionManager w)) (randomUUID w)
                    (fresh_session serverConfig process w)). lia.
Qed.

End Sweep.

Section Cap.
Context `{Runtime}.

Import SessionManager.

(** The registry respects its cap. *)
Definition bounded (w : World) : Prop :=
  getSessionCount w ≤ maxSessions (sessionManager w).

(** One call of a method of the session manager, at any time. *)
Inductive registry_step : World → World → Prop :=
| step_createSession now serverConfig process w w' outcome :
    createSession now (Proxy.registered now) serverConfig process w
      = Some (w', outcome) →
    registry_step w w'
| step_destroySession now sessionId w w' outcome :
    destroySession (Proxy.registered now) sessionId w = Some (w', outcome) →
    registry_step w w'
| step_getSession now sessionId w w' outcome :
    getSession now (Proxy.registered now) sessionId w = Some (w', outcome) →
    registry_step w w'
| step_cleanupExpiredSessions now w w' outcome :
    cleanupExpiredSessions now (Proxy.registered now) w = Some (w', outcome) →
    registry_step w w'
| step_update_session sessionId f w w' outcome :
    update_session sessionId f w = Some (w', outcome) →
    registry_step w w'
| step_dequeueMessages sessionId w w' outcome :
    dequeueMessages sessionId w = Some (w', outcome) →
    registry_step w w'.

Lemma size_alter {A} (f : A → A) (k : string) (m : gmap string A) :
  size (alter f k m) = size m.
Proof. by rewrite <- !size_dom, dom_alter_L. Qed.

Lemma bounded_destroyed (sessionId : string) (w : World) :
  bounded w → bounded (destroyed sessionId w).
Proof.
  unfold bounded, getSessionCount.
  destruct (limits_destroyed sessionId w) as [_ ->].
  rewrite sessions_destroyed, map_size_delete.
  destruct (sessions (sessionManager w) !! sessionId); simpl; lia.
Qed.

Lemma bounded_update_session (sessionId : string) (f : Session → Session)
    (w : World) :
  bounded w →
  bounded (with_sessions (alter f sessionId (sessions (sessionManager w))) w).
Proof. unfold bounded, getSessionCount. simpl. by rewrite size_alter. Qed.

(** No method of the session manager takes the registry over its cap. *)
Lemma registry_step_bounded (w w' : World) :
  registry_step w w' → bounded w → bounded w'.
Proof.
  intros Hstep Hb. destruct Hstep as
    [now serverConfig process w w' outcome Hrun
    |now sessionId w w' outcome Hrun
    |now sessionId w w' outcome Hrun
    |now w w' outcome Hrun
    |sessionId f w w' outcome Hrun
    |sessionId w w' outcome Hrun].
  - rewrite createSession_run in Hrun.
    destruct (destroy_all_frame (expired_ids now w) w) as (_ & Hmax & _).
    fold (swept now w) in Hmax.
    assert (getSessionCount (swept now w) ≤ getSessionCount w) as Hswept.
    { unfold getSessionCount. rewrite sessions_swept.
      pose proof (size_live now w). lia. }
    unfold bounded in *.
    destruct (maxSessions (sessionManager w) <=? getSessionCount w) eqn:Hfull;
      [destruct (maxSessions (sessionManager w)
                 <=? getSessionCount (swept now w)) eqn:Hstill|];
      injection Hrun as <- _.
    + rewrite Hmax. lia.
    + apply Z.leb_gt in Hstill. unfold getSessionCount, register in *.
      simpl. rewrite Hmax.
      pose proof (size_insert_le (sessions (sessionManager (swept now w)))
                    (randomUUID (swept now w))
                    (fresh_session now serverConfig process (swept now w))).
      simpl in *. lia.
    + apply Z.leb_gt in Hfull. unfold getSessionCount, register in *.
      simpl.
      pose proof (size_insert_le (sessions (sessionManager w)) (randomUUID w)
                    (fresh_session now serverConfig process w)).
      simpl in *. lia.
  - unfold Proxy.registered in Hrun. rewrite destroySession_listeners in Hrun.
    injection Hrun as <- _. by apply bounded_destroyed.
  - destruct (session_of w sessionId) as [session|] eqn:Hs.
    + destruct (isSessionExpired (sessionTimeout (sessionManager w)) now
                                 session) eqn:Hexp.
      * unfold Proxy.registered in Hrun.
        rewrite (getSession_expired now 1 sessionId w session) in Hrun by done.
        injection Hrun as <- _. by apply bounded_destroyed.
      * rewrite (getSession_live now _ sessionId w session) in Hrun by done.
        injection Hrun as <- _. by apply bounded_update_session.
    + rewrite getSession_absent in Hrun by done. by injection Hrun as <- _.
  - rewrite cleanupExpiredSessions_run in Hrun. injection Hrun as <- _.
    destruct (destroy_all_frame (expired_ids now w) w) as (_ & Hmax & _).
    unfold bounded, getSessionCount in *. fold (swept now w) in Hmax |- *.
    rewrite Hmax, sessions_swept.
    pose proof (size_live now w). lia.
  - unfold update_session, modify in Hrun. injection Hrun as <- _.
    by apply bounded_update_session.
  - unfold dequeueMessages, bind, get_world in Hrun.
    destruct (session_of w sessionId).
    + unfold update_session, modify, ret in Hrun. injection Hrun as <- _.
      by apply bounded_update_session.
    + unfold ret in Hrun. by injection Hrun as <- _.
Qed.

(** X29.  The registry of a server never holds more than [maxSessions]
    sessions, however the methods of the session manager are called. *)
Lemma registry_never_exceeds_cap (config : Http.ProxyConfig) (w : World) :
  rtc registry_step (Http.new_HTTPServer config) w → bounded w.
Proof.
  intros Hsteps.
  assert (bounded (Http.new_HTTPServer config)) as Hinit.
  { unfold bounded, getSessionCount. simpl. rewrite map_size_empty. lia. }
  induction Hsteps as [|w1 w2 w3 Hstep _ IH]; [done|].
  apply IH. by apply (registry_step_bounded w1 w2).
Qed.

End Cap.

Section CapExamples.
Import Scenario.
#[local] Existing Instance echo.

(** The server of the examples with room for a single session. *)
Definition tight : World :=
  with_sessionManager
    (mkSessionManager (sessions (sessionManager w1)) 60000 1) w1.

(** With the one session alive the cap rejects a second one; once that
    session has expired, the sweep makes room. *)
Lemma createSession_throws_iff_full_after_sweep_witness :
  (∃ w' e, SessionManager.createSession 0 (Proxy.registered 0) echo_config
             None tight = Some (w', Throw e))
  ∧ (∃ w' session,
       SessionManager.createSession 100000 (Proxy.registered 100000)
         echo_config None tight = Some (w', Ok session)
       ∧ SessionManager.getSessionCount w' ≤ 1).
Proof.
  split.
  - destruct (createSession_throws_iff_full_after_sweep 0 echo_config None
                tight) as (w' & outcome & Hrun & Hiff & _).
    destruct (proj2 Hiff) as [e ->]; [vm_compute; discriminate|].
    by exists w', e.
  - destruct (createSession_throws_iff_full_after_sweep 100000 echo_config
                None tight) as (w' & outcome & Hrun & Hiff & Hok & _ & Hmax & _).
    destruct outcome as [session|e].
    + exists w', session. split; [exact Hrun|].
      destruct (Hok session eq_refl) as [_ Hle]. rewrite Hmax in Hle.
      exact Hle.
    + exfalso. assert (1 ≤ 0) as Habs; [|lia].
      apply (proj1 Hiff (ex_intro _ e eq_refl)).
Defined.

End CapExamples.

(** ** Every handler returns or throws *)

Section Totality.
Context `{Runtime}.
Variable now : Z.

(** A computation that never uses up the nesting allowance. *)
Definition total {A} (c : M A) : Prop := ∀ w, is_Some (c w).

Lemma total_ret {A} (a : A) : total (ret a).
Proof. intros w. by eexists. Qed.

Lemma total_throw {A} (e : Error) : total (@throw A e).
Proof. intros w. by eexists. Qed.

Lemma total_modify (f : World → World) : total (modify f).
Proof. intros w. by eexists. Qed.

Lemma total_get_world : total get_world.
Proof. intros w. by eexists. Qed.

Lemma total_bind {A B} (c : M A) (k : A → M B) :
  total c → (∀ a, total (k a)) → total (bind c k).
Proof.
  intros Hc Hk w. unfold bind. destruct (Hc w) as [[w1 [a|e]] ->].
  - apply Hk.
  - by eexists.
Qed.

Lemma total_try_catch {A} (c : M A) (h : Error → M A) :
  total c → (∀ e, total (h e)) → total (try_catch c h).
Proof.
  intros Hc Hh w. unfold try_catch. destruct (Hc w) as [[w1 [a|e]] ->].
  - by eexists.
  - apply Hh.
Qed.

Ltac total_step :=
  first [ apply total_bind; [|intros ?]
        | apply total_try_catch; [|intros ?]
        | apply total_ret | apply total_throw | apply total_modify
        | apply total_get_world ].

Lemma total_deref (l : loc) : total (ProcessManager.deref l).
Proof. intros w. unfold ProcessManager.deref. destruct (heap w !! l); by eexists. Qed.

Lemma total_killProcess (processId : string) :
  total (ProcessManager.killProcess processId).
Proof.
  unfold ProcessManager.killProcess. total_step; [total_step|].
  destruct (processes _ !! processId); [|total_step].
  total_step; [apply total_deref|]. unfold ProcessManager.assign.
  repeat total_step.
Qed.

Lemma total_handleProcessCrash (processId : string) :
  total (ProcessManager.handleProcessCrash processId).
Proof.
  unfold ProcessManager.handleProcessCrash. total_step; [total_step|].
  destruct (_ <=? _); [apply total_killProcess | total_step].
Qed.

Lemma total_start (l : loc) : total (ProcessManager.start l).
Proof.
  unfold ProcessManager.start. total_step; [apply total_deref|].
  destruct (ProcessManager.isRunning a); [total_step|].
  total_step; [total_step|]. unfold ProcessManager.assign.
  total_step; [total_step|].
  destruct (start_outcome _ _) as [|e|exitCode]; [total_step| |].
  - total_step; [total_step|].
    total_step; [apply total_handleProcessCrash | total_step].
  - case_bool_decide.
    + total_step; total_step.
    + total_step; [total_step|].
      total_step; [apply total_handleProcessCrash | total_step].
Qed.

Lemma total_spawnProcess (processId : string) (serverConfig : ServerConfig) :
  total (ProcessManager.spawnProcess processId serverConfig).
Proof.
  unfold ProcessManager.spawnProcess. total_step; [total_step|].
  destruct (processes _ !! processId); [total_step|].
  total_step; [intros w; by eexists|].
  total_step; [apply total_start|]. repeat total_step.
Qed.

Lemma total_destroySession (sessionId : string) :
  total (SessionManager.destroySession (Proxy.registered now) sessionId).
Proof.
  intros w. unfold Proxy.registered. rewrite destroySession_listeners.
  by eexists.
Qed.

Lemma total_getSession (sessionId : string) :
  total (SessionManager.getSession now (Proxy.registered now) sessionId).
Proof.
  intros w. destruct (session_of w sessionId) as [session|] eqn:Hs.
  - destruct (SessionManager.isSessionExpired
                (sessionTimeout (sessionManager w)) now session) eqn:Hexp.
    + unfold Proxy.registered.
      rewrite (getSession_expired now 1 sessionId w session) by done.
      by eexists.
    + rewrite (getSession_live now _ sessionId w session) by done.
      by eexists.
  - rewrite getSession_absent by done. by eexists.
Qed.

Lemma total_createSession (serverConfig : ServerConfig)
    (process : option loc) :
  total (SessionManager.createSession now (Proxy.registered now) serverConfig
                                      process).
Proof.
  intros w. rewrite createSession_run. repeat case_match; by eexists.
Qed.

Lemma total_createSessionWithProcess (serverConfig : ServerConfig) :
  total (Proxy.createSessionWithProcess now serverConfig).
Proof.
  unfold Proxy.createSessionWithProcess.
  total_step; [apply total_createSession|].
  total_step.
  - total_step; [apply total_spawnProcess|].
    unfold SessionManager.attachProcess, SessionManager.update_session.
    repeat total_step.
  - total_step; [apply total_destroySession | total_step].
Qed.

Lemma total_handleRequest_try (sessionId : option string)
    (message : JSONRPCMessage) (serverEndpoint : string) :
  total (Proxy.handleRequest_try now sessionId message serverEndpoint).
Proof.
  unfold Proxy.handleRequest_try. total_step.
  - destruct (Transport.isInitializeRequest message).
    + total_step; [total_step|].
      destruct (serverConfigs _ !! serverEndpoint); [|total_step].
      total_step; [apply total_createSessionWithProcess | total_step].
    + destruct (Transport.truthy_string sessionId); [|total_step].
      total_step; [apply total_getSession|].
      destruct a; total_step.
  - destruct a as [session sessionId'].
    destruct (stdioProcess session); [|total_step].
    total_step; [apply total_deref|].
    destruct (ProcessManager.sendToStdin _ _); [|total_step].
    unfold ProcessManager.assign. total_step; [total_step|].
    destruct (Transport.requiresResponse message); [|total_step].
    total_step; [|total_step].
    intros w. destruct (await_response _ _ _). by eexists.
Qed.

Lemma total_handleRequest (sessionId : option string)
    (message : JSONRPCMessage) (serverEndpoint : string) :
  total (Proxy.handleRequest now sessionId message serverEndpoint).
Proof.
  unfold Proxy.handleRequest. total_step.
  - apply total_handleRequest_try.
  - destruct (message_id message); total_step.
Qed.

End Totality.

(** ** Batches *)

Section Batch.
Context `{Runtime}.
Variable now : Z.

(** The result of [handleRequest] that a caller sees who survives a throw:
    the response, or nothing. *)
Definition entry_result (outcome : Outcome (option JSONRPCMessage))
  : option JSONRPCMessage :=
  match outcome with
  | Ok response => response
  | Throw _ => None
  end.

(** The entries of a batch handled one after the other, each in the world
    its predecessor left: the per-entry results in input order, and the
    final world. *)
Fixpoint entries (sessionId : option string) (messages : list JSONRPCMessage)
    (serverEndpoint : string) (w : World)
  : list (option JSONRPCMessage) * World :=
  match messages with
  | [] => ([], w)
  | message :: rest =>
      match Proxy.handleRequest now sessionId message serverEndpoint w with
      | Some (w1, outcome) =>
          let '(results, w') := entries sessionId rest serverEndpoint w1 in
          (entry_result outcome :: results, w')
      | None => ([], w)
      end
  end.

(** The non-null results, in order. *)
Definition non_null (results : list (option JSONRPCMessage))
  : list JSONRPCMessage := omap (λ r, r) results.

(** [handleRequest] turns an error on a message with an id into the error
    response for that id, and rethrows only for a message without one. *)
Lemma handleRequest_error (sessionId : option string)
    (message : JSONRPCMessage) (serverEndpoint : string) (w w1 : World)
    (e : Error) :
  Proxy.handleRequest_try now sessionId message serverEndpoint w
    = Some (w1, Throw e) →
  Proxy.handleRequest now sessionId message serverEndpoint w
  = Some (w1, match message_id message with
              | Some i => Ok (Some (Proxy.internal_error_response i e))
              | None => Throw e
              end).
Proof.
  intros Htry. unfold Proxy.handleRequest, try_catch. rewrite Htry.
  by destruct (message_id message).
Qed.

Lemma handleRequest_throws_without_id (sessionId : option string)
    (message : JSONRPCMessage) (serverEndpoint : string) (w w1 : World)
    (e : Error) :
  Proxy.handleRequest now sessionId message serverEndpoint w
    = Some (w1, Throw e) →
  message_id message = None.
Proof.
  unfold Proxy.handleRequest, try_catch.
  destruct (Proxy.handleRequest_try _ _ _ _ w) as [[w2 [r|e2]]|]; [done| |done].
  by destruct (message_id message).
Qed.

(** The loop with its accumulator appends the non-null results of the
    remaining entries to the responses collected so far. *)
Lemma handleBatch_loop_entries (sessionId : option string)
    (messages : list JSONRPCMessage) (serverEndpoint : string)
    (responses : list JSONRPCMessage) (w : World) :
  Proxy.handleBatch_loop now sessionId messages serverEndpoint responses w
  = Some ((entries sessionId messages serverEndpoint w).2,
          Ok (responses
              ++ non_null (entries sessionId messages serverEndpoint w).1)).
Proof.
  revert responses w. induction messages as [|message rest IH];
    intros responses w.
  - simpl. unfold ret, non_null. simpl. by rewrite app_nil_r.
  - simpl. unfold bind at 1. unfold try_catch. unfold bind at 1.
    destruct (total_handleRequest now sessionId message serverEndpoint w)
      as [[w1 outcome] Hrun].
    rewrite Hrun.
    destruct (entries sessionId rest serverEndpoint w1) as [results w'] eqn:Hr.
    destruct outcome as [[r|]|e].
    + unfold ret at 1. rewrite IH, Hr. simpl. by rewrite <- app_assoc.
    + unfold ret at 1. by rewrite IH, Hr.
    + rewrite (handleRequest_throws_without_id _ _ _ _ _ _ Hrun).
      unfold ret at 1. by rewrite IH, Hr.
Qed.

Lemma length_entries (sessionId : option string)
    (messages : list JSONRPCMessage) (serverEndpoint : string) (w : World) :
  length (entries sessionId messages serverEndpoint w).1 = length messages.
Proof.
  revert w. induction messages as [|message rest IH]; intros w; [done|].
  simpl.
  destruct (total_handleRequest now sessionId message serverEndpoint w)
    as [[w1 outcome] ->].
  specialize (IH w1).
  destruct (entries sessionId rest serverEndpoint w1). simpl in *.
  by rewrite IH.
Qed.

(** Handling a batch in two parts: the second part starts in the world the
    first part left. *)
Lemma entries_app (sessionId : option string)
    (prefix suffix : list JSONRPCMessage) (serverEndpoint : string)
    (w : World) :
  entries sessionId (prefix ++ suffix) serverEndpoint w
  = ((entries sessionId prefix serverEndpoint w).1
     ++ (entries sessionId suffix serverEndpoint
                 (entries sessionId prefix serverEndpoint w).2).1,
     (entries sessionId suffix serverEndpoint
              (entries sessionId prefix serverEndpoint w).2).2).
Proof.
  revert w. induction prefix as [|message prefix IH]; intros w.
  - simpl. by destruct (entries sessionId suffix serverEndpoint w).
  - simpl.
    destruct (total_handleRequest now sessionId message serverEndpoint w)
      as [[w1 outcome] ->].
    rewrite IH.
    by destruct (entries sessionId prefix serverEndpoint w1).
Qed.

(** C7.  [handleBatch] handles every entry of the batch, in input order and
    each in the world its predecessor left, and returns the non-null
    results of the entries in that order.  An entry with an id [i] whose
    handling fails with the error [e], at whatever position, contributes
    the JSON-RPC error response for it: the response with [id: i], no
    result, and the error of code [-32603], message "Internal error" and
    data [String(e)]; the entries after it are handled all the same. *)
Theorem handleBatch_collects_results_in_order (sessionId : option string)
    (messages : list JSONRPCMessage) (serverEndpoint : string) (w : World) :
  Proxy.handleBatch now sessionId messages serverEndpoint w
  = Some ((entries sessionId messages serverEndpoint w).2,
          Ok (non_null (entries sessionId messages serverEndpoint w).1))
  ∧ length (entries sessionId messages serverEndpoint w).1 = length messages
  ∧ ∀ prefix message rest w1 e i,
      messages = prefix ++ message :: rest →
      Proxy.handleRequest_try now sessionId message serverEndpoint
        (entries sessionId prefix serverEndpoint w).2
        = Some (w1, Throw e) →
      message_id message = Some i →
      (entries sessionId messages serverEndpoint w).1
      = (entries sessionId prefix serverEndpoint w).1
        ++ Some (Response
                   (mkResponse i None
                      (Some (mkError (-32603) "Internal error"
                               (Some (JStr (String_of_error e)))))))
        :: (entries sessionId rest serverEndpoint w1).1.
Proof.
  split; [|split].
  - unfold Proxy.handleBatch. by rewrite handleBatch_loop_entries.
  - apply length_entries.
  - intros prefix message rest w1 e i -> Htry Hid.
    rewrite entries_app. simpl. f_equal.
    rewrite (handleRequest_error _ _ _ _ _ _ Htry), Hid.
    by destruct (entries sessionId rest serverEndpoint w1).
Qed.

End Batch.

Section BatchExamples.
Import Scenario.
#[local] Existing Instance echo.

(** A call that lacks its session, an [initialize], and the notification
    that follows it. *)
Definition orphan_call : JSONRPCMessage :=
  Request (mkRequest (Some (IdString "t1")) "tools/list" None).

Definition first_initialize : JSONRPCMessage :=
  Request (mkRequest (Some (IdString "b1")) "initialize" None).

Definition initialized_notification : JSONRPCMessage :=
  Notification (mkNotification "notifications/initialized" None).

Definition example_batch : list JSONRPCMessage :=
  [first_initialize; orphan_call; initialized_notification].

Definition orphan_error : Error :=
  Err "Session ID required for non-initialize requests".

(** The [initialize] is answered; the call after it fails (the batch came
    without a session id) and is answered under its id [t1] with the error
    of code [-32603]; the notification after that is still handled and
    contributes nothing. *)
Lemma handleBatch_collects_results_in_order_witness :
  (∃ w1, Proxy.handleRequest_try 0 None orphan_call "/echo"
           (entries 0 None [first_initialize] "/echo" w0).2
         = Some (w1, Throw orphan_error))
  ∧ message_id orphan_call = Some (IdString "t1")
  ∧ result (Proxy.handleBatch 0 None example_batch "/echo") w0
    = Some [Response (mkResponse (IdString "b1") (Some echo_result) None);
            Response
              (mkResponse (IdString "t1") None
                 (Some (mkError (-32603) "Internal error"
                          (Some (JStr "Error: Session ID required for non-initialize requests")))))].
Proof.
  destruct (handleBatch_collects_results_in_order 0 None example_batch "/echo"
              w0) as (Hrun & Hlength & Herror).
  assert (∃ w1, Proxy.handleRequest_try 0 None orphan_call "/echo"
                  (entries 0 None [first_initialize] "/echo" w0).2
                = Some (w1, Throw orphan_error)) as [w1 Htry]
    by (eexists; vm_compute; reflexivity).
  split; [by exists w1|]. split; [reflexivity|].
  unfold result. rewrite Hrun.
  rewrite (Herror [first_initialize] orphan_call [initialized_notification]
             w1 orphan_error (IdString "t1") eq_refl Htry eq_refl).
  vm_compute. reflexivity.
Defined.

End BatchExamples.

(** ** Shutdown, the one path that does reach the supervisor *)

Section Shutdown.
Context `{Runtime}.
Variable now : Z.

Import ProcessManager.

(** Every registered handle id names an object of the store. *)
Definition handles_allocated (w : World) : Prop :=
  ∀ processId l, processes (processManager w) !! processId = Some l →
    is_Some (heap w !! l).

Lemma kill_stops (signal : string) (p : ManagedProcess) :
  isRunning (kill signal p) = false.
Proof.
  unfold isRunning, kill. destruct (process p) as [child|] eqn:Hp.
  - destruct (Status_eqb (status p) running) eqn:Hs; simpl; [done|].
    by rewrite Hs.
  - rewrite Hp. by rewrite andb_false_r.
Qed.

Lemma kill_stopped (signal : string) (p : ManagedProcess) :
  isRunning p = false → kill signal p = p.
Proof.
  unfold isRunning, kill. destruct (process p); [|done].
  by destruct (Status_eqb (status p) running).
Qed.

(** The world after [killProcess] on a registered handle. *)
Definition killed (processId : string) (l : loc) (p : ManagedProcess)
    (w : World) : World :=
  set_restartAttempts
    (delete processId (restartAttempts (processManager w)))
    (set_processes (delete processId (processes (processManager w)))
       (with_heap (<[l := kill "SIGTERM" p]> (heap w)) w)).

Lemma killProcess_run (processId : string) (l : loc) (p : ManagedProcess)
    (w : World) :
  processes (processManager w) !! processId = Some l →
  heap w !! l = Some p →
  killProcess processId w = Some (killed processId l p w, Ok tt).
Proof.
  intros Hl Hp. unfold killProcess, bind, get_world. rewrite Hl.
  unfold deref. by rewrite Hp.
Qed.

Lemma killProcess_unknown (processId : string) (w : World) :
  processes (processManager w) !! processId = None →
  killProcess processId w = Some (w, Ok tt).
Proof. intros Hl. unfold killProcess, bind, get_world. by rewrite Hl. Qed.

(** What a round of kills leaves: the killed ids are gone from the map, and
    a handle that still runs was running before and belongs to none of the
    killed ids. *)
Definition kills (ids : list string) (w w' : World) : Prop :=
  sessionManager w' = sessionManager w
  ∧ (∀ k, processes (processManager w') !! k
          = if bool_decide (k ∈ ids) then None
            else processes (processManager w) !! k)
  ∧ (∀ l, is_Some (heap w !! l) → is_Some (heap w' !! l))
  ∧ (∀ l p', heap w' !! l = Some p' → isRunning p' = true →
       heap w !! l = Some p'
       ∧ ∀ k, k ∈ ids → processes (processManager w) !! k ≠ Some l).

Lemma killEach_kills (ids : list string) (w : World) :
  handles_allocated w →
  ∃ w', killEach ids w = Some (w', Ok tt) ∧ kills ids w w'.
Proof.
  revert w. induction ids as [|processId ids IH]; intros w Hwf.
  - exists w. split; [done|]. repeat split; try done.
    intros k Hk. by inversion Hk.
  - simpl killEach. unfold bind.
    destruct (processes (processManager w) !! processId) as [l|] eqn:Hl.
    + destruct (Hwf processId l Hl) as [p Hp].
      rewrite (killProcess_run processId l p w Hl Hp).
      destruct (IH (killed processId l p w))
        as (w' & Hrun & Hsm & Hmap & Hheap & Hlive).
      { intros k l' Hk. simpl in Hk. apply lookup_delete_Some in Hk as [_ Hk].
        simpl. destruct (decide (l = l')) as [<-|Hne].
        - rewrite lookup_insert_eq. by eexists.
        - rewrite lookup_insert_ne by done. by eapply Hwf. }
      exists w'. split; [exact Hrun|]. split; [by rewrite Hsm|]. split.
      { intros k. rewrite Hmap. simpl. rewrite lookup_delete.
        destruct (decide (processId = k)) as [->|Hne].
        - rewrite (bool_decide_eq_true_2 (k ∈ k :: ids)) by left.
          by case_bool_decide.
        - repeat case_bool_decide; try done.
          + exfalso. apply H1. by right.
          + exfalso. apply H0. by apply elem_of_cons in H1 as [->|?]. }
      split.
      { intros l' Hsome. apply Hheap. simpl.
        destruct (decide (l = l')) as [<-|Hne].
        - rewrite lookup_insert_eq. by eexists.
        - by rewrite lookup_insert_ne. }
      intros l' p' Hp' Hrunning.
      destruct (Hlive l' p' Hp' Hrunning) as [Hbefore Hfree].
      simpl in Hbefore. destruct (decide (l = l')) as [<-|Hne].
      * rewrite lookup_insert_eq in Hbefore. injection Hbefore as <-.
        by rewrite kill_stops in Hrunning.
      * rewrite lookup_insert_ne in Hbefore by done. split; [done|].
        intros k [->|Hk]%elem_of_cons.
        -- rewrite Hl. by intros [= ->].
        -- specialize (Hfree k Hk). simpl in Hfree.
           intros Hkl. apply Hfree. rewrite lookup_delete_ne; [done|].
           intros ->. rewrite Hl in Hkl. by injection Hkl.
    + rewrite (killProcess_unknown processId w Hl).
      destruct (IH w Hwf) as (w' & Hrun & Hsm & Hmap & Hheap & Hlive).
      exists w'. split; [exact Hrun|]. split; [done|]. split.
      { intros k. rewrite Hmap.
        destruct (decide (processId = k)) as [->|Hne].
        - rewrite (bool_decide_eq_true_2 (k ∈ k :: ids)) by left.
          by case_bool_decide.
        - repeat case_bool_decide; try done.
          + exfalso. apply H1. by right.
          + exfalso. apply H0. by apply elem_of_cons in H1 as [->|?]. }
      split; [done|].
      intros l' p' Hp' Hrunning.
      destruct (Hlive l' p' Hp' Hrunning) as [Hbefore Hfree].
      split; [done|]. intros k [->|Hk]%elem_of_cons; [by rewrite Hl|].
      by apply Hfree.
Qed.

(** [killAllProcesses] empties the supervisor's map and stops every handle
    that was registered. *)
Lemma killAllProcesses_effect (w : World) :
  handles_allocated w →
  ∃ w',
    killAllProcesses w = Some (w', Ok tt)
    ∧ sessionManager w' = sessionManager w
    ∧ processes (processManager w') = ∅
    ∧ ∀ processId l, processes (processManager w) !! processId = Some l →
        ∃ p', heap w' !! l = Some p' ∧ isRunning p' = false.
Proof.
  intros Hwf. unfold killAllProcesses, bind, get_world.
  destruct (killEach_kills (map_to_list (processes (processManager w))).*1 w
              Hwf) as (w' & Hrun & Hsm & Hmap & Hheap & Hlive).
  assert (∀ k l, processes (processManager w) !! k = Some l →
            k ∈ (map_to_list (processes (processManager w))).*1) as Hkeys.
  { intros k l Hk. apply list_elem_of_fmap. exists (k, l).
    split; [done|]. by apply elem_of_map_to_list. }
  exists w'. split; [exact Hrun|]. split; [done|]. split.
  - apply map_eq. intros k. rewrite Hmap, lookup_empty.
    case_bool_decide as Hin; [done|].
    destruct (processes (processManager w) !! k) as [l|] eqn:Hk; [|done].
    exfalso. apply Hin. by eapply Hkeys.
  - intros processId l Hl. destruct (Hheap l (Hwf processId l Hl)) as [p' Hp'].
    exists p'. split; [done|].
    destruct (isRunning p') eqn:Hrunning; [|done].
    destruct (Hlive l p' Hp' Hrunning) as [_ Hfree].
    exfalso. eapply Hfree; [by eapply Hkeys | done].
Qed.

Lemma destroyEach_run (ids : list string) (w : World) :
  SessionManager.destroyEach (Proxy.registered now) ids w
  = Some (destroy_all ids w, Ok tt).
Proof.
  revert w. induction ids as [|sessionId ids IH]; intros w; [done|].
  simpl SessionManager.destroyEach. unfold bind. unfold Proxy.registered.
  rewrite destroySession_listeners. apply IH.
Qed.

(** X27.  [shutdown()] destroys every session and then, through
    [killAllProcesses], kills and unregisters every handle: the registry
    and the supervisor's map are empty afterwards, and every handle that
    was registered has stopped. *)
Lemma shutdown_effect (w : World) :
  isShuttingDown w = false →
  handles_allocated w →
  ∃ w',
    Proxy.shutdown now w = Some (w', Ok tt)
    ∧ sessions (sessionManager w') = ∅
    ∧ processes (processManager w') = ∅
    ∧ ∀ processId l, processes (processManager w) !! processId = Some l →
        ∃ p', heap w' !! l = Some p' ∧ isRunning p' = false.
Proof.
  intros Hflag Hwf. unfold Proxy.shutdown. unfold bind at 1.
  unfold get_world at 1. rewrite Hflag. unfold bind at 1. unfold modify at 1.
  unfold bind at 1. unfold SessionManager.shutdown. unfold bind at 1.
  unfold get_world at 1. rewrite destroyEach_run.
  set (ids := (map_to_list _).*1).
  set (ws := destroy_all ids (with_isShuttingDown true w)).
  destruct (destroy_all_frame ids (with_isShuttingDown true w))
    as (_ & _ & Hpm & Hheap).
  fold ws in Hpm, Hheap. simpl in Hpm, Hheap.
  destruct (killAllProcesses_effect ws) as (w' & Hrun & Hsm & Hnone & Hdead).
  { intros processId l Hl. rewrite Hpm in Hl. rewrite Hheap.
    by eapply Hwf. }
  exists w'. split; [exact Hrun|]. split.
  - rewrite Hsm. apply map_eq. intros sessionId.
    pose proof (session_of_destroy_all ids (with_isShuttingDown true w)
                  sessionId) as Hl.
    unfold session_of in Hl. fold ws in Hl. rewrite Hl, lookup_empty.
    case_bool_decide as Hin; [done|]. simpl.
    destruct (sessions (sessionManager w) !! sessionId) as [session|] eqn:Hs;
      [|done].
    exfalso. apply Hin. subst ids. apply list_elem_of_fmap.
    exists (sessionId, session). split; [done|].
    by apply elem_of_map_to_list.
  - split; [done|]. intros processId l Hl. apply (Hdead processId).
    by rewrite Hpm.
Qed.

End Shutdown.

(** ** The expiry paths *)

Section Expiry.
Context `{Runtime}.
Variable now : Z.

(** X28.  The periodic sweep destroys the expired sessions, and only
    them, and leaves the supervisor and every handle as they were: the
    ['session:expired'] listener gets nothing back from [getSession]. *)
Lemma sweep_kills_nothing (w : World) :
  ∃ w',
    SessionManager.cleanupExpiredSessions now (Proxy.registered now) w
      = Some (w', Ok tt)
    ∧ sessions (sessionManager w') = live now w
    ∧ processManager w' = processManager w
    ∧ heap w' = heap w.
Proof.
  exists (swept now w). split; [apply cleanupExpiredSessions_run|].
  split; [apply sessions_swept|].
  by destruct (destroy_all_frame (SessionManager.expired_ids now w) w)
    as (_ & _ & ? & ?).
Qed.

(** The lazy eviction in [getSession] does the same. *)
Lemma eviction_kills_nothing (sessionId : string) (w : World)
    (session : Session) :
  session_of w sessionId = Some session →
  SessionManager.isSessionExpired (sessionTimeout (sessionManager w)) now
                                  session = true →
  ∃ w',
    SessionManager.getSession now (Proxy.registered now) sessionId w
      = Some (w', Ok None)
    ∧ session_of w' sessionId = None
    ∧ processManager w' = processManager w
    ∧ heap w' = heap w.
Proof.
  intros Hs Hexp. exists (destroyed sessionId w). unfold Proxy.registered.
  rewrite (getSession_expired now 1 sessionId w session) by done.
  split; [done|].
  destruct (destroyed_closes sessionId w session Hs) as [Hgone _].
  by destruct (destroyed_supervisor sessionId w) as [? ?].
Qed.

End Expiry.

(** ** Handles keep their stdin pipe *)

Section Pipes.
Context `{Runtime}.

Import ProcessManager.

Lemma piped_new (processId : string) (serverConfig : ServerConfig) :
  piped (new_ManagedProcess processId serverConfig).
Proof. intros child Hc. discriminate Hc. Qed.

Lemma piped_kill (signal : string) (p : ManagedProcess) :
  piped p → piped (kill signal p).
Proof.
  intros Hp child. unfold kill.
  destruct (process p) as [c|] eqn:Hc; [|by rewrite Hc].
  destruct (Status_eqb (status p) running); simpl.
  - intros [= <-]. simpl. by apply Hp.
  - rewrite Hc. intros [= <-]. by apply Hp.
Qed.

Lemma piped_sendToStdin (data : string) (p p' : ManagedProcess) :
  sendToStdin data p = Ok p' → piped p'.
Proof.
  unfold sendToStdin. destruct (process p) as [c|]; [|done].
  destruct (negb _); [done|]. destruct (stdin c); [|done].
  intros [= <-] child [= <-]. by eexists.
Qed.

(** The crash handler changes a handle only by killing it. *)
Lemma handleProcessCrash_heap (processId : string) (w w' : World)
    (outcome : Outcome unit) (l : loc) (q : ManagedProcess) :
  handleProcessCrash processId w = Some (w', outcome) →
  heap w !! l = Some q →
  heap w' !! l = Some q ∨ heap w' !! l = Some (kill "SIGTERM" q).
Proof.
  intros Hrun Hq. unfold handleProcessCrash, bind, get_world in Hrun.
  destruct (_ <=? _).
  - unfold killProcess, bind, get_world in Hrun.
    destruct (processes (processManager w) !! processId) as [l'|].
    + unfold deref in Hrun. destruct (heap w !! l') as [q'|] eqn:Hq'.
      * unfold assign, modify in Hrun. injection Hrun as <- _. simpl.
        destruct (decide (l' = l)) as [->|Hne].
        -- rewrite lookup_insert_eq. right. by simplify_eq.
        -- rewrite lookup_insert_ne by done. by left.
      * injection Hrun as <- _. by left.
    + injection Hrun as <- _. by left.
  - unfold modify in Hrun. injection Hrun as <- _. by left.
Qed.

(** X30.  [start] spawns the child with piped stdio: whatever becomes of
    the child, the handle that [start] leaves has its stdin piped. *)
Lemma piped_start (l : loc) (w w' : World) (outcome : Outcome unit)
    (p : ManagedProcess) :
  (∀ q, heap w !! l = Some q → piped q) →
  start l w = Some (w', outcome) →
  heap w' !! l = Some p →
  piped p.
Proof.
  intros Hq. unfold start. unfold bind at 1. unfold deref.
  destruct (heap w !! l) as [q|] eqn:Hl.
  2:{ intros [= <- _] Hp. by rewrite Hl in Hp. }
  destruct (isRunning q).
  { intros [= <- _] Hp. apply Hq. by rewrite <- Hp. }
  unfold bind at 1. unfold get_world at 1. unfold bind at 1.
  unfold assign at 1. unfold modify at 1.
  set (p1 := set_status running _).
  assert (∀ st, piped (set_status st p1)) as Hp1.
  { intros st child [= <-]. by eexists. }
  set (w1 := with_heap _ w).
  assert (∀ st v o,
            handleProcessCrash (mp_id q)
              (with_heap (<[l := set_status st p1]> (heap w1)) w1)
              = Some (v, o) →
            heap v !! l = Some p → piped p) as Hcrash.
  { intros st v o Hrun Hp.
    destruct (handleProcessCrash_heap _ _ _ _ l (set_status st p1) Hrun)
      as [Hsame|Hkilled].
    - simpl. apply lookup_insert_eq.
    - rewrite Hsame in Hp. injection Hp as <-. apply Hp1.
    - rewrite Hkilled in Hp. injection Hp as <-. apply piped_kill, Hp1. }
  destruct (start_outcome (mp_config q) w) as [|e|exitCode].
  - intros [= <- _]. subst w1. simpl. rewrite lookup_insert_eq.
    intros [= <-]. apply (Hp1 running).
  - unfold bind at 1. unfold assign at 1. unfold modify at 1.
    unfold bind at 1.
    destruct (handleProcessCrash _ _) as [[v [[]|e']]|] eqn:Hrun; [| |done].
    + intros [= <- _]. by eapply Hcrash.
    + intros [= <- _]. by eapply Hcrash.
  - case_bool_decide.
    + unfold bind, assign, modify, throw. intros [= <- _]. simpl.
      rewrite lookup_insert_eq. intros [= <-]. apply (Hp1 stopped).
    + unfold bind at 1. unfold assign at 1. unfold modify at 1.
      unfold bind at 1.
      destruct (handleProcessCrash _ _) as [[v [[]|e']]|] eqn:Hrun; [| |done].
      * intros [= <- _]. by eapply Hcrash.
      * intros [= <- _]. by eapply Hcrash.
Qed.

End Pipes.

(** ** The line buffers of a handle *)

Section Lines.
Import Text.

(** The character occurs in the string. *)
Fixpoint mentions (c : ascii) (s : string) : bool :=
  match s with
  | EmptyString => false
  | String a rest => Ascii.eqb a c || mentions c rest
  end.

(** Every character of the string is white space. *)
Fixpoint blank (s : string) : bool :=
  match s with
  | EmptyString => true
  | String c rest => isWhiteSpace c && blank rest
  end.

(** The text made of the given lines, each closed by [sep], and a rest. *)
Fixpoint unlines (sep : ascii) (lines : list string) (rest : string)
  : string :=
  match lines with
  | [] => rest
  | line :: more => line +:+ String sep (unlines sep more rest)
  end.

Lemma split_nonempty (sep : ascii) (s : string) : split sep s ≠ [].
Proof.
  destruct s as [|c s]; simpl; [done|].
  destruct (Ascii.eqb c sep); [done|]. by destruct (split sep s).
Qed.

Lemma split_none (sep : ascii) (s : string) :
  mentions sep s = false → split sep s = [s].
Proof.
  induction s as [|c s IH]; simpl; [done|].
  intros [Hc Hs]%orb_false_iff. rewrite Hc, (IH Hs). done.
Qed.

Lemma split_pieces (sep : ascii) (s : string) :
  Forall (λ piece, mentions sep piece = false) (split sep s).
Proof.
  induction s as [|c s IH]; simpl.
  - by constructor.
  - destruct (Ascii.eqb c sep) eqn:Hc.
    + by constructor.
    + destruct (split sep s) as [|first more].
      * constructor; [|done]. simpl. by rewrite Hc.
      * inversion IH; subst. constructor; [|done]. simpl. by rewrite Hc.
Qed.

Lemma split_app (sep : ascii) (a b : string) :
  split sep (a +:+ b)
  = removelast (split sep a)
    ++ (default "" (last (split sep a)) +:+ default "" (head (split sep b)))
       :: tail (split sep b).
Proof.
  induction a as [|c a IH].
  - change ("" +:+ b) with b. simpl.
    pose proof (split_nonempty sep b). by destruct (split sep b).
  - rewrite append_cons. cbn [split].
    destruct (Ascii.eqb c sep).
    + rewrite IH. pose proof (split_nonempty sep a).
      destruct (split sep a) as [|x xs] eqn:Hx; [done|].
      change (removelast ("" :: x :: xs)) with ("" :: removelast (x :: xs)).
      done.
    + rewrite IH. pose proof (split_nonempty sep a).
      destruct (split sep a) as [|x xs] eqn:Hx; [done|].
      destruct xs as [|y ys]; [done|].
      change (removelast (String c x :: y :: ys))
        with (String c x :: removelast (y :: ys)).
      change (removelast (x :: y :: ys)) with (x :: removelast (y :: ys)).
      done.
Qed.

Lemma unlines_split (sep : ascii) (s : string) :
  unlines sep (removelast (split sep s)) (default "" (last (split sep s)))
  = s.
Proof.
  induction s as [|c s IH]; [done|]. cbn [split].
  pose proof (split_nonempty sep s) as Hne.
  destruct (Ascii.eqb c sep) eqn:Hc.
  - apply Ascii.eqb_eq in Hc as ->.
    destruct (split sep s) as [|x xs] eqn:Hx; [done|].
    change (removelast ("" :: x :: xs)) with ("" :: removelast (x :: xs)).
    rewrite last_cons_cons. cbn [unlines].
    change ("" +:+ String sep ?t) with (String sep t). by rewrite IH.
  - destruct (split sep s) as [|x xs] eqn:Hx; [done|].
    destruct xs as [|y ys].
    + simpl in *. by rewrite IH.
    + change (removelast (String c x :: y :: ys))
        with (String c x :: removelast (y :: ys)).
      change (removelast (x :: y :: ys)) with (x :: removelast (y :: ys))
        in IH.
      rewrite last_cons_cons. rewrite last_cons_cons in IH.
      cbn [unlines] in *. rewrite append_cons. by rewrite IH.
Qed.

Lemma Forall_removelast {A} (P : A → Prop) (l : list A) :
  Forall P l → Forall P (removelast l).
Proof.
  induction 1 as [|x l Hx Hl IH]; [constructor|].
  destruct l; [constructor|]. by constructor.
Qed.

Lemma Forall_last_default {A} (P : A → Prop) (l : list A) (d : A) :
  Forall P l → P d → P (default d (last l)).
Proof.
  intros Hl Hd. destruct (last l) as [x|] eqn:Hx; [|done].
  apply last_Some in Hx as [l' ->]. simpl.
  by apply Forall_app in Hl as [_ [Hx _]%Forall_cons].
Qed.

(** [trim] leaves nothing exactly of the strings that are all white. *)
Lemma trimEnd_keeps (c : ascii) (s : string) :
  isWhiteSpace c = false → trimEnd (String c s) ≠ "".
Proof. intros Hc. simpl. rewrite Hc. by destruct (trimEnd s). Qed.

Lemma trim_blank (s : string) :
  Transport.nonempty (trim s) = negb (blank s).
Proof.
  unfold trim. induction s as [|c s IH]; [done|]. cbn [trimStart blank].
  destruct (isWhiteSpace c) eqn:Hc; [exact IH|].
  pose proof (trimEnd_keeps c s Hc) as Hne.
  unfold Transport.nonempty. by destruct (trimEnd (String c s)).
Qed.

Lemma onData_unfold (buffer text : string) :
  ProcessManager.onData buffer text
  = (default "" (last (split newline (buffer +:+ text))),
     List.filter (λ line, Transport.nonempty (trim line))
                 (removelast (split newline (buffer +:+ text)))).
Proof. reflexivity. Qed.

(** X1.  The ['data'] handler of a handle frames the stream at the line
    feeds.  The text seen so far, the old buffer followed by the chunk, is
    exactly the complete lines, each closed by a line feed, followed by
    the new buffer; neither a complete line nor the new buffer holds a
    line feed; and the lines emitted are, in order, the complete lines
    that are not blank. *)
Theorem onData_frames (buffer text : string) :
  ∃ complete,
    (ProcessManager.onData buffer text).2
      = List.filter (λ line, negb (blank line)) complete
    ∧ Forall (λ line, mentions newline line = false) complete
    ∧ mentions newline (ProcessManager.onData buffer text).1 = false
    ∧ unlines newline complete (ProcessManager.onData buffer text).1
      = buffer +:+ text.
Proof.
  rewrite onData_unfold. cbn [fst snd].
  exists (removelast (split newline (buffer +:+ text))).
  pose proof (split_pieces newline (buffer +:+ text)) as Hpieces.
  split; [apply filter_ext, trim_blank|].
  split; [by apply Forall_removelast|].
  split; [by apply (Forall_last_default (λ s, mentions newline s = false))|].
  apply unlines_split.
Qed.

(** A chunk handled in two parts leaves the same buffer and emits the
    same lines. *)
Lemma onData_chunking (buffer a b : string) :
  ProcessManager.onData buffer (a +:+ b)
  = let '(buffer1, lines1) := ProcessManager.onData buffer a in
    let '(buffer2, lines2) := ProcessManager.onData buffer1 b in
    (buffer2, lines1 ++ lines2).
Proof.
  rewrite !onData_unfold. rewrite <- append_assoc.
  pose proof (split_pieces newline (buffer +:+ a)) as Hpieces.
  pose proof (split_nonempty newline (buffer +:+ a)) as Hne.
  set (rest := default "" (last (split newline (buffer +:+ a)))).
  assert (mentions newline rest = false) as Hrest
    by by apply (Forall_last_default (λ s, mentions newline s = false)).
  rewrite (split_app newline rest b), (split_none _ _ Hrest).
  rewrite (split_app newline (buffer +:+ a) b). fold rest.
  change (removelast [rest]) with (@nil string).
  change (default "" (last [rest])) with rest.
  set (joined := rest +:+ default "" (head (split newline b))).
  change ([] ++ joined :: tail (split newline b))
    with (joined :: tail (split newline b)).
  rewrite removelast_app by done. rewrite last_app.
  rewrite List.filter_app.
  destruct (last (joined :: tail (split newline b))) eqn:Hlast; [done|].
  by apply last_None in Hlast.
Qed.

End Lines.

(** ** Events on the wire *)

Section Wire.
Import Text.

Lemma mentions_app (c : ascii) (a b : string) :
  mentions c (a +:+ b) = mentions c a || mentions c b.
Proof.
  induction a as [|x a IH]; [done|].
  rewrite append_cons. simpl. rewrite IH. by rewrite orb_assoc.
Qed.

Lemma split_line (sep : ascii) (line rest : string) :
  mentions sep line = false →
  split sep (line +:+ String sep rest) = line :: split sep rest.
Proof.
  induction line as [|c line IH]; simpl.
  - intros _. change ("" +:+ String sep rest) with (String sep rest).
    simpl. by rewrite Ascii.eqb_refl.
  - intros [Hc Hline]%orb_false_iff. rewrite Hc. by rewrite (IH Hline).
Qed.

Lemma split_unlines (sep : ascii) (lines : list string) (rest : string) :
  Forall (λ line, mentions sep line = false) lines →
  split sep (unlines sep lines rest) = lines ++ split sep rest.
Proof.
  induction 1 as [|line lines Hline Hlines IH]; [done|].
  cbn [unlines]. rewrite split_line by done. by rewrite IH.
Qed.

Lemma unlines_app (sep : ascii) (a b : list string) (rest : string) :
  unlines sep (a ++ b) rest = unlines sep a (unlines sep b rest).
Proof. induction a as [|x a IH]; [done|]. simpl. by rewrite IH. Qed.

Lemma append_unlines (sep : ascii) (a : list string) (rest tail : string) :
  unlines sep a rest +:+ tail = unlines sep a (rest +:+ tail).
Proof.
  induction a as [|x a IH]; [done|]. simpl.
  rewrite append_assoc, append_cons. by rewrite IH.
Qed.

(** The digits of a number hold no line feed. *)
Lemma mentions_uint (d : Decimal.uint) :
  mentions newline (NilEmpty.string_of_uint d) = false.
Proof. induction d; simpl; done. Qed.

Lemma mentions_String_of_Z (n : Z) :
  mentions newline (String_of_Z n) = false.
Proof.
  unfold String_of_Z, NilZero.string_of_int.
  destruct (Z.to_int n) as [d|d]; unfold NilZero.string_of_uint;
    destruct d; simpl; try done; apply mentions_uint.
Qed.

(** The fields before the data of an event, one per line. *)
Definition head_lines (event : SSEEvent) : list string :=
  match sse_id event with
  | Some n => ["id: " +:+ String_of_Z n]
  | None => []
  end
  ++ match Transport.truthy_string (sse_event event) with
     | Some name => ["event: " +:+ name]
     | None => []
     end
  ++ match sse_retry event with
     | Some n => if n =? 0 then [] else ["retry: " +:+ String_of_Z n]
     | None => []
     end.

Definition data_lines (event : SSEEvent) : list string :=
  map (λ line, "data: " +:+ line) (split newline (sse_data event)).

Lemma fold_fields (lines : list string) (output : string) :
  fold_left (λ output line, output +:+ Transport.field "data" line)
            lines output
  = output +:+ unlines newline (map (λ line, "data: " +:+ line) lines) "".
Proof.
  revert output. induction lines as [|line lines IH]; intros output.
  - simpl. by rewrite append_nil.
  - cbn [fold_left map unlines]. rewrite IH. rewrite append_assoc.
    f_equal. unfold Transport.field. by rewrite !append_assoc.
Qed.

Lemma formatSSEEvent_unlines (event : SSEEvent) :
  Transport.formatSSEEvent event
  = unlines newline (head_lines event ++ data_lines event ++ [""]) "".
Proof.
  unfold Transport.formatSSEEvent, head_lines, data_lines.
  rewrite fold_fields. rewrite !unlines_app.
  rewrite append_assoc. rewrite append_unlines.
  change ("" +:+ String newline "") with (unlines newline [""] "").
  set (tail := unlines newline _ (unlines newline [""] "")).
  destruct (sse_id event) as [n|];
    destruct (Transport.truthy_string (sse_event event)) as [name|];
    destruct (sse_retry event) as [r|]; try destruct (r =? 0);
    cbn [app unlines]; unfold Transport.field;
    change ("" +:+ ?x) with x; rewrite ?append_assoc; done.
Qed.

Lemma head_lines_clean (event : SSEEvent) :
  mentions newline (default "" (sse_event event)) = false →
  Forall (λ line, mentions newline line = false) (head_lines event).
Proof.
  intros Hname. unfold head_lines. rewrite !Forall_app. split; [|split].
  - destruct (sse_id event) as [n|]; [|constructor].
    constructor; [|constructor].
    rewrite mentions_app. by rewrite mentions_String_of_Z.
  - unfold Transport.truthy_string.
    destruct (sse_event event) as [name|]; [|constructor].
    simpl in Hname.
    destruct (Transport.nonempty name); [|constructor].
    constructor; [|constructor]. rewrite mentions_app. by rewrite Hname.
  - destruct (sse_retry event) as [n|]; [|constructor].
    destruct (n =? 0); constructor; [|constructor].
    rewrite mentions_app. by rewrite mentions_String_of_Z.
Qed.

Lemma data_lines_clean (event : SSEEvent) :
  Forall (λ line, mentions newline line = false) (data_lines event).
Proof.
  unfold data_lines. apply Forall_map.
  eapply Forall_impl; [apply split_pieces|]. intros line Hline.
  simpl. by rewrite mentions_app, Hline.
Qed.

(** The lines of the text that [formatSSEEvent] produces. *)
Lemma formatSSEEvent_frame (event : SSEEvent) :
  mentions newline (default "" (sse_event event)) = false →
  split newline (Transport.formatSSEEvent event)
  = head_lines event ++ data_lines event ++ [""; ""].
Proof.
  intros Hname. rewrite formatSSEEvent_unlines.
  rewrite split_unlines.
  - by rewrite <- !app_assoc.
  - rewrite !Forall_app. split; [by apply head_lines_clean|].
    split; [apply data_lines_clean|]. by constructor.
Qed.

Lemma head_lines_filled (event : SSEEvent) :
  Forall (λ line, line ≠ "") (head_lines event).
Proof.
  unfold head_lines.
  destruct (sse_id event), (Transport.truthy_string (sse_event event)),
    (sse_retry event) as [r|]; try destruct (r =? 0);
    repeat constructor; done.
Qed.

Lemma data_lines_filled (event : SSEEvent) :
  Forall (λ line, line ≠ "") (data_lines event).
Proof. unfold data_lines. apply Forall_map, Forall_true. done. Qed.

(** X3.  The frame of an event on the wire, for an event name without
    line feed: one line per field that is set ([id], [event], [retry], in
    this order), one [data:] line per line of the payload, and one empty
    line that ends the event.  The text ends with a line feed and holds
    no other empty line, so that nothing in the payload ends the event
    early. *)
Theorem formatSSEEvent_lines (event : SSEEvent) :
  mentions newline (default "" (sse_event event)) = false →
  split newline (Transport.formatSSEEvent event)
  = head_lines event ++ data_lines event ++ [""; ""]
  ∧ Forall (λ line, line ≠ "") (head_lines event ++ data_lines event).
Proof.
  intros Hname. split; [by apply formatSSEEvent_frame|].
  apply Forall_app. split; [apply head_lines_filled|apply data_lines_filled].
Qed.

Lemma formatSSEEvent_lines_witness :
  split newline
    (Transport.formatSSEEvent
       (mkEvent (Some 7) (Some "message") ("{" +:+ String newline "}") None))
  = ["id: 7"; "event: message"; "data: {"; "data: }"; ""; ""].
Proof.
  exact (proj1 (formatSSEEvent_lines
                  (mkEvent (Some 7) (Some "message")
                           ("{" +:+ String newline "}") None)
                  eq_refl)).
Defined.

(** [parts.join(sep)] *)
Fixpoint join (sep : ascii) (parts : list string) : string :=
  match parts with
  | [] => ""
  | [part] => part
  | part :: rest => part +:+ String sep (join sep rest)
  end.

(** The rest of [s] behind [prefix], if [s] starts with it. *)
Fixpoint strip (prefix s : string) : option string :=
  match prefix, s with
  | EmptyString, _ => Some s
  | String c prefix', String d s' =>
      if Ascii.eqb c d then strip prefix' s' else None
  | String _ _, EmptyString => None
  end.

(** What a reader of the stream takes for the payload of an event: its
    [data:] lines, joined by line feeds. *)
Definition payload (text : string) : string :=
  join newline (omap (strip "data: ") (split newline text)).

Lemma join_split (sep : ascii) (s : string) : join sep (split sep s) = s.
Proof.
  induction s as [|c s IH]; [done|]. cbn [split].
  pose proof (split_nonempty sep s) as Hne.
  destruct (split sep s) as [|x xs] eqn:Hx; [done|].
  destruct (Ascii.eqb c sep) eqn:Hc.
  - apply Ascii.eqb_eq in Hc as ->.
    change (join sep ("" :: x :: xs)) with (String sep (join sep (x :: xs))).
    by rewrite IH.
  - destruct xs as [|y ys]; simpl in *; [by rewrite IH|].
    by rewrite <- IH.
Qed.

Lemma omap_head_lines (event : SSEEvent) :
  omap (strip "data: ") (head_lines event) = [].
Proof.
  unfold head_lines.
  destruct (sse_id event), (Transport.truthy_string (sse_event event)),
    (sse_retry event) as [r|]; try destruct (r =? 0); reflexivity.
Qed.

Lemma omap_data_lines (lines : list string) :
  omap (strip "data: ") (map (λ line, "data: " +:+ line) lines) = lines.
Proof.
  induction lines as [|line lines IH]; [done|].
  transitivity
    (line :: omap (strip "data: ") (map (λ line, "data: " +:+ line) lines));
    [reflexivity|by rewrite IH].
Qed.

(** X4.  The payload of an event survives the wire, line feeds included:
    the [data:] lines of the text that [formatSSEEvent] produces, joined
    by line feeds, are the payload; no other field is taken for data. *)
Theorem formatSSEEvent_round_trip (event : SSEEvent) :
  mentions newline (default "" (sse_event event)) = false →
  payload (Transport.formatSSEEvent event) = sse_data event.
Proof.
  intros Hname. unfold payload. rewrite formatSSEEvent_frame by done.
  rewrite !omap_app, omap_head_lines. unfold data_lines.
  rewrite omap_data_lines. simpl. rewrite app_nil_r. apply join_split.
Qed.

Lemma formatSSEEvent_round_trip_witness :
  payload
    (Transport.formatSSEEvent
       (mkEvent (Some 7) (Some "message") ("{" +:+ String newline "}") None))
  = "{" +:+ String newline "}".
Proof. by rewrite formatSSEEvent_round_trip. Defined.

End Wire.

(** ** Bearer authentication *)

Section Auth.
Import Text.

Lemma includes_elem_of (x : string) (l : list string) :
  Text.includes x l = true ↔ x ∈ l.
Proof.
  unfold Text.includes. rewrite existsb_exists. split.
  - intros (y & Hy & ->%String.eqb_eq). by apply list_elem_of_In.
  - intros Hx. exists x. split; [by apply list_elem_of_In|].
    apply String.eqb_refl.
Qed.

(** The header is [Bearer], a space and the token, and if anything
    follows the token, it starts with a space. *)
Definition bearer (header token : string) : Prop :=
  mentions space token = false
  ∧ ∃ rest, header = "Bearer " +:+ token +:+ rest
            ∧ (rest = "" ∨ ∃ rest', rest = String space rest').

Lemma split_bearer (header token : string) :
  bearer header token →
  split space header !! 0%nat = Some "Bearer"
  ∧ split space header !! 1%nat = Some token.
Proof.
  intros (Htoken & rest & -> & Hrest).
  change ("Bearer " +:+ token +:+ rest)
    with ("Bearer" +:+ String space (token +:+ rest)).
  rewrite split_line by done. split; [done|]. simpl.
  destruct Hrest as [->|[rest' ->]].
  - rewrite append_nil. by rewrite split_none.
  - by rewrite split_line.
Qed.

Lemma bearer_split (header token : string) (more : list string) :
  split space header = "Bearer" :: token :: more →
  bearer header token.
Proof.
  intros Hsplit. pose proof (split_pieces space header) as Hpieces.
  pose proof (unlines_split space header) as Hjoin.
  rewrite Hsplit in Hpieces, Hjoin.
  apply Forall_cons in Hpieces as [_ [Htoken _]%Forall_cons].
  split; [done|]. destruct more as [|piece more].
  - exists "". split; [|by left]. rewrite append_nil. by rewrite <- Hjoin.
  - change (removelast ("Bearer" :: token :: piece :: more))
      with ("Bearer" :: token :: removelast (piece :: more)) in Hjoin.
    cbn [unlines] in Hjoin. eexists. split; [|right; by eexists].
    rewrite <- Hjoin. reflexivity.
Qed.

(** X5.  With bearer authentication configured, [authMiddleware] lets a
    request pass exactly when its path is [/health], or its
    [Authorization] header is [Bearer], a space and a non-empty token
    without space that is one of the configured tokens; what follows the
    token after a further space is ignored.  A configured token that
    holds a space therefore admits no request. *)
Theorem authMiddleware_passes_iff (tokens : list string) (path : string)
    (req : Req) (res : Res) :
  Http.authMiddleware (Some (Http.AuthBearer tokens)) path req res = None
  ↔ path = "/health"
    ∨ ∃ header token,
        Transport.lookup_header "authorization" (req_headers req)
          = Some header
        ∧ bearer header token
        ∧ token ≠ ""
        ∧ token ∈ tokens.
Proof.
  unfold Http.authMiddleware.
  destruct (String.eqb path "/health") eqn:Hpath.
  { apply String.eqb_eq in Hpath. split; [by left|done]. }
  apply String.eqb_neq in Hpath.
  unfold Transport.truthy_string at 1.
  destruct (Transport.lookup_header "authorization" (req_headers req))
    as [header|]; [|split; [done|by intros [?|(? & ? & ? & _)]]].
  split.
  - destruct (Transport.nonempty header); [|done].
    destruct (split space header) as [|type [|token more]] eqn:Hsplit;
      [done|simpl; by rewrite orb_true_r|]. simpl.
    unfold Transport.truthy_string, Transport.nonempty.
    case_bool_decide as Htype; [|done].
    destruct (String.eqb token "") eqn:Hempty; [done|]. simpl.
    rewrite ?bool_decide_eq_true_2 by eauto. simpl.
    destruct (Text.includes token tokens) eqn:Hin; [|done]. intros _.
    right. exists header, token. split; [done|].
    injection Htype as ->. split; [by eapply bearer_split|].
    split; [by apply String.eqb_neq|]. by apply includes_elem_of.
  - intros [?|(h & token & [= <-] & Hbearer & Hne & Hin)]; [done|].
    destruct (split_bearer _ _ Hbearer) as [H0 H1].
    assert (Transport.nonempty header = true) as ->.
    { destruct Hbearer as (_ & rest & -> & _). done. }
    rewrite H0, H1. unfold Transport.truthy_string, Transport.nonempty.
    apply String.eqb_neq in Hne. rewrite Hne. simpl.
    rewrite ?bool_decide_eq_true_2 by eauto. simpl.
    apply includes_elem_of in Hin. by rewrite Hin.
Qed.

End Auth.

(** ** Waiting for the response to a request *)

Section Poll.
Context `{Runtime}.

(** The messages queued before the first response to the request. *)
Fixpoint before_response (request : JSONRPCMessage) (queue : list Parsed)
  : list Parsed :=
  match queue with
  | [] => []
  | msg :: rest =>
      if Proxy.isResponseFor msg request then []
      else msg :: before_response request rest
  end.

(** The world in which the session [sessionId] is the object [session]. *)
Definition with_session (sessionId : string) (session : Session) (w : World)
  : World :=
  with_sessions (<[sessionId := session]> (sessions (sessionManager w))) w.

Lemma update_session_run (sessionId : string) (f : Session → Session)
    (w : World) (session : Session) :
  session_of w sessionId = Some session →
  SessionManager.update_session sessionId f w
  = Some (with_session sessionId (f session) w, Ok tt).
Proof.
  intros Hs. unfold SessionManager.update_session, modify, with_session.
  do 3 f_equal. apply map_eq. intros k.
  destruct (decide (k = sessionId)) as [->|Hne].
  - rewrite lookup_alter_eq, lookup_insert_eq. unfold session_of in Hs.
    by rewrite Hs.
  - by rewrite lookup_alter_ne, lookup_insert_ne.
Qed.

Lemma session_of_with_session (sessionId : string) (session : Session)
    (w : World) :
  session_of (with_session sessionId session w) sessionId = Some session.
Proof. unfold with_session, session_of. simpl. apply lookup_insert_eq. Qed.

Lemma with_session_twice (sessionId : string) (a b : Session) (w : World) :
  with_session sessionId b (with_session sessionId a w)
  = with_session sessionId b w.
Proof.
  unfold with_session, with_sessions, with_sessionManager. simpl.
  by rewrite insert_insert_eq.
Qed.

Lemma with_session_same (sessionId : string) (session : Session)
    (w : World) :
  session_of w sessionId = Some session →
  with_session sessionId session w = w.
Proof.
  intros Hs. unfold with_session, with_sessions, with_sessionManager.
  rewrite insert_id by exact Hs. by destruct w as [[]].
Qed.

Lemma requeue_run (sessionId : string) (request : JSONRPCMessage)
    (queue : list Parsed) (w : World) (session : Session) :
  session_of w sessionId = Some session →
  Proxy.requeue sessionId request queue w
  = Some (with_session sessionId
            (set_messageQueue
               (messageQueue session ++ before_response request queue)
               session) w,
          Ok (List.find (λ msg, Proxy.isResponseFor msg request) queue)).
Proof.
  revert w session. induction queue as [|msg queue IH]; intros w session Hs.
  - simpl. rewrite app_nil_r. unfold ret. do 2 f_equal.
    rewrite with_session_same; [done|]. rewrite Hs. by destruct session.
  - simpl. destruct (Proxy.isResponseFor msg request).
    + rewrite app_nil_r. unfold ret. do 2 f_equal.
      rewrite with_session_same; [done|]. rewrite Hs. by destruct session.
    + unfold bind, SessionManager.queueMessage.
      rewrite (update_session_run _ _ _ _ Hs).
      rewrite (IH _ _ (session_of_with_session _ _ _)).
      rewrite with_session_twice. simpl. by rewrite <- app_assoc.
Qed.

Lemma checkForResponse_run (sessionId : string) (request : JSONRPCMessage)
    (w : World) (session : Session) :
  session_of w sessionId = Some session →
  Proxy.checkForResponse sessionId request w
  = Some (with_session sessionId
            (set_messageQueue
               (before_response request (messageQueue session)) session) w,
          Ok (List.find (λ msg, Proxy.isResponseFor msg request)
                        (messageQueue session))).
Proof.
  intros Hs. unfold Proxy.checkForResponse. unfold bind at 1.
  unfold get_world at 1. unfold SessionManager.hasSession.
  rewrite bool_decide_eq_true_2 by (rewrite Hs; eauto).
  change (negb true) with false. cbv iota.
  unfold bind at 1. unfold SessionManager.dequeueMessages.
  unfold bind at 1. unfold get_world at 1. rewrite Hs.
  unfold bind at 1. rewrite (update_session_run _ _ _ _ Hs).
  unfold ret.
  rewrite (requeue_run _ _ _ _ _ (session_of_with_session _ _ _)).
  by rewrite with_session_twice.
Qed.

(** No message of the list is a response to the request. *)
Definition no_response (request : JSONRPCMessage) (queue : list Parsed)
  : Prop :=
  Forall (λ msg, Proxy.isResponseFor msg request = false) queue.

Lemma before_response_none (request : JSONRPCMessage) (queue : list Parsed) :
  no_response request queue →
  before_response request queue = queue
  ∧ List.find (λ msg, Proxy.isResponseFor msg request) queue = None.
Proof.
  induction 1 as [|msg queue Hmsg Hqueue [IH1 IH2]]; [done|].
  simpl. rewrite Hmsg. by rewrite IH1, IH2.
Qed.

Lemma before_response_first (request : JSONRPCMessage)
    (pre post : list Parsed) (msg : Parsed) :
  no_response request pre →
  Proxy.isResponseFor msg request = true →
  before_response request (pre ++ msg :: post) = pre
  ∧ List.find (λ msg, Proxy.isResponseFor msg request) (pre ++ msg :: post)
    = Some msg.
Proof.
  intros Hpre Hmsg.
  induction Hpre as [|m pre Hm Hpre [IH1 IH2]]; simpl.
  - by rewrite Hmsg.
  - rewrite Hm. by rewrite IH1, IH2.
Qed.

(** X6.  One poll of [waitForResponse] on a registered session.  If no
    queued message is a response to the request, nothing changes and the
    request stays pending.  Otherwise the first such response resolves
    the request; the messages queued before it stay queued, in order, and
    the messages queued behind it are dropped from the queue. *)
Theorem checkForResponse_takes_first_response (sessionId : string)
    (request : JSONRPCMessage) (w : World) (session : Session) :
  session_of w sessionId = Some session →
  (no_response request (messageQueue session) →
   Proxy.checkForResponse sessionId request w = Some (w, Ok None))
  ∧ (∀ pre msg post,
       messageQueue session = pre ++ msg :: post →
       no_response request pre →
       Proxy.isResponseFor msg request = true →
       Proxy.checkForResponse sessionId request w
       = Some (with_session sessionId (set_messageQueue pre session) w,
               Ok (Some msg))).
Proof.
  intros Hs. rewrite (checkForResponse_run _ _ _ _ Hs). split.
  - intros [-> ->]%before_response_none. do 2 f_equal.
    apply with_session_same. rewrite Hs. by destruct session.
  - intros pre msg post -> Hpre Hmsg.
    by destruct (before_response_first request pre post msg Hpre Hmsg)
      as [-> ->].
Qed.

Lemma sendToEach_sessions (message : Parsed) (conns : list loc) (w : World) :
  ∃ w', Proxy.sendToEach message conns w = Some (w', Ok tt)
        ∧ sessionManager w' = sessionManager w
        ∧ heap w' = heap w
        ∧ processManager w' = processManager w.
Proof.
  revert w. induction conns as [|c conns IH]; intros w.
  - by exists w.
  - simpl. unfold bind at 1. unfold Proxy.proxy_send, modify.
    set (w1 := match sockets w !! c with Some _ => _ | None => _ end).
    assert (sessionManager w1 = sessionManager w ∧ heap w1 = heap w
            ∧ processManager w1 = processManager w) as (Hsm & Hh & Hpm).
    { subst w1. destruct (sockets w !! c); [|done].
      by destruct (Transport.sendSSEMessage _ _ _). }
    destruct (IH w1) as (w' & Hrun & Hsm' & Hh' & Hpm').
    exists w'. split; [done|]. by rewrite Hsm', Hh', Hpm'.
Qed.

(** [routeProcessMessage] on a registered session, whatever streams it
    has: what becomes of the session objects. *)
Lemma routeProcessMessage_sessions (sessionId : string) (message : Parsed)
    (w : World) (session : Session) (init : bool) :
  session_of w sessionId = Some session →
  Proxy.isInitializeResponse message = Ok init →
  ∃ w',
    Proxy.routeProcessMessage sessionId message w = Some (w', Ok tt)
    ∧ sessionManager w'
      = sessionManager
          (with_session sessionId (routed message init session) w)
    ∧ heap w' = heap w
    ∧ processManager w' = processManager w.
Proof.
  intros Hs Hinit.
  unfold Proxy.routeProcessMessage. unfold bind at 1. unfold get_world at 1.
  unfold SessionManager.hasSession.
  rewrite bool_decide_eq_true_2 by (rewrite Hs; eauto).
  change (negb true) with false. cbv iota.
  unfold bind at 1. rewrite Hinit.
  unfold bind at 1.
  set (w1 := with_session sessionId
               (if init then set_isInitialized true session else session) w).
  assert ((if init then SessionManager.setSessionInitialized sessionId
           else ret tt) w = Some (w1, Ok tt)) as ->.
  { subst w1. destruct init.
    - unfold SessionManager.setSessionInitialized.
      by rewrite (update_session_run _ _ _ _ Hs).
    - unfold ret. by rewrite with_session_same. }
  cbv beta iota. unfold bind at 1. unfold SessionManager.queueMessage.
  subst w1.
  rewrite (update_session_run _ _ _ _ (session_of_with_session _ _ _)).
  rewrite with_session_twice.
  unfold bind at 1. unfold SessionManager.getActiveSSEConnections.
  unfold bind at 1. unfold get_world at 1. unfold ret.
  set (w2 := with_session _ _ w).
  destruct (sendToEach_sessions message
              (match session_of w2 sessionId with
               | Some session => sseConnections session
               | None => []
               end) w2) as (w' & Hrun & Hsm & Hh & Hpm).
  exists w'. split; [exact Hrun|]. split; [|by rewrite Hh, Hpm].
  rewrite Hsm. subst w2. unfold routed. by destruct init.
Qed.

(** X7.  A response that the subprocess sends is what the next poll of
    the pending request finds: after [routeProcessMessage] has routed a
    response to the request into a session whose queue holds no other
    one, [checkForResponse] returns that response and leaves the queue as
    it was before; the session is marked initialized when the result
    carries [serverInfo]. *)
Theorem routed_response_resolves_request (sessionId : string)
    (request : JSONRPCMessage) (r : JSONRPCResponse) (w : World)
    (session : Session) (init : bool) :
  session_of w sessionId = Some session →
  no_response request (messageQueue session) →
  Proxy.isResponseFor (Single (Response r)) request = true →
  Proxy.isInitializeResponse (Single (Response r)) = Ok init →
  ∃ w1 w2,
    Proxy.routeProcessMessage sessionId (Single (Response r)) w
      = Some (w1, Ok tt)
    ∧ Proxy.checkForResponse sessionId request w1
      = Some (w2, Ok (Some (Single (Response r))))
    ∧ session_of w2 sessionId
      = Some (if init then set_isInitialized true session else session).
Proof.
  intros Hs Hnone Hresp Hinit.
  destruct (routeProcessMessage_sessions _ _ _ _ _ Hs Hinit)
    as (w1 & Hroute & Hsm & _).
  assert (session_of w1 sessionId
          = Some (routed (Single (Response r)) init session)) as Hs1.
  { unfold session_of. rewrite Hsm. apply session_of_with_session. }
  exists w1. eexists. split; [exact Hroute|].
  rewrite (checkForResponse_run _ _ _ _ Hs1).
  destruct (before_response_first request (messageQueue session) []
              (Single (Response r)) Hnone Hresp) as [Hpre Hfind].
  unfold routed at 2 3. simpl messageQueue. rewrite Hpre, Hfind.
  split; [reflexivity|]. rewrite session_of_with_session.
  f_equal. unfold routed. destruct init; by destruct session.
Qed.

End Poll.

(** ** Output of a subprocess *)

Section ProcessOutput.
Context `{Runtime}.
Variable JSON_parse : string → option json.

(** Every session is registered under its own id, as [createSession]
    registers it. *)
Definition keyed (w : World) : Prop :=
  ∀ sessionId session,
    session_of w sessionId = Some session → id session = sessionId.

Lemma findSessionByProcessId_Some (processId : string) (w : World)
    (session : Session) :
  Proxy.findSessionByProcessId processId w = Some session →
  Proxy.bound_to processId w session = true
  ∧ ∃ sessionId, session_of w sessionId = Some session.
Proof.
  unfold Proxy.findSessionByProcessId. intros [Hin Hb]%find_some.
  split; [done|]. apply list_elem_of_In in Hin.
  apply list_elem_of_fmap in Hin as ([k s] & -> & Hks).
  apply elem_of_map_to_list in Hks. by exists k.
Qed.

Lemma findSessionByProcessId_None (processId : string) (w : World)
    (sessionId : string) (session : Session) :
  Proxy.findSessionByProcessId processId w = None →
  session_of w sessionId = Some session →
  Proxy.bound_to processId w session = false.
Proof.
  unfold Proxy.findSessionByProcessId. intros Hnone Hs.
  apply (find_none _ _ Hnone). apply list_elem_of_In.
  apply list_elem_of_fmap. exists (sessionId, session). split; [done|].
  by apply elem_of_map_to_list.
Qed.

(** [routeProcessMessage] returns or throws; it changes at most the
    session it is called for, and no handle. *)
Lemma routeProcessMessage_frame (sessionId : string) (message : Parsed)
    (w : World) :
  ∃ w' o,
    Proxy.routeProcessMessage sessionId message w = Some (w', o)
    ∧ heap w' = heap w
    ∧ processManager w' = processManager w
    ∧ ∀ other, other ≠ sessionId → session_of w' other = session_of w other.
Proof.
  destruct (session_of w sessionId) as [session|] eqn:Hs.
  - destruct (Proxy.isInitializeResponse message) as [init|e] eqn:Hinit.
    + destruct (routeProcessMessage_sessions _ _ _ _ _ Hs Hinit)
        as (w' & Hrun & Hsm & Hh & Hpm).
      exists w', (Ok tt). split; [done|]. split; [done|]. split; [done|].
      intros other Hne. unfold session_of. rewrite Hsm.
      unfold with_session. simpl. by rewrite lookup_insert_ne.
    + exists w, (Throw e). split; [|done].
      unfold Proxy.routeProcessMessage. unfold bind at 1.
      unfold get_world at 1. unfold SessionManager.hasSession.
      rewrite bool_decide_eq_true_2 by (rewrite Hs; eauto).
      change (negb true) with false. cbv iota.
      unfold bind at 1. by rewrite Hinit.
  - exists w, (Ok tt). split; [|done].
    unfold Proxy.routeProcessMessage. unfold bind at 1.
    unfold get_world at 1. unfold SessionManager.hasSession.
    rewrite bool_decide_eq_false_2; [done|]. rewrite Hs. by intros [? ?].
Qed.

(** X8.  [handleProcessOutput] never throws, whatever the line is,
    touches no handle and not the supervisor, and changes no session but
    one whose process has the id the line came from. *)
Theorem handleProcessOutput_isolation (processId data : string)
    (w : World) :
  keyed w →
  ∃ w',
    Proxy.handleProcessOutput JSON_parse processId data w = Some (w', Ok tt)
    ∧ heap w' = heap w
    ∧ processManager w' = processManager w
    ∧ ∀ sessionId,
        session_of w' sessionId ≠ session_of w sessionId →
        ∃ session, session_of w sessionId = Some session
                   ∧ Proxy.bound_to processId w session = true.
Proof.
  intros Hkeyed. unfold Proxy.handleProcessOutput, try_catch.
  destruct (JSON_parse data) as [v|]; [|by exists w].
  destruct (JSONRPCMessageSchema v) as [validated|]; [|by exists w].
  unfold bind at 1. unfold get_world at 1.
  destruct (Proxy.findSessionByProcessId processId w) as [session|] eqn:Hf;
    [|by exists w].
  apply findSessionByProcessId_Some in Hf as [Hbound [sessionId Hs]].
  rewrite (Hkeyed _ _ Hs).
  destruct (routeProcessMessage_frame sessionId validated w)
    as (w' & o & Hrun & Hh & Hpm & Hothers).
  rewrite Hrun. exists w'.
  split; [by destruct o as [[]|e]|]. split; [done|]. split; [done|].
  intros other Hchanged. destruct (decide (other = sessionId)) as [->|Hne].
  - by exists session.
  - by rewrite Hothers in Hchanged.
Qed.

(** X9.  A line of output that is not JSON, or not a JSON-RPC message,
    or that comes from a handle to which no session is bound, is dropped:
    nothing changes and nothing is thrown. *)
Theorem handleProcessOutput_drops (processId data : string) (w : World) :
  JSON_parse data = None
  ∨ (∃ v, JSON_parse data = Some v ∧ JSONRPCMessageSchema v = None)
  ∨ (∀ sessionId session,
       session_of w sessionId = Some session →
       Proxy.bound_to processId w session = false) →
  Proxy.handleProcessOutput JSON_parse processId data w = Some (w, Ok tt).
Proof.
  unfold Proxy.handleProcessOutput, try_catch.
  intros [->|[(v & -> & ->)|Hunbound]]; [done|done|].
  destruct (JSON_parse data) as [v|]; [|done].
  destruct (JSONRPCMessageSchema v) as [validated|]; [|done].
  unfold bind at 1. unfold get_world at 1.
  destruct (Proxy.findSessionByProcessId processId w) as [session|] eqn:Hf;
    [|done].
  apply findSessionByProcessId_Some in Hf as [Hbound [sessionId Hs]].
  by rewrite (Hunbound _ _ Hs) in Hbound.
Qed.

(** X10.  A line of output that is a JSON-RPC message, from the handle
    that exactly one session is bound to (every session being registered
    under its own id), is queued in that session, and marks it
    initialized when it is a response whose result carries [serverInfo];
    unless [isInitializeResponse] throws on the message, as it does on a
    response whose result is [null]: then the line is dropped and nothing
    changes. *)
Theorem handleProcessOutput_queues (processId data : string) (w : World)
    (v : json) (message : Parsed) (sessionId : string)
    (session : Session) :
  keyed w →
  JSON_parse data = Some v →
  JSONRPCMessageSchema v = Some message →
  session_of w sessionId = Some session →
  Proxy.bound_to processId w session = true →
  (∀ other s, session_of w other = Some s →
     Proxy.bound_to processId w s = true → other = sessionId) →
  ∃ w',
    Proxy.handleProcessOutput JSON_parse processId data w = Some (w', Ok tt)
    ∧ match Proxy.isInitializeResponse message with
      | Ok init =>
          session_of w' sessionId = Some (routed message init session)
      | Throw _ => w' = w
      end
    ∧ (Proxy.isInitializeResponse message
         = Throw (TypeError
                    "Cannot use 'in' operator to search for 'serverInfo' in null")
       ↔ ∃ r, message = Single (Response r) ∧ res_result r = Some JNull).
Proof.
  intros Hkeyed Hparse Hvalid Hs Hbound Hunique.
  assert (Proxy.isInitializeResponse message
            = Throw (TypeError
                       "Cannot use 'in' operator to search for 'serverInfo' in null")
          ↔ ∃ r, message = Single (Response r) ∧ res_result r = Some JNull)
    as Hthrows.
  { split.
    - destruct message as [[r|r|n]|ms]; try done. simpl.
      destruct (res_result r) as [[| | | | |fields]|] eqn:Hr; try done.
      intros _. by exists r.
    - intros (r & -> & Hr). simpl. by rewrite Hr. }
  unfold Proxy.handleProcessOutput, try_catch. rewrite Hparse, Hvalid.
  unfold bind at 1. unfold get_world at 1.
  destruct (Proxy.findSessionByProcessId processId w) as [found|] eqn:Hf.
  - apply findSessionByProcessId_Some in Hf as [Hb [k Hk]].
    rewrite (Hkeyed _ _ Hk). rewrite (Hunique _ _ Hk Hb) in Hk |- *.
    assert (found = session) as -> by congruence.
    destruct (Proxy.isInitializeResponse message) as [init|e] eqn:Hinit.
    + destruct (routeProcessMessage_sessions _ _ _ _ _ Hs Hinit)
        as (w' & Hrun & Hsm & _).
      rewrite Hrun. exists w'. split; [done|]. split; [|done].
      unfold session_of. rewrite Hsm. apply session_of_with_session.
    + exists w. split; [|done].
      unfold Proxy.routeProcessMessage. unfold bind at 1.
      unfold get_world at 1. unfold SessionManager.hasSession.
      rewrite bool_decide_eq_true_2 by (rewrite Hs; eauto).
      change (negb true) with false. cbv iota.
      unfold bind at 1. by rewrite Hinit.
  - by rewrite (findSessionByProcessId_None _ _ _ _ Hf Hs) in Hbound.
Qed.

End ProcessOutput.

Section Chunks.
Context `{Runtime}.
Variable JSON_parse : string → option json.
Variable toString_utf8 : list Byte.byte → string.

Lemma handleLines_app (processId : string) (a b : list string) (w : World) :
  Proxy.handleLines JSON_parse processId (a ++ b) w
  = (Proxy.handleLines JSON_parse processId a ;;
     Proxy.handleLines JSON_parse processId b) w.
Proof.
  revert w. induction a as [|line a IH]; intros w; [done|].
  simpl. rewrite bind_assoc. unfold bind at 1. unfold bind at 1.
  destruct (Proxy.handleProcessOutput _ _ _ _) as [[w1 [[]|e]]|]; [|done|done].
  apply IH.
Qed.

(** X2.  A cut of the output of a subprocess that falls between two
    characters makes no difference to the proxy.  Every chunk is decoded
    on its own; when decoding the two parts [a] and [b] separately gives
    the text that decoding [a ++ b] gives, a chunk [a ++ b] on the stdout
    of a handle has the same outcome, the same state of the proxy and the
    same line buffer, as the chunk [a] followed by the chunk [b].  (A cut
    inside a multi-byte character is decoded differently and is not
    covered.) *)
Theorem stdout_cut_between_characters_is_invisible
    (processId buffer : string) (a b : list Byte.byte) (w : World) :
  toString_utf8 (a ++ b) = toString_utf8 a +:+ toString_utf8 b →
  Proxy.stdout_data JSON_parse toString_utf8 processId buffer (a ++ b) w
  = (let! buffer1 :=
       Proxy.stdout_data JSON_parse toString_utf8 processId buffer a in
     Proxy.stdout_data JSON_parse toString_utf8 processId buffer1 b) w.
Proof.
  intros Hcut. unfold Proxy.stdout_data. rewrite Hcut, onData_chunking.
  destruct (ProcessManager.onData buffer (toString_utf8 a))
    as [buffer1 lines1].
  destruct (ProcessManager.onData buffer1 (toString_utf8 b))
    as [buffer2 lines2] eqn:Hb.
  rewrite bind_assoc. unfold bind at 1. rewrite handleLines_app.
  unfold bind, ret.
  destruct (Proxy.handleLines JSON_parse processId lines1 w)
    as [[w1 [[]|e]]|]; [|done|done].
  by rewrite Hb.
Qed.

End Chunks.

Section NullResult.
Context `{Runtime}.
Variable JSON_parse : string → option json.

(** X11.  An error response of the subprocess that also carries
    ["result": null] passes the schema, but [isInitializeResponse] throws
    on it (['serverInfo' in null]); the throw is caught in
    [handleProcessOutput], so the response is neither queued nor sent to
    any stream: nothing changes. *)
Theorem null_result_error_response_is_dropped (processId data : string)
    (fs : list (string * json)) (i : JSONRPCId) (e : JSONRPCError)
    (w : World) :
  JSON_parse data = Some (JObj fs) →
  get "jsonrpc" fs = Some (JStr "2.0") →
  get "method" fs = None →
  JSONRPCIdSchema (get "id" fs) = Some i →
  get "result" fs = Some JNull →
  JSONRPCErrorSchema (get "error" fs) = Some e →
  JSONRPCMessageSchema (JObj fs)
    = Some (Single (Response (mkResponse i (Some JNull) (Some e))))
  ∧ Proxy.handleProcessOutput JSON_parse processId data w = Some (w, Ok tt).
Proof.
  intros Hparse Hv Hm Hid Hresult Herror.
  assert (JSONRPCMessageSchema (JObj fs)
          = Some (Single (Response (mkResponse i (Some JNull) (Some e)))))
    as Hvalid.
  { unfold JSONRPCMessageSchema, union, JSONRPCRequestSchema,
      JSONRPCResponseSchema.
    rewrite Hv, Hm, Hid, Hresult. simpl.
    destruct (optional JSONRPCIdSchema (get "id" fs)); simpl.
    all: unfold optional; destruct (get "error" fs) as [err|]; [|done].
    all: by rewrite Herror. }
  split; [exact Hvalid|].
  unfold Proxy.handleProcessOutput, try_catch. rewrite Hparse, Hvalid.
  unfold bind at 1. unfold get_world at 1.
  destruct (Proxy.findSessionByProcessId processId w) as [session|]; [|done].
  unfold Proxy.routeProcessMessage. unfold bind at 1. unfold get_world at 1.
  destruct (negb (SessionManager.hasSession w (id session))); [done|].
  unfold bind at 1. done.
Qed.

End NullResult.

(** ** A subprocess that fails to start *)

Section FailedStart.
Context `{Runtime}.
Variable now : Z.

Lemma handleProcessCrash_unregistered (processId : string) (w : World) :
  processes (processManager w) !! processId = None →
  ∃ w',
    ProcessManager.handleProcessCrash processId w = Some (w', Ok tt)
    ∧ sessionManager w' = sessionManager w
    ∧ processes (processManager w') = processes (processManager w)
    ∧ sockets w' = sockets w.
Proof.
  intros Hfree. unfold ProcessManager.handleProcessCrash, bind, get_world.
  destruct (_ <=? _).
  - rewrite killProcess_unknown by done. by exists w.
  - by eexists.
Qed.

Lemma spawnProcess_fails (processId : string) (serverConfig : ServerConfig)
    (w : World) :
  processes (processManager w) !! processId = None →
  (∀ w', start_outcome serverConfig w' ≠ Alive) →
  ∃ w' e,
    ProcessManager.spawnProcess processId serverConfig w
      = Some (w', Throw e)
    ∧ sessionManager w' = sessionManager w
    ∧ processes (processManager w') = processes (processManager w)
    ∧ sockets w' = sockets w.
Proof.
  intros Hfree Hfails.
  unfold ProcessManager.spawnProcess. unfold bind at 1.
  unfold get_world at 1. rewrite Hfree.
  unfold bind at 1. unfold ProcessManager.alloc.
  set (w1 := with_nextLoc _ _). unfold bind at 1.
  unfold ProcessManager.start. unfold bind at 1.
  unfold ProcessManager.deref.
  assert (heap w1 !! nextLoc w
          = Some (ProcessManager.new_ManagedProcess processId serverConfig))
    as -> by (subst w1; simpl; apply lookup_insert_eq).
  change (ProcessManager.isRunning
            (ProcessManager.new_ManagedProcess processId serverConfig))
    with false. cbv iota.
  unfold bind at 1. unfold get_world at 1. unfold bind at 1.
  unfold ProcessManager.assign at 1. unfold modify at 1.
  set (w2 := with_heap _ w1).
  change (mp_config (ProcessManager.new_ManagedProcess processId serverConfig))
    with serverConfig.
  change (mp_id (ProcessManager.new_ManagedProcess processId serverConfig))
    with processId.
  assert (∀ p, ∃ w' ,
            ProcessManager.handleProcessCrash processId
              (with_heap (<[nextLoc w := p]> (heap w2)) w2)
              = Some (w', Ok tt)
            ∧ sessionManager w' = sessionManager w
            ∧ processes (processManager w') = processes (processManager w)
            ∧ sockets w' = sockets w) as Hcrash.
  { intros p.
    destruct (handleProcessCrash_unregistered processId
                (with_heap (<[nextLoc w := p]> (heap w2)) w2))
      as (w' & Hrun & Hsm & Hpm & Hsockets); [exact Hfree|].
    exists w'. split; [exact Hrun|]. by rewrite Hsm, Hpm, Hsockets. }
  destruct (start_outcome serverConfig w1) as [|e|exitCode] eqn:Hout.
  - by destruct (Hfails w1).
  - unfold bind at 1. unfold ProcessManager.assign at 1. unfold modify at 1.
    unfold bind at 1.
    edestruct Hcrash as (w' & -> & ? & ? & ?). by exists w', e.
  - case_bool_decide.
    + unfold bind, ProcessManager.assign, modify, throw. by eexists _, _.
    + unfold bind at 1. unfold ProcessManager.assign at 1.
      unfold modify at 1. unfold bind at 1.
      edestruct Hcrash as (w' & -> & ? & ? & ?). by eexists w', _.
Qed.

(** X21.  When the subprocess of a new session does not survive its
    start, [createSessionWithProcess] throws and leaves no session and no
    registered handle behind: the registry, the supervisor's map of
    handles and every stream are as before. *)
Theorem failed_start_leaves_no_session (serverConfig : ServerConfig)
    (w : World) :
  SessionManager.getSessionCount w < maxSessions (sessionManager w) →
  session_of w (randomUUID w) = None →
  processes (processManager w) !! ("session-" +:+ randomUUID w) = None →
  (∀ w', start_outcome serverConfig w' ≠ Alive) →
  ∃ w' e,
    Proxy.createSessionWithProcess now serverConfig w = Some (w', Throw e)
    ∧ sessions (sessionManager w') = sessions (sessionManager w)
    ∧ processes (processManager w') = processes (processManager w)
    ∧ sockets w' = sockets w.
Proof.
  intros Hcap Hfresh Hfree Hfails.
  unfold Proxy.createSessionWithProcess. unfold bind at 1.
  rewrite createSession_below_cap by done.
  set (w1 := with_sessions _ w).
  destruct (spawnProcess_fails ("session-" +:+ randomUUID w) serverConfig w1)
    as (w2 & e & Hspawn & Hsm & Hpm & Hsockets); [done|done|].
  unfold try_catch. unfold bind at 1. simpl id. rewrite Hspawn.
  unfold bind at 1. unfold Proxy.registered.
  rewrite destroySession_listeners. unfold throw.
  exists (destroyed (randomUUID w) w2), e. split; [reflexivity|].
  rewrite sessions_destroyed.
  destruct (destroyed_supervisor (randomUUID w) w2) as [-> _].
  rewrite Hsm, Hpm. subst w1. simpl.
  split; [by apply delete_insert_id|]. split; [done|].
  unfold destroyed, session_of. rewrite Hsm. simpl.
  rewrite lookup_insert_eq. simpl. by rewrite Hsockets.
Qed.

End FailedStart.

(** ** What the schemas accept *)

Section Validation.

Lemma zarray_Forall2 (items : list json) (ms : list JSONRPCMessage) :
  zarray items = Some ms
  ↔ Forall2 (λ item m, batch_item item = Some m) items ms.
Proof.
  revert ms. induction items as [|item items IH]; intros ms; simpl.
  - split.
    + intros [= <-]. constructor.
    + intros Hnil. by inversion Hnil.
  - split.
    + destruct (batch_item item) as [m|] eqn:Hm; [|done]. simpl.
      destruct (zarray items) as [ms'|] eqn:Hms; [|done]. simpl.
      intros [= <-]. constructor; [done|]. by apply IH.
    + intros Hcons. inversion Hcons as [|? m ? ms' Hm Hms]; subst.
      rewrite Hm. simpl. apply IH in Hms. by rewrite Hms.
Qed.

Lemma version_accepted (o : option json) :
  JSONRPCVersionSchema o = Some tt ↔ o = Some (JStr "2.0").
Proof.
  unfold JSONRPCVersionSchema. destruct o as [[| | |s| |]|]; try done.
  destruct (String.eqb s "2.0") eqn:Hs.
  - apply String.eqb_eq in Hs as ->. done.
  - split; [done|]. intros [= ->]. by rewrite String.eqb_refl in Hs.
Qed.

Lemma batch_item_shape (item : json) (m : JSONRPCMessage) :
  batch_item item = Some m →
  (∃ fs, item = JObj fs ∧ get "jsonrpc" fs = Some (JStr "2.0"))
  ∧ ∀ r, m ≠ Response r.
Proof.
  unfold batch_item, union, JSONRPCRequestSchema, JSONRPCNotificationSchema.
  destruct item as [| | | | |fs]; try done.
  destruct (JSONRPCVersionSchema (get "jsonrpc" fs)) as [[]|] eqn:Hv;
    [|done].
  apply version_accepted in Hv. simpl.
  intros Hm. split; [by exists fs|]. intros r ->.
  destruct (optional JSONRPCIdSchema (get "id" fs)); simpl in Hm;
    destruct (zstring (get "method" fs)); simpl in Hm; done.
Qed.

(** X12.  An array is accepted by [parseRequest] exactly when it is not
    empty and every element is accepted as a request or notification; the
    batch then has the elements' messages in the order of the array, and
    none of them is a response. *)
Theorem parseRequest_batch (items : list json) (p : Parsed) :
  Transport.parseRequest (JArr items) = Some p
  ↔ items ≠ []
    ∧ ∃ ms, p = Batch ms
            ∧ Forall2 (λ item m, batch_item item = Some m
                                 ∧ ∀ r, m ≠ Response r) items ms.
Proof.
  unfold Transport.parseRequest, JSONRPCMessageSchema, union. simpl.
  unfold JSONRPCBatchSchema. split.
  - destruct (zarray items) as [ms|] eqn:Hms; [|done]. simpl.
    apply zarray_Forall2 in Hms.
    destruct ms as [|m ms]; [done|]. simpl. intros [= <-].
    split; [intros ->; by inversion Hms|].
    eexists. split; [done|].
    eapply Forall2_impl; [exact Hms|]. intros item m' Hitem.
    split; [done|]. by apply batch_item_shape in Hitem as [_ ?].
  - intros (Hne & ms & -> & Hall).
    assert (zarray items = Some ms) as ->.
    { apply zarray_Forall2. eapply Forall2_impl; [exact Hall|].
      by intros ?? [? _]. }
    simpl. destruct ms as [|m ms]; [|done].
    inversion Hall; by subst.
Qed.

(** X13.  An object with [jsonrpc: "2.0"] and a string [method] is always
    accepted by [parseRequest]: as a request when its [id] is absent, a
    string, a number or [null], and otherwise, with an [id] of any other
    type, as a notification, the [id] being dropped. *)
Theorem parseRequest_method_object (fs : list (string * json)) (m : string) :
  get "jsonrpc" fs = Some (JStr "2.0") →
  get "method" fs = Some (JStr m) →
  Transport.parseRequest (JObj fs)
  = Some (Single
            (match optional JSONRPCIdSchema (get "id" fs) with
             | Some i => Request (mkRequest i m (get "params" fs))
             | None => Notification (mkNotification m (get "params" fs))
             end)).
Proof.
  intros Hv Hm.
  unfold Transport.parseRequest, JSONRPCMessageSchema, union,
    JSONRPCRequestSchema, JSONRPCResponseSchema, JSONRPCNotificationSchema.
  rewrite Hv, Hm. simpl.
  destruct (optional JSONRPCIdSchema (get "id" fs)) as [i|] eqn:Hid;
    [done|]. simpl.
  assert (JSONRPCIdSchema (get "id" fs) = None) as ->; [|done].
  unfold optional in Hid. destruct (get "id" fs); [|done].
  by destruct (JSONRPCIdSchema (Some j)).
Qed.

(** X14.  Whatever [parseRequest] accepts is an object with
    [jsonrpc: "2.0"], or a non-empty array of such objects. *)
Theorem parseRequest_requires_version (v : json) (p : Parsed) :
  Transport.parseRequest v = Some p →
  (∃ fs, v = JObj fs ∧ get "jsonrpc" fs = Some (JStr "2.0"))
  ∨ (∃ items, v = JArr items ∧ items ≠ []
       ∧ Forall (λ item, ∃ fs, item = JObj fs
                               ∧ get "jsonrpc" fs = Some (JStr "2.0"))
                items).
Proof.
  destruct v as [| | | |items|fs]; try done.
  - intros Hp. right. exists items. split; [done|].
    unfold Transport.parseRequest, JSONRPCMessageSchema, union in Hp.
    simpl in Hp. unfold JSONRPCBatchSchema in Hp.
    destruct (zarray items) as [ms|] eqn:Hms; [|done].
    apply zarray_Forall2 in Hms. split.
    { intros ->. inversion Hms; subst. simpl in Hp. done. }
    clear Hp. induction Hms as [|item m items ms Hitem Hall IH];
      [constructor|].
    constructor; [|done]. by apply batch_item_shape in Hitem as [? _].
  - intros Hp. left. exists fs. split; [done|]. apply version_accepted.
    revert Hp.
    unfold Transport.parseRequest, JSONRPCMessageSchema, union,
      JSONRPCRequestSchema, JSONRPCResponseSchema, JSONRPCNotificationSchema.
    simpl. by destruct (JSONRPCVersionSchema (get "jsonrpc" fs)) as [[]|].
Qed.

End Validation.

(** ** Requests that are refused, forwarded or answered with an error *)

Section Refusals.
Context `{Runtime}.
Variable now : Z.


(** No session is registered under the id the request names, if any. *)
Definition unknown_session (sessionId : option string) (w : World) : Prop :=
  ∀ sid, Transport.truthy_string sessionId = Some sid →
         session_of w sid = None.




(** X18.  A GET that does not accept [text/event-stream], or that names
    no session or an unregistered one, is refused with 406, 400 or 404 in
    this order of precedence: the response is finished without any event
    written, and no session, handle or supervisor state changes. *)
Theorem get_without_session_is_refused (serverEndpoint : string) (req : Req)
    (w : World) :
  Transport.acceptsSSE req = false
  ∨ unknown_session (Transport.getSessionId (httpTransport w) req) w →
  ∃ w' res',
    Http.GET now serverEndpoint req w = Some (w', Ok (nextLoc w))
    ∧ sockets w' !! nextLoc w = Some res'
    ∧ statusCode res'
      = Some (if negb (Transport.acceptsSSE req) then 406
              else match Transport.truthy_string
                           (Transport.getSessionId (httpTransport w) req)
                   with
                   | None => 400
                   | Some _ => 404
                   end)
    ∧ ended res' = true
    ∧ written res' = []
    ∧ sessionManager w' = sessionManager w
    ∧ processManager w' = processManager w
    ∧ heap w' = heap w.
Proof.
  intros Hrefused. unfold Http.GET. unfold bind at 1.
  unfold Http.accept_connection.
  set (wc := with_nextLoc _ _).
  assert (∃ status fields,
            Http.handleSSERequest now serverEndpoint req (nextLoc w) wc
            = Http.send_object (nextLoc w) status fields wc
            ∧ status
              = (if negb (Transport.acceptsSSE req) then 406
                 else match Transport.truthy_string
                              (Transport.getSessionId (httpTransport w) req)
                      with
                      | None => 400
                      | Some _ => 404
                      end)) as (status & fields & Hrun & Hstatus).
  { unfold Http.handleSSERequest, try_catch.
    destruct (Transport.acceptsSSE req) eqn:Hacc.
    - destruct Hrefused as [?|Hunknown]; [done|].
      change (negb true) with false. cbv iota.
      unfold bind at 1. unfold get_world at 1.
      change (httpTransport wc) with (httpTransport w).
      destruct (Transport.truthy_string
                  (Transport.getSessionId (httpTransport w) req))
        as [sid|] eqn:Hsid.
      + unfold bind at 1.
        rewrite (getSession_absent now _ sid wc); [|by apply Hunknown].
        by do 2 eexists.
      + by do 2 eexists.
    - change (negb false) with true. cbv iota. by do 2 eexists. }
  unfold bind. rewrite Hrun. unfold Http.send_object, Http.update_res, modify.
  eexists _, _. split; [reflexivity|]. subst wc. simpl.
  rewrite lookup_alter_eq, lookup_insert_eq. simpl.
  split; [reflexivity|]. by rewrite Hstatus.
Qed.

Lemma destroyed_twice (sessionId : string) (w : World) :
  destroyed sessionId (destroyed sessionId w) = destroyed sessionId w.
Proof.
  destruct (session_of w sessionId) as [session|] eqn:Hs.
  - apply destroyed_absent. by apply (destroyed_closes _ _ _ Hs).
  - by rewrite !(destroyed_absent _ _ Hs).
Qed.

(** X19.  DELETE is idempotent: a second DELETE with the same headers is
    answered like the first and changes nothing more. *)
Theorem delete_is_idempotent (req : Req) (res : Res) (w : World) :
  ∃ w' sent,
    Http.handleDeleteSession now req res w = Some (w', Ok sent)
    ∧ Http.handleDeleteSession now req res w' = Some (w', Ok sent).
Proof.
  unfold Http.handleDeleteSession, try_catch, bind, get_world.
  destruct (Transport.truthy_string
              (Transport.getSessionId (httpTransport w) req))
    as [sessionId|] eqn:Hsid.
  - unfold Proxy.registered. rewrite destroySession_listeners.
    eexists _, _. split; [reflexivity|].
    assert (httpTransport (destroyed sessionId w) = httpTransport w) as ->.
    { unfold destroyed. by destruct (session_of w sessionId). }
    rewrite Hsid, destroySession_listeners. by rewrite destroyed_twice.
  - eexists _, _. split; [reflexivity|]. by rewrite Hsid.
Qed.


End Refusals.

Section BatchPost.
Context `{Runtime}.
Variable now : Z.



End BatchPost.

(** ** The registry of sessions *)

Section Registry.
Context `{Runtime}.
Import SessionManager.

Lemma isSessionExpired_touched (timeout now now' : Z) (session : Session) :
  isSessionExpired timeout now' (set_lastActivityAt now session)
  = (0 <? timeout) && (timeout <? now' - now).
Proof.
  unfold isSessionExpired. simpl.
  destruct (timeout <=? 0) eqn:Hle; destruct (0 <? timeout) eqn:Hlt;
    try done; lia.
Qed.

(** X22.  A session that [getSession] found at time [now] is found again
    at every later time up to [now + sessionTimeout] (at any time, when
    the timeout is not positive), and that lookup refreshes the activity
    clock in turn. *)
Theorem lookup_keeps_session_for_timeout (L : Listeners)
    (sessionId : string) (w : World) (session : Session) (now now' : Z) :
  session_of w sessionId = Some session →
  isSessionExpired (sessionTimeout (sessionManager w)) now session = false →
  now' - now ≤ sessionTimeout (sessionManager w)
  ∨ sessionTimeout (sessionManager w) ≤ 0 →
  ∃ w1 w2,
    getSession now L sessionId w
      = Some (w1, Ok (Some (set_lastActivityAt now session)))
    ∧ getSession now' L sessionId w1
      = Some (w2, Ok (Some (set_lastActivityAt now' session)))
    ∧ session_of w2 sessionId = Some (set_lastActivityAt now' session).
Proof.
  intros Hs Hlive Hsoon.
  rewrite (getSession_live now L sessionId w session Hs Hlive).
  set (w1 := with_sessions _ w).
  exists w1, (with_sessions
                (alter (set_lastActivityAt now') sessionId
                       (sessions (sessionManager w1))) w1).
  split; [reflexivity|].
  assert (session_of w1 sessionId = Some (set_lastActivityAt now session))
    as Hs1.
  { subst w1. unfold session_of in *. simpl. by rewrite lookup_alter_eq, Hs. }
  rewrite (getSession_live now' L sessionId w1 _ Hs1).
  - split; [reflexivity|].
    rewrite session_of_with_sessions, lookup_alter_eq.
    unfold session_of in Hs1. by rewrite Hs1.
  - rewrite isSessionExpired_touched. subst w1. simpl.
    destruct Hsoon; [apply andb_false_iff; right|apply andb_false_iff; left];
      lia.
Qed.

(** X24.  The message queue of a session is first in, first out:
    [dequeueMessages] returns what was queued before followed by the
    messages queued since, in the order of the [queueMessage] calls, and
    leaves the queue empty, so that a second [dequeueMessages] returns
    nothing. *)
Theorem queue_is_first_in_first_out (sessionId : string)
    (first second : Parsed) (w : World) (session : Session) :
  session_of w sessionId = Some session →
  ∃ w',
    (queueMessage sessionId first ;; queueMessage sessionId second ;;
     dequeueMessages sessionId) w
    = Some (w', Ok (messageQueue session ++ [first; second]))
    ∧ session_of w' sessionId = Some (set_messageQueue [] session)
    ∧ dequeueMessages sessionId w' = Some (w', Ok []).
Proof.
  intros Hs. unfold bind at 1. unfold queueMessage at 1.
  rewrite (update_session_run _ _ _ _ Hs).
  unfold bind at 1. unfold queueMessage at 1.
  rewrite (update_session_run _ _ _ _ (session_of_with_session _ _ _)).
  rewrite with_session_twice.
  unfold dequeueMessages at 1. unfold bind at 1. unfold get_world at 1.
  rewrite session_of_with_session. unfold bind at 1.
  rewrite (update_session_run _ _ _ _ (session_of_with_session _ _ _)).
  rewrite with_session_twice. unfold ret. simpl.
  eexists. split; [by rewrite <- app_assoc|].
  split; [apply session_of_with_session|].
  unfold dequeueMessages, bind, get_world.
  rewrite session_of_with_session.
  rewrite (update_session_run _ _ _ _ (session_of_with_session _ _ _)).
  by rewrite with_session_twice.
Qed.

End Registry.

(** ** The restart budget and the end of a handle *)

Section Budget.
Context `{Runtime}.
Import ProcessManager.

(** No restart counter that the supervisor holds exceeds
    [maxRestartAttempts]. *)
Definition within_budget (w : World) : Prop :=
  ∀ processId n,
    restartAttempts (processManager w) !! processId = Some n →
    n ≤ maxRestartAttempts (processManager w).

(** One call of a method of the supervisor, or of [start] on one of its
    handles. *)
Inductive supervisor_step : World → World → Prop :=
| step_spawnProcess processId config w w' outcome :
    spawnProcess processId config w = Some (w', outcome) →
    supervisor_step w w'
| step_start l w w' outcome :
    start l w = Some (w', outcome) →
    supervisor_step w w'
| step_restart l w w' outcome :
    restart l w = Some (w', outcome) →
    supervisor_step w w'
| step_handleProcessCrash processId w w' outcome :
    handleProcessCrash processId w = Some (w', outcome) →
    supervisor_step w w'
| step_killProcess processId w w' outcome :
    killProcess processId w = Some (w', outcome) →
    supervisor_step w w'
| step_killAllProcesses w w' outcome :
    killAllProcesses w = Some (w', outcome) →
    supervisor_step w w'.

(** The supervisor's counters after a step are those before, without
    some, or with one more that respects the budget. *)
Definition counters_shrink (w w' : World) : Prop :=
  maxRestartAttempts (processManager w')
  = maxRestartAttempts (processManager w)
  ∧ ∀ processId n,
      restartAttempts (processManager w') !! processId = Some n →
      restartAttempts (processManager w) !! processId = Some n
      ∨ n ≤ maxRestartAttempts (processManager w).

Lemma counters_shrink_refl (w : World) : counters_shrink w w.
Proof. split; [done|]. intros ???. by left. Qed.

Lemma counters_shrink_trans (w1 w2 w3 : World) :
  counters_shrink w1 w2 → counters_shrink w2 w3 → counters_shrink w1 w3.
Proof.
  intros [Hmax1 H1] [Hmax2 H2]. split; [congruence|].
  intros processId n Hn. destruct (H2 _ _ Hn) as [Hn2|Hn2].
  - by apply H1.
  - right. by rewrite <- Hmax1.
Qed.

Lemma counters_shrink_same (w w' : World) :
  processManager w' = processManager w → counters_shrink w w'.
Proof. intros Hpm. split; [by rewrite Hpm|]. intros ?? Hn. left. by rewrite <- Hpm. Qed.

Lemma killProcess_counters (processId : string) (w w' : World)
    (outcome : Outcome unit) :
  killProcess processId w = Some (w', outcome) → counters_shrink w w'.
Proof.
  unfold killProcess, bind, get_world.
  destruct (processes (processManager w) !! processId) as [l|].
  - unfold deref. destruct (heap w !! l) as [p|].
    + unfold assign, modify. intros [= <- _]. split; [done|].
      intros k n. simpl. intros Hn. left.
      by apply lookup_delete_Some in Hn as [_ ?].
    + intros [= <- _]. apply counters_shrink_refl.
  - intros [= <- _]. apply counters_shrink_refl.
Qed.

Lemma handleProcessCrash_counters (processId : string) (w w' : World)
    (outcome : Outcome unit) :
  handleProcessCrash processId w = Some (w', outcome) →
  counters_shrink w w'.
Proof.
  unfold handleProcessCrash. unfold bind at 1. unfold get_world at 1.
  destruct (maxRestartAttempts (processManager w) <=? _) eqn:Hfull.
  - apply killProcess_counters.
  - unfold modify. intros [= <- _]. split; [done|]. intros k n. simpl.
    destruct (decide (k = processId)) as [->|Hne].
    + rewrite lookup_insert_eq. intros [= <-]. right.
      apply Z.leb_gt in Hfull.
      destruct (restartAttempts (processManager w) !! processId) as [m|];
        simpl in *; lia.
    + rewrite lookup_insert_ne by done. by left.
Qed.


Lemma killEach_counters (ids : list string) (w w' : World)
    (outcome : Outcome unit) :
  killEach ids w = Some (w', outcome) → counters_shrink w w'.
Proof.
  revert w. induction ids as [|processId ids IH]; intros w.
  - intros [= <- _]. apply counters_shrink_refl.
  - simpl. unfold bind.
    destruct (killProcess processId w) as [[w1 [[]|e]]|] eqn:Hkill;
      [| |done].
    + intros Hrest. eapply counters_shrink_trans.
      * by eapply killProcess_counters.
      * by apply IH.
    + intros [= <- _]. by eapply killProcess_counters.
Qed.

Lemma start_counters (l : loc) (w w' : World) (outcome : Outcome unit) :
  start l w = Some (w', outcome) → counters_shrink w w'.
Proof.
  unfold start. unfold bind at 1. unfold deref.
  destruct (heap w !! l) as [p|];
    [|intros [= <- _]; apply counters_shrink_refl].
  destruct (isRunning p); [intros [= <- _]; apply counters_shrink_refl|].
  unfold bind at 1. unfold get_world at 1. unfold bind at 1.
  unfold assign at 1. unfold modify at 1.
  set (w1 := with_heap _ w).
  assert (∀ q v o,
            handleProcessCrash (mp_id p)
              (with_heap (<[l := q]> (heap w1)) w1) = Some (v, o) →
            counters_shrink w v) as Hcrash.
  { intros q v o Hrun. apply handleProcessCrash_counters in Hrun.
    eapply counters_shrink_trans; [|exact Hrun].
    by apply counters_shrink_same. }
  destruct (start_outcome (mp_config p) w) as [|e|exitCode].
  - intros [= <- _]. by apply counters_shrink_same.
  - unfold bind at 1. unfold assign at 1. unfold modify at 1.
    unfold bind at 1.
    destruct (handleProcessCrash _ _) as [[v [[]|e']]|] eqn:Hrun; [| |done].
    + intros [= <- _]. by eapply Hcrash.
    + intros [= <- _]. by eapply Hcrash.
  - case_bool_decide.
    + unfold bind, assign, modify, throw. intros [= <- _].
      by apply counters_shrink_same.
    + unfold bind at 1. unfold assign at 1. unfold modify at 1.
      unfold bind at 1.
      destruct (handleProcessCrash _ _) as [[v [[]|e']]|] eqn:Hrun; [| |done].
      * intros [= <- _]. by eapply Hcrash.
      * intros [= <- _]. by eapply Hcrash.
Qed.

Lemma restart_counters (l : loc) (w w' : World) (outcome : Outcome unit) :
  restart l w = Some (w', outcome) → counters_shrink w w'.
Proof.
  unfold restart. unfold bind at 1. unfold deref.
  destruct (heap w !! l) as [p|];
    [|intros [= <- _]; apply counters_shrink_refl].
  unfold bind, assign, modify. intros Hstart.
  apply start_counters in Hstart.
  eapply counters_shrink_trans; [|exact Hstart].
  by apply counters_shrink_same.
Qed.

Lemma spawnProcess_counters (processId : string) (config : ServerConfig)
    (w w' : World) (outcome : Outcome loc) :
  spawnProcess processId config w = Some (w', outcome) →
  counters_shrink w w'.
Proof.
  unfold spawnProcess. unfold bind at 1. unfold get_world at 1.
  destruct (processes (processManager w) !! processId);
    [intros [= <- _]; apply counters_shrink_refl|].
  unfold bind at 1. unfold alloc.
  set (w1 := with_nextLoc _ _). unfold bind at 1.
  destruct (start (nextLoc w) w1) as [[w2 [[]|e]]|] eqn:Hstart; [| |done].
  - unfold bind, modify, ret. intros [= <- _].
    apply start_counters in Hstart.
    eapply counters_shrink_trans; [by apply (counters_shrink_same w w1)|].
    eapply counters_shrink_trans; [exact Hstart|].
    split; [done|]. intros ?? Hn. by left.
  - intros [= <- _]. apply start_counters in Hstart.
    eapply counters_shrink_trans; [|exact Hstart].
    by apply counters_shrink_same.
Qed.

Lemma supervisor_step_counters (w w' : World) :
  supervisor_step w w' → counters_shrink w w'.
Proof.
  intros [processId config w0 w1 o Hrun|l w0 w1 o Hrun|l w0 w1 o Hrun
         |processId w0 w1 o Hrun|processId w0 w1 o Hrun|w0 w1 o Hrun].
  - by eapply spawnProcess_counters.
  - by eapply start_counters.
  - by eapply restart_counters.
  - by eapply handleProcessCrash_counters.
  - by eapply killProcess_counters.
  - unfold killAllProcesses, bind, get_world in Hrun.
    by eapply killEach_counters.
Qed.

(** X25.  However the supervisor's methods are called on a new server,
    no restart counter ever exceeds [maxRestartAttempts]. *)
Theorem restarts_stay_within_budget (config : Http.ProxyConfig) (w : World) :
  rtc supervisor_step (Http.new_HTTPServer config) w → within_budget w.
Proof.
  intros Hsteps.
  assert (within_budget (Http.new_HTTPServer config)) as Hinit.
  { intros processId n. simpl. by rewrite lookup_empty. }
  induction Hsteps as [|w1 w2 w3 Hstep _ IH]; [done|].
  apply IH. intros processId n Hn.
  destruct (supervisor_step_counters _ _ Hstep) as [Hmax Hcount].
  rewrite Hmax. destruct (Hcount _ _ Hn) as [Hold|Hnew]; [|done].
  by apply (Hinit processId).
Qed.


(** X26.  [killProcess] on a registered handle stops it and forgets it:
    the handle leaves the supervisor's map together with its restart
    counter, every later write to its stdin throws "Process is not
    running", and a second [killProcess] changes nothing. *)
Theorem killProcess_is_final (processId : string) (l : loc)
    (p : ManagedProcess) (w : World) :
  processes (processManager w) !! processId = Some l →
  heap w !! l = Some p →
  ∃ w' p',
    killProcess processId w = Some (w', Ok tt)
    ∧ processes (processManager w') !! processId = None
    ∧ restartAttempts (processManager w') !! processId = None
    ∧ heap w' !! l = Some p'
    ∧ isRunning p' = false
    ∧ (∀ data, sendToStdin data p' = Throw (Err "Process is not running"))
    ∧ killProcess processId w' = Some (w', Ok tt).
Proof.
  intros Hl Hp. rewrite (killProcess_run processId l p w Hl Hp).
  eexists _, _. split; [reflexivity|]. simpl.
  rewrite !lookup_delete_eq, lookup_insert_eq.
  split; [done|]. split; [done|]. split; [reflexivity|].
  split; [apply kill_stops|].
  split; [intros data; apply sendToStdin_not_running, kill_stops|].
  apply killProcess_unknown. simpl. apply lookup_delete_eq.
Qed.

End Budget.

(** ** Examples for the properties above *)

Section MoreExamples.
Import Scenario.
#[local] Existing Instance echo.

(** The session and the handle that the [initialize] of [w1] created. *)
Definition u0_session : Session :=
  mkSession "u0" 0 0 echo_config (Some 0%nat) [] false [].

Definition u0_process : ManagedProcess :=
  Eval vm_compute in
    default (ProcessManager.new_ManagedProcess "" echo_config)
            (heap w1 !! 0%nat).

Lemma sessions_w1 : sessions (sessionManager w1) = {[ "u0" := u0_session ]}.
Proof. vm_compute. reflexivity. Qed.

Lemma processes_w1 :
  processes (processManager w1) = {[ "session-u0" := 0%nat ]}.
Proof. vm_compute. reflexivity. Qed.

Lemma heap_w1 : heap w1 !! 0%nat = Some u0_process.
Proof. vm_compute. reflexivity. Qed.

Lemma keyed_w1 : keyed w1.
Proof.
  intros sessionId session. unfold session_of. rewrite sessions_w1.
  by intros [<- <-]%lookup_singleton_Some.
Qed.

(** A call of [tools/list] and the response to it. *)
Definition list_call : JSONRPCMessage :=
  Request (mkRequest (Some (IdString "t1")) "tools/list" None).

Definition list_response : JSONRPCResponse :=
  mkResponse (IdString "t1") (Some (JStr "none")) None.

Definition list_body : json :=
  JObj [("jsonrpc", JStr "2.0"); ("id", JStr "t1");
        ("method", JStr "tools/list")].

Definition progress_body : json :=
  JObj [("jsonrpc", JStr "2.0"); ("method", JStr "notifications/progress")].

Definition progress : JSONRPCMessage :=
  Request (mkRequest None "notifications/progress" None).

(** A parser that knows one line. *)
Definition parse_line (data : string) : option json :=
  if String.eqb data "progress" then Some progress_body else None.

(** A notification is queued, then the response to [list_call]. *)
Definition w_response : World :=
  after (Proxy.routeProcessMessage "u0" (Single (Response list_response)))
        w_message.

Lemma checkForResponse_takes_first_response_witness :
  Proxy.checkForResponse "u0" list_call w_response
  = Some (with_session "u0"
            (set_messageQueue [note "a"]
               (set_messageQueue
                  [note "a"; Single (Response list_response)] u0_session))
            w_response,
          Ok (Some (Single (Response list_response)))).
Proof.
  apply (proj2 (checkForResponse_takes_first_response "u0" list_call
                  w_response
                  (set_messageQueue
                     [note "a"; Single (Response list_response)] u0_session)
                  eq_refl)
               [note "a"] (Single (Response list_response)) []);
    [reflexivity|by repeat constructor|reflexivity].
Defined.

Lemma routed_response_resolves_request_witness :
  ∃ w' w'',
    Proxy.routeProcessMessage "u0" (Single (Response list_response)) w_message
      = Some (w', Ok tt)
    ∧ Proxy.checkForResponse "u0" list_call w'
      = Some (w'', Ok (Some (Single (Response list_response))))
    ∧ session_of w'' "u0"
      = Some (set_messageQueue [note "a"] u0_session).
Proof.
  apply (routed_response_resolves_request "u0" list_call list_response
           w_message (set_messageQueue [note "a"] u0_session) false);
    [reflexivity|by repeat constructor|reflexivity|reflexivity].
Defined.

Lemma handleProcessOutput_isolation_witness :
  ∃ w',
    Proxy.handleProcessOutput parse_line "session-u0" "progress" w1
      = Some (w', Ok tt)
    ∧ heap w' = heap w1
    ∧ processManager w' = processManager w1
    ∧ ∀ sessionId,
        session_of w' sessionId ≠ session_of w1 sessionId →
        ∃ session, session_of w1 sessionId = Some session
                   ∧ Proxy.bound_to "session-u0" w1 session = true.
Proof.
  exact (handleProcessOutput_isolation parse_line "session-u0" "progress" w1
           keyed_w1).
Defined.

Lemma handleProcessOutput_drops_witness :
  Proxy.handleProcessOutput parse_line "session-u0" "{" w1
  = Some (w1, Ok tt).
Proof. apply handleProcessOutput_drops. left. reflexivity. Defined.

Lemma handleProcessOutput_queues_witness :
  ∃ w',
    Proxy.handleProcessOutput parse_line "session-u0" "progress" w1
      = Some (w', Ok tt)
    ∧ session_of w' "u0" = Some (routed (Single progress) false u0_session).
Proof.
  destruct (handleProcessOutput_queues parse_line "session-u0" "progress" w1
              progress_body (Single progress) "u0" u0_session keyed_w1)
    as (w' & Hrun & Hqueued & _); try reflexivity.
  { intros other s. unfold session_of. rewrite sessions_w1.
    by intros [<- _]%lookup_singleton_Some. }
  by exists w'.
Defined.

(** The line [progress] arrives in two chunks of ASCII bytes, which the
    decoder of node maps to the characters of the same codes. *)
Definition chunk_a : list Byte.byte := list_byte_of_string "pro".

Definition chunk_b : list Byte.byte :=
  list_byte_of_string ("gress" +:+ ProcessManager.LF).

Lemma stdout_cut_between_characters_is_invisible_witness :
  string_of_list_byte (chunk_a ++ chunk_b)
    = string_of_list_byte chunk_a +:+ string_of_list_byte chunk_b
  ∧ Proxy.stdout_data parse_line string_of_list_byte "session-u0" ""
                      (chunk_a ++ chunk_b) w1
    = (let! buffer1 :=
         Proxy.stdout_data parse_line string_of_list_byte "session-u0" ""
                           chunk_a in
       Proxy.stdout_data parse_line string_of_list_byte "session-u0" buffer1
                         chunk_b) w1
  ∧ (messageQueue
       <$> session_of
             (after (Proxy.stdout_data parse_line string_of_list_byte
                       "session-u0" "" (chunk_a ++ chunk_b)) w1) "u0")
    = Some [Single progress].
Proof.
  split; [reflexivity|]. split; [|reflexivity].
  apply (stdout_cut_between_characters_is_invisible parse_line
           string_of_list_byte "session-u0" "" chunk_a chunk_b w1).
  reflexivity.
Defined.

Lemma parseRequest_method_object_witness :
  Transport.parseRequest
    (JObj [("jsonrpc", JStr "2.0"); ("id", JBool true);
           ("method", JStr "tools/list")])
  = Some (Single (Notification (mkNotification "tools/list" None))).
Proof.
  exact (parseRequest_method_object
           [("jsonrpc", JStr "2.0"); ("id", JBool true);
            ("method", JStr "tools/list")] "tools/list" eq_refl eq_refl).
Defined.

Lemma parseRequest_requires_version_witness :
  (∃ fs, list_body = JObj fs ∧ get "jsonrpc" fs = Some (JStr "2.0"))
  ∨ (∃ items, list_body = JArr items ∧ items ≠ []
       ∧ Forall (λ item, ∃ fs, item = JObj fs
                               ∧ get "jsonrpc" fs = Some (JStr "2.0"))
                items).
Proof.
  exact (parseRequest_requires_version list_body (Single list_call) eq_refl).
Defined.






Lemma get_without_session_is_refused_witness :
  ∃ w' res',
    Http.GET 0 "/echo" (get_stream "u9") w1 = Some (w', Ok (nextLoc w1))
    ∧ sockets w' !! nextLoc w1 = Some res'
    ∧ statusCode res' = Some 404
    ∧ ended res' = true
    ∧ sessionManager w' = sessionManager w1.
Proof.
  destruct (get_without_session_is_refused 0 "/echo" (get_stream "u9") w1)
    as (w' & res' & Hrun & Hres & Hstatus & Hended & _ & Hsm & _).
  { right. intros sid Hsid. vm_compute in Hsid. injection Hsid as <-.
    vm_compute. reflexivity. }
  by exists w', res'.
Defined.


Lemma lookup_keeps_session_for_timeout_witness :
  ∃ w' w'',
    SessionManager.getSession 0 (Proxy.registered 0) "u0" w1
      = Some (w', Ok (Some (set_lastActivityAt 0 u0_session)))
    ∧ SessionManager.getSession 60000 (Proxy.registered 0) "u0" w'
      = Some (w'', Ok (Some (set_lastActivityAt 60000 u0_session)))
    ∧ session_of w'' "u0" = Some (set_lastActivityAt 60000 u0_session).
Proof.
  apply (lookup_keeps_session_for_timeout (Proxy.registered 0) "u0" w1
           u0_session 0 60000); [reflexivity|reflexivity|].
  left. by vm_compute.
Defined.

Lemma queue_is_first_in_first_out_witness :
  ∃ w',
    (SessionManager.queueMessage "u0" (note "a") ;;
     SessionManager.queueMessage "u0" (note "b") ;;
     SessionManager.dequeueMessages "u0") w1
    = Some (w', Ok ([] ++ [note "a"; note "b"]))
    ∧ session_of w' "u0" = Some (set_messageQueue [] u0_session)
    ∧ SessionManager.dequeueMessages "u0" w' = Some (w', Ok []).
Proof.
  exact (queue_is_first_in_first_out "u0" (note "a") (note "b") w1
           u0_session eq_refl).
Defined.

(** A handle is spawned on the fresh server and crashes once. *)
Definition w_spawned : World :=
  after (ProcessManager.spawnProcess "session-u0" echo_config) w0.

Definition w_crashed : World :=
  after (ProcessManager.handleProcessCrash "session-u0") w_spawned.

Lemma restarts_stay_within_budget_witness :
  restartAttempts (processManager w_crashed) !! "session-u0" = Some 1
  ∧ within_budget w_crashed.
Proof.
  split; [reflexivity|].
  apply (restarts_stay_within_budget config).
  apply (rtc_l _ _ w_spawned).
  - by apply (step_spawnProcess "session-u0" echo_config w0 w_spawned
                (Ok 0%nat)).
  - apply rtc_once.
    by apply (step_handleProcessCrash "session-u0" w_spawned w_crashed
                (Ok tt)).
Defined.

Lemma killProcess_is_final_witness :
  ∃ w' p',
    ProcessManager.killProcess "session-u0" w1 = Some (w', Ok tt)
    ∧ processes (processManager w') !! "session-u0" = None
    ∧ heap w' !! 0%nat = Some p'
    ∧ ProcessManager.sendToStdin "{}" p'
      = Throw (Err "Process is not running")
    ∧ ProcessManager.killProcess "session-u0" w' = Some (w', Ok tt).
Proof.
  destruct (killProcess_is_final "session-u0" 0%nat u0_process w1
              eq_refl eq_refl)
    as (w' & p' & Hkill & Hgone & _ & Hheap & _ & Hsend & Hagain).
  exists w', p'. by rewrite Hsend.
Defined.

Lemma handles_allocated_w1 : handles_allocated w1.
Proof.
  intros processId l. rewrite processes_w1.
  intros [_ <-]%lookup_singleton_Some. exists u0_process. apply heap_w1.
Qed.

Lemma shutdown_effect_witness :
  ∃ w',
    Proxy.shutdown 0 w1 = Some (w', Ok tt)
    ∧ sessions (sessionManager w') = ∅
    ∧ processes (processManager w') = ∅
    ∧ ∃ p', heap w' !! 0%nat = Some p'
            ∧ ProcessManager.isRunning p' = false.
Proof.
  destruct (shutdown_effect 0 w1 eq_refl handles_allocated_w1)
    as (w' & Hrun & Hsessions & Hprocesses & Hstopped).
  exists w'. split; [exact Hrun|]. split; [exact Hsessions|].
  split; [exact Hprocesses|]. by apply (Hstopped "session-u0").
Defined.

(** One session is created on the fresh server. *)
Definition w_created : World :=
  after (SessionManager.createSession 0 (Proxy.registered 0) echo_config None)
        w0.

Lemma registry_never_exceeds_cap_witness : bounded w_created.
Proof.
  apply (registry_never_exceeds_cap config). apply rtc_once.
  by apply (step_createSession 0 echo_config None w0 w_created
              (Ok (mkSession "u0" 0 0 echo_config None [] false []))).
Defined.

(** A new handle is allocated on the fresh server and started. *)
Definition w_allocated : World :=
  after (ProcessManager.alloc
           (ProcessManager.new_ManagedProcess "session-u0" echo_config)) w0.

Lemma piped_start_witness :
  piped (mkManaged "session-u0" echo_config
                   (Some (mkChild 4242 (Some "") [])) 0 running).
Proof.
  apply (piped_start 0%nat w_allocated
           (after (ProcessManager.start 0%nat) w_allocated) (Ok tt));
    [|reflexivity|reflexivity].
  intros q Hq. vm_compute in Hq. injection Hq as <-. apply piped_new.
Defined.

(** An error response that carries a null result besides. *)
Definition parse_error_line (data : string) : option json :=
  if String.eqb data "failed" then
    Some (JObj [("jsonrpc", JStr "2.0"); ("id", JStr "t1");
                ("result", JNull);
                ("error", JObj [("code", JNum (-32000));
                                ("message", JStr "failed")])])
  else None.

Lemma null_result_error_response_is_dropped_witness :
  Proxy.handleProcessOutput parse_error_line "session-u0" "failed" w1
  = Some (w1, Ok tt).
Proof.
  apply (null_result_error_response_is_dropped parse_error_line "session-u0"
           "failed"
           [("jsonrpc", JStr "2.0"); ("id", JStr "t1"); ("result", JNull);
            ("error", JObj [("code", JNum (-32000));
                            ("message", JStr "failed")])]
           (IdString "t1") (mkError (-32000) "failed" None) w1);
    reflexivity.
Defined.

(** A runtime in which every child exits with code 1 within the start
    window. *)
Definition failing : Runtime := {|
  JSON_stringify := tag;
  randomUUID w :=
    "u" +:+ String_of_Z (Z.of_nat (size (sessions (sessionManager w))));
  spawn_pid _ _ := 4242;
  start_outcome _ _ := Exited (Some 1);
  await_response _ _ w := (w, Throw (Err "Response timeout"));
|}.

Lemma failed_start_leaves_no_session_witness :
  ∃ w' e,
    @Proxy.createSessionWithProcess failing 0 echo_config w0
      = Some (w', Throw e)
    ∧ sessions (sessionManager w') = sessions (sessionManager w0)
    ∧ processes (processManager w') = processes (processManager w0)
    ∧ sockets w' = sockets w0.
Proof.
  apply (@failed_start_leaves_no_session failing 0 echo_config w0);
    [by vm_compute|reflexivity|reflexivity|].
  intros w'. simpl. discriminate.
Defined.

End MoreExamples.
